(** * Pointy: the tour engine of [src/pointy.js], embedded in Rocq

    The class [Pointy] drives an animated pointer through a list of steps.
    This development embeds its orchestration logic: the instance fields as
    a record, every method as a computation in a state-and-exception monad
    over that record, the browser's timers as a store of pending callbacks
    held in the same state, and the event bus with its listener table.

    What is kept of the browser:
    - [setTimeout], [setInterval] and [requestAnimationFrame] register a
      pending timer whose callback is one constructor of [Callback] per
      closure of the source; [fire] lets a pending timer that is due run.
      Which of several due timers runs first is left to the caller of
      [fire]; the browser's order is one of the orders allowed here.
    - [Date.now()], [performance.now()], [document.querySelector],
      [getBoundingClientRect] and the scroll offsets are read from an
      environment [Env] that is a parameter of every method that reads
      them.
    - Of the DOM only what the engine reads back: [bubble.style.opacity] and
      [bubbleText.innerHTML]. Writes to styles and class lists, and the
      closures that only write styles, are not represented.
    - The [resize] and [scroll] listeners of the window call
      [updatePosition], which can be run in any state here.
    - Listeners and user callbacks are observers: called with the event
      data they either return or throw; they do not call back into the
      instance. The [pointy: this] property of the event data is therefore
      left out, and so are the pixel coordinates [initialPosition: {x, y}]
      of the two intro events.
    - The listener table is a finite map from event names to listener
      arrays; the properties an object literal inherits ([toString],
      [constructor], ...) are no event names of the engine.
    - Numbers are integers: times in milliseconds, coordinates in pixels.
      The step and message indices are the exception: [goToStep] and
      [goToMessage] compare and store what they are given, so an index is
      an integer, [NaN] or [undefined] ([Index]).
    - [document.querySelector] is total: selectors are well formed.

    Embedded: the constructor, the event bus, tracking, [updatePosition],
    [show], [hide], [restart], [destroy], [reset], the message cursor and
    its cycle, [setMessages], autoplay, [goToStep], [next], [prev],
    [pointTo], [updateTarget], every configuration setter, the getters,
    and the timer callbacks of all of these.

    Not embedded: [setMessage], which writes into the array of messages in
    place (an array that can be the [content] of a step);
    [animateToInitialPosition]; the style sheet ([generateClassNames],
    [generateStyles], [injectStyles]) and the easing names. *)

From Stdlib Require Import ZArith String List Bool Lia.
From stdpp Require Import base option list strings gmap.
Import ListNotations.

Local Open Scope string_scope.
Local Open Scope Z_scope.

(** ** Values of the source language *)

(** A DOM element, by identity. *)
Definition Elem : Type := nat.

(** What a caller passes as a step or message index, and what the two
    cursors then hold: an integer, [NaN], or [undefined] (an omitted
    argument). *)
Inductive Index : Type :=
| Int (z : Z)
| NaN
| Undefined.

Coercion Int : Z >-> Index.

(** [Number(i)]; [None] is [NaN]. *)
Definition to_number (i : Index) : option Z :=
  match i with
  | Int z => Some z
  | NaN | Undefined => None
  end.

(** [i < n], [i > n], [i >= n]: a comparison with [NaN] is false. *)
Definition Index_ltb (i : Index) (n : Z) : bool :=
  match to_number i with Some z => z <? n | None => false end.

Definition Index_gtb (i : Index) (n : Z) : bool :=
  match to_number i with Some z => n <? z | None => false end.

Definition Index_geb (i : Index) (n : Z) : bool :=
  match to_number i with Some z => n <=? z | None => false end.

(** [i === n] *)
Definition Index_is (i : Index) (n : Z) : bool :=
  match i with
  | Int z => z =? n
  | NaN | Undefined => false
  end.

(** [i + k] *)
Definition Index_add (i : Index) (k : Z) : Index :=
  match to_number i with Some z => Int (z + k) | None => NaN end.

(** [i % n]: the sign of the dividend; [NaN] for [n = 0]. *)
Definition Index_rem (i : Index) (n : Z) : Index :=
  match to_number i with
  | Some z => if n =? 0 then NaN else Int (Z.rem z n)
  | None => NaN
  end.

(** [array[i]]: [undefined] ([None]) unless [i] is the index of an element. *)
Definition at_index {A : Type} (l : list A) (i : Index) : option A :=
  match i with
  | Int z => if z <? 0 then None else l !! Z.to_nat z
  | NaN | Undefined => None
  end.

(** What [Pointy.getTargetElement] accepts: a selector string, an element,
    or nothing ([null] / [undefined]). *)
Inductive Target : Type :=
| TSel (selector : string)
| TElem (el : Elem)
| TNone.

(** One message: a string of HTML, a rendered node (a React element), or
    [null] / [undefined]. *)
Inductive Msg : Type :=
| MUndef
| MNull
| MStr (text : string)
| MNode (node : nat).

(** [string | string[]]: the [content] of a step. *)
Inductive Content : Type :=
| CSingle (m : Msg)
| CArray (ms : list Msg).

(** [Array.isArray(content) ? content : [content]] *)
Definition to_messages (content : Content) : list Msg :=
  match content with
  | CArray ms => ms
  | CSingle m => [m]
  end.

(** A step [{ target, content, direction?, duration? }]; an absent optional
    property is [None]. *)
Record Step : Type := mkStep {
  target : Target;
  content : Content;
  direction : option string;
  duration : option Z
}.

(** [initialPosition]: a preset name or selector (a string), or an element. *)
Inductive Position : Type :=
| PosStr (name : string)
| PosElem (el : Elem).

(** Values carried by event payloads. *)
Inductive Val : Type :=
| VUndef
| VNull
| VBool (b : bool)
| VNum (n : Z)
| VNaN
| VStr (s : string)
| VElem (el : Elem)
| VMsg (m : Msg)
| VMsgs (ms : list Msg)
| VContent (c : Content)
| VStep (st : Step)
| VPosition (p : Position)
| VPoint (x : Z) (y : Z).

(** An object literal, as the ordered list of its properties. *)
Definition Obj : Type := list (string * Val).

(** [{ ...o, k: v }]: an existing property keeps its place and takes the
    new value, a new one goes last. *)
Fixpoint obj_set (k : string) (v : Val) (o : Obj) : Obj :=
  match o with
  | [] => [(k, v)]
  | (k', v') :: o' => if String.eqb k' k then (k, v) :: o' else (k', v') :: obj_set k v o'
  end.

Definition val_of_elem (e : option Elem) : Val :=
  match e with Some el => VElem el | None => VNull end.

Definition val_of_index (i : Index) : Val :=
  match i with
  | Int z => VNum z
  | NaN => VNaN
  | Undefined => VUndef
  end.

Definition val_of_step (st : option Step) : Val :=
  match st with Some step => VStep step | None => VUndef end.

Definition val_of_num (n : option Z) : Val :=
  match n with Some z => VNum z | None => VNull end.

(** JavaScript truthiness of a [number | null]. *)
Definition truthy (n : option Z) : bool :=
  match n with
  | Some z => negb (z =? 0)
  | None => false
  end.

(** [x || null] on an optional string: the empty string is falsy. *)
Definition or_null (x : option string) : option string :=
  match x with
  | Some s => if String.eqb s "" then None else Some s
  | None => None
  end.

(** ** Completions, listeners, timers, observations *)

(** How a call ends: it returns, or it throws. *)
Inductive Completion (A : Type) : Type :=
| Normal (a : A)
| Thrown (e : Val).
Arguments Normal {A} a.
Arguments Thrown {A} e.

(** The object a listener receives: the payload with its [type]. *)
Definition EventData : Type := Obj.

(** A listener: a function identified by [h_id] (function identity is what
    [off] compares), which returns or throws on the event data. *)
Record Handler : Type := mkHandler {
  h_id : nat;
  h_call : EventData -> Completion unit
}.

(** The [onStepChange] / [onComplete] options. *)
Record UserCallback : Type := mkUserCallback {
  cb_id : nat;
  cb_call : Completion unit
}.

(** One entry of [_targetYHistory]. *)
Record Sample : Type := mkSample {
  y : Z;
  time : Z
}.

(** The closures the source hands to [setTimeout], [setInterval] and
    [requestAnimationFrame], with the variables each one captures. *)
Inductive Callback : Type :=
| CbIntroFadeEnd (isFirstStepStart : bool)
| CbIntroArrive
| CbRestart
| CbResetSettle
| CbTextSwap (newContent : Msg)
| CbMessageCycle
| CbStepSettle (index : Index) (step : Step) (previousTarget : option Elem)
| CbAutoplay (duration : Z)
| CbAutoplayAfterMessages
| CbAutoHide (delay : Z) (source : string)
| CbPointToSettle (previousTarget : option Elem) (content : Content) (resolvedDirection : string)
| CbTrack.

Inductive TimerKind : Type :=
| KTimeout
| KInterval
| KFrame.

(** A pending timer: its id (a positive integer, as [setTimeout] returns
    them), the time it was registered at, the delay it was registered with,
    and its callback. *)
Record Timer : Type := mkTimer {
  tid : positive;
  kind : TimerKind;
  registered : Z;
  delay : Z;
  callback : Callback
}.

(** What the outside can observe of a run, in order: every entry into
    [_emit], every listener call, console output, user callbacks. *)
Inductive Obs : Type :=
| Emit (event : string) (data : EventData)
| Deliver (key : string) (h : nat) (data : EventData)
| ConsoleError (msg : string) (e : Val)
| ConsoleWarn (msg : string)
| StepChangeCb (cb : nat) (index : Index) (step : Step)
| CompleteCb (cb : nat).

(** ** The instance *)

(** The fields of [this], in the order the constructor assigns them, then
    the flags later methods add ([_rafId], [_messageCyclePausedByHide],
    [_wasAutoplayActiveBeforeHide], [_messageCyclePaused]; absent means
    [false] / [None]), the two DOM properties that are read back, and the
    timer store and observation trace. *)
Record Pointy : Type := mkPointy {
  steps : list Step;
  offsetX : Z;
  offsetY : Z;
  tracking : bool;
  trackingFps : Z;
  animationDuration : Z;
  introFadeDuration : Z;
  bubbleFadeDuration : Z;
  messageTransitionDuration : Z;
  easing : string;
  resetOnComplete : bool;
  floatingAnimation : bool;
  initialPosition : Position;
  initialPositionOffset : Z;
  resetPositionOnHide : bool;
  autoplay : option Z;
  autoplayEnabled : bool;
  autoplayWaitForMessages : bool;
  hideOnComplete : bool;
  hideOnCompleteDelay : option Z;
  pointerSvg : string;
  onStepChange : option UserCallback;
  onComplete : option UserCallback;
  _autoplayTimeoutId : option positive;
  _autoplayPaused : bool;
  _messagesCompletedForStep : bool;
  _hideOnCompleteTimeoutId : option positive;
  _eventListeners : gmap string (list Handler);
  targetElement : option Elem;
  currentStepIndex : Index;
  currentMessageIndex : Index;
  currentMessages : list Msg;
  messageInterval : option Z;
  _messageIntervalId : option positive;
  isVisible : bool;
  isPointingUp : bool;
  lastTargetY : option Z;
  _targetYHistory : list Sample;
  _lastDirectionChangeTime : Z;
  manualDirection : option string;
  moveTimeout : option positive;
  _hasShownBefore : bool;
  _lastTrackTime : Z;
  _rafId : option positive;
  _messageCyclePausedByHide : bool;
  _wasAutoplayActiveBeforeHide : bool;
  _messageCyclePaused : bool;
  bubble_opacity : string;
  bubbleText_innerHTML : Msg;
  timers : list Timer;
  next_timer_id : positive;
  trace : list Obs
}.

(** Field assignment [this.f = v]: one function per field, every other field kept. *)
Definition set_offsetX (v : Z) (s : Pointy) : Pointy :=
  mkPointy (steps s) v (offsetY s) (tracking s) (trackingFps s) (animationDuration s) (introFadeDuration s)
    (bubbleFadeDuration s) (messageTransitionDuration s) (easing s) (resetOnComplete s) (floatingAnimation
    s) (initialPosition s) (initialPositionOffset s) (resetPositionOnHide s) (autoplay s) (autoplayEnabled
    s) (autoplayWaitForMessages s) (hideOnComplete s) (hideOnCompleteDelay s) (pointerSvg s) (onStepChange
    s) (onComplete s) (_autoplayTimeoutId s) (_autoplayPaused s) (_messagesCompletedForStep s)
    (_hideOnCompleteTimeoutId s) (_eventListeners s) (targetElement s) (currentStepIndex s)
    (currentMessageIndex s) (currentMessages s) (messageInterval s) (_messageIntervalId s) (isVisible s)
    (isPointingUp s) (lastTargetY s) (_targetYHistory s) (_lastDirectionChangeTime s) (manualDirection s)
    (moveTimeout s) (_hasShownBefore s) (_lastTrackTime s) (_rafId s) (_messageCyclePausedByHide s)
    (_wasAutoplayActiveBeforeHide s) (_messageCyclePaused s) (bubble_opacity s) (bubbleText_innerHTML s)
    (timers s) (next_timer_id s) (trace s).
Definition set_offsetY (v : Z) (s : Pointy) : Pointy :=
  mkPointy (steps s) (offsetX s) v (tracking s) (trackingFps s) (animationDuration s) (introFadeDuration s)
    (bubbleFadeDuration s) (messageTransitionDuration s) (easing s) (resetOnComplete s) (floatingAnimation
    s) (initialPosition s) (initialPositionOffset s) (resetPositionOnHide s) (autoplay s) (autoplayEnabled
    s) (autoplayWaitForMessages s) (hideOnComplete s) (hideOnCompleteDelay s) (pointerSvg s) (onStepChange
    s) (onComplete s) (_autoplayTimeoutId s) (_autoplayPaused s) (_messagesCompletedForStep s)
    (_hideOnCompleteTimeoutId s) (_eventListeners s) (targetElement s) (currentStepIndex s)
    (currentMessageIndex s) (currentMessages s) (messageInterval s) (_messageIntervalId s) (isVisible s)
    (isPointingUp s) (lastTargetY s) (_targetYHistory s) (_lastDirectionChangeTime s) (manualDirection s)
    (moveTimeout s) (_hasShownBefore s) (_lastTrackTime s) (_rafId s) (_messageCyclePausedByHide s)
    (_wasAutoplayActiveBeforeHide s) (_messageCyclePaused s) (bubble_opacity s) (bubbleText_innerHTML s)
    (timers s) (next_timer_id s) (trace s).
Definition set_tracking (v : bool) (s : Pointy) : Pointy :=
  mkPointy (steps s) (offsetX s) (offsetY s) v (trackingFps s) (animationDuration s) (introFadeDuration s)
    (bubbleFadeDuration s) (messageTransitionDuration s) (easing s) (resetOnComplete s) (floatingAnimation
    s) (initialPosition s) (initialPositionOffset s) (resetPositionOnHide s) (autoplay s) (autoplayEnabled
    s) (autoplayWaitForMessages s) (hideOnComplete s) (hideOnCompleteDelay s) (pointerSvg s) (onStepChange
    s) (onComplete s) (_autoplayTimeoutId s) (_autoplayPaused s) (_messagesCompletedForStep s)
    (_hideOnCompleteTimeoutId s) (_eventListeners s) (targetElement s) (currentStepIndex s)
    (currentMessageIndex s) (currentMessages s) (messageInterval s) (_messageIntervalId s) (isVisible s)
    (isPointingUp s) (lastTargetY s) (_targetYHistory s) (_lastDirectionChangeTime s) (manualDirection s)
    (moveTimeout s) (_hasShownBefore s) (_lastTrackTime s) (_rafId s) (_messageCyclePausedByHide s)
    (_wasAutoplayActiveBeforeHide s) (_messageCyclePaused s) (bubble_opacity s) (bubbleText_innerHTML s)
    (timers s) (next_timer_id s) (trace s).
Definition set_trackingFps (v : Z) (s : Pointy) : Pointy :=
  mkPointy (steps s) (offsetX s) (offsetY s) (tracking s) v (animationDuration s) (introFadeDuration s)
    (bubbleFadeDuration s) (messageTransitionDuration s) (easing s) (resetOnComplete s) (floatingAnimation
    s) (initialPosition s) (initialPositionOffset s) (resetPositionOnHide s) (autoplay s) (autoplayEnabled
    s) (autoplayWaitForMessages s) (hideOnComplete s) (hideOnCompleteDelay s) (pointerSvg s) (onStepChange
    s) (onComplete s) (_autoplayTimeoutId s) (_autoplayPaused s) (_messagesCompletedForStep s)
    (_hideOnCompleteTimeoutId s) (_eventListeners s) (targetElement s) (currentStepIndex s)
    (currentMessageIndex s) (currentMessages s) (messageInterval s) (_messageIntervalId s) (isVisible s)
    (isPointingUp s) (lastTargetY s) (_targetYHistory s) (_lastDirectionChangeTime s) (manualDirection s)
    (moveTimeout s) (_hasShownBefore s) (_lastTrackTime s) (_rafId s) (_messageCyclePausedByHide s)
    (_wasAutoplayActiveBeforeHide s) (_messageCyclePaused s) (bubble_opacity s) (bubbleText_innerHTML s)
    (timers s) (next_timer_id s) (trace s).
Definition set_animationDuration (v : Z) (s : Pointy) : Pointy :=
  mkPointy (steps s) (offsetX s) (offsetY s) (tracking s) (trackingFps s) v (introFadeDuration s)
    (bubbleFadeDuration s) (messageTransitionDuration s) (easing s) (resetOnComplete s) (floatingAnimation
    s) (initialPosition s) (initialPositionOffset s) (resetPositionOnHide s) (autoplay s) (autoplayEnabled
    s) (autoplayWaitForMessages s) (hideOnComplete s) (hideOnCompleteDelay s) (pointerSvg s) (onStepChange
    s) (onComplete s) (_autoplayTimeoutId s) (_autoplayPaused s) (_messagesCompletedForStep s)
    (_hideOnCompleteTimeoutId s) (_eventListeners s) (targetElement s) (currentStepIndex s)
    (currentMessageIndex s) (currentMessages s) (messageInterval s) (_messageIntervalId s) (isVisible s)
    (isPointingUp s) (lastTargetY s) (_targetYHistory s) (_lastDirectionChangeTime s) (manualDirection s)
    (moveTimeout s) (_hasShownBefore s) (_lastTrackTime s) (_rafId s) (_messageCyclePausedByHide s)
    (_wasAutoplayActiveBeforeHide s) (_messageCyclePaused s) (bubble_opacity s) (bubbleText_innerHTML s)
    (timers s) (next_timer_id s) (trace s).
Definition set_introFadeDuration (v : Z) (s : Pointy) : Pointy :=
  mkPointy (steps s) (offsetX s) (offsetY s) (tracking s) (trackingFps s) (animationDuration s) v
    (bubbleFadeDuration s) (messageTransitionDuration s) (easing s) (resetOnComplete s) (floatingAnimation
    s) (initialPosition s) (initialPositionOffset s) (resetPositionOnHide s) (autoplay s) (autoplayEnabled
    s) (autoplayWaitForMessages s) (hideOnComplete s) (hideOnCompleteDelay s) (pointerSvg s) (onStepChange
    s) (onComplete s) (_autoplayTimeoutId s) (_autoplayPaused s) (_messagesCompletedForStep s)
    (_hideOnCompleteTimeoutId s) (_eventListeners s) (targetElement s) (currentStepIndex s)
    (currentMessageIndex s) (currentMessages s) (messageInterval s) (_messageIntervalId s) (isVisible s)
    (isPointingUp s) (lastTargetY s) (_targetYHistory s) (_lastDirectionChangeTime s) (manualDirection s)
    (moveTimeout s) (_hasShownBefore s) (_lastTrackTime s) (_rafId s) (_messageCyclePausedByHide s)
    (_wasAutoplayActiveBeforeHide s) (_messageCyclePaused s) (bubble_opacity s) (bubbleText_innerHTML s)
    (timers s) (next_timer_id s) (trace s).
Definition set_bubbleFadeDuration (v : Z) (s : Pointy) : Pointy :=
  mkPointy (steps s) (offsetX s) (offsetY s) (tracking s) (trackingFps s) (animationDuration s)
    (introFadeDuration s) v (messageTransitionDuration s) (easing s) (resetOnComplete s) (floatingAnimation
    s) (initialPosition s) (initialPositionOffset s) (resetPositionOnHide s) (autoplay s) (autoplayEnabled
    s) (autoplayWaitForMessages s) (hideOnComplete s) (hideOnCompleteDelay s) (pointerSvg s) (onStepChange
    s) (onComplete s) (_autoplayTimeoutId s) (_autoplayPaused s) (_messagesCompletedForStep s)
    (_hideOnCompleteTimeoutId s) (_eventListeners s) (targetElement s) (currentStepIndex s)
    (currentMessageIndex s) (currentMessages s) (messageInterval s) (_messageIntervalId s) (isVisible s)
    (isPointingUp s) (lastTargetY s) (_targetYHistory s) (_lastDirectionChangeTime s) (manualDirection s)
    (moveTimeout s) (_hasShownBefore s) (_lastTrackTime s) (_rafId s) (_messageCyclePausedByHide s)
    (_wasAutoplayActiveBeforeHide s) (_messageCyclePaused s) (bubble_opacity s) (bubbleText_innerHTML s)
    (timers s) (next_timer_id s) (trace s).
Definition set_messageTransitionDuration (v : Z) (s : Pointy) : Pointy :=
  mkPointy (steps s) (offsetX s) (offsetY s) (tracking s) (trackingFps s) (animationDuration s)
    (introFadeDuration s) (bubbleFadeDuration s) v (easing s) (resetOnComplete s) (floatingAnimation s)
    (initialPosition s) (initialPositionOffset s) (resetPositionOnHide s) (autoplay s) (autoplayEnabled s)
    (autoplayWaitForMessages s) (hideOnComplete s) (hideOnCompleteDelay s) (pointerSvg s) (onStepChange s)
    (onComplete s) (_autoplayTimeoutId s) (_autoplayPaused s) (_messagesCompletedForStep s)
    (_hideOnCompleteTimeoutId s) (_eventListeners s) (targetElement s) (currentStepIndex s)
    (currentMessageIndex s) (currentMessages s) (messageInterval s) (_messageIntervalId s) (isVisible s)
    (isPointingUp s) (lastTargetY s) (_targetYHistory s) (_lastDirectionChangeTime s) (manualDirection s)
    (moveTimeout s) (_hasShownBefore s) (_lastTrackTime s) (_rafId s) (_messageCyclePausedByHide s)
    (_wasAutoplayActiveBeforeHide s) (_messageCyclePaused s) (bubble_opacity s) (bubbleText_innerHTML s)
    (timers s) (next_timer_id s) (trace s).
Definition set_easing (v : string) (s : Pointy) : Pointy :=
  mkPointy (steps s) (offsetX s) (offsetY s) (tracking s) (trackingFps s) (animationDuration s)
    (introFadeDuration s) (bubbleFadeDuration s) (messageTransitionDuration s) v (resetOnComplete s)
    (floatingAnimation s) (initialPosition s) (initialPositionOffset s) (resetPositionOnHide s) (autoplay s)
    (autoplayEnabled s) (autoplayWaitForMessages s) (hideOnComplete s) (hideOnCompleteDelay s) (pointerSvg
    s) (onStepChange s) (onComplete s) (_autoplayTimeoutId s) (_autoplayPaused s) (_messagesCompletedForStep
    s) (_hideOnCompleteTimeoutId s) (_eventListeners s) (targetElement s) (currentStepIndex s)
    (currentMessageIndex s) (currentMessages s) (messageInterval s) (_messageIntervalId s) (isVisible s)
    (isPointingUp s) (lastTargetY s) (_targetYHistory s) (_lastDirectionChangeTime s) (manualDirection s)
    (moveTimeout s) (_hasShownBefore s) (_lastTrackTime s) (_rafId s) (_messageCyclePausedByHide s)
    (_wasAutoplayActiveBeforeHide s) (_messageCyclePaused s) (bubble_opacity s) (bubbleText_innerHTML s)
    (timers s) (next_timer_id s) (trace s).
Definition set_resetOnComplete (v : bool) (s : Pointy) : Pointy :=
  mkPointy (steps s) (offsetX s) (offsetY s) (tracking s) (trackingFps s) (animationDuration s)
    (introFadeDuration s) (bubbleFadeDuration s) (messageTransitionDuration s) (easing s) v
    (floatingAnimation s) (initialPosition s) (initialPositionOffset s) (resetPositionOnHide s) (autoplay s)
    (autoplayEnabled s) (autoplayWaitForMessages s) (hideOnComplete s) (hideOnCompleteDelay s) (pointerSvg
    s) (onStepChange s) (onComplete s) (_autoplayTimeoutId s) (_autoplayPaused s) (_messagesCompletedForStep
    s) (_hideOnCompleteTimeoutId s) (_eventListeners s) (targetElement s) (currentStepIndex s)
    (currentMessageIndex s) (currentMessages s) (messageInterval s) (_messageIntervalId s) (isVisible s)
    (isPointingUp s) (lastTargetY s) (_targetYHistory s) (_lastDirectionChangeTime s) (manualDirection s)
    (moveTimeout s) (_hasShownBefore s) (_lastTrackTime s) (_rafId s) (_messageCyclePausedByHide s)
    (_wasAutoplayActiveBeforeHide s) (_messageCyclePaused s) (bubble_opacity s) (bubbleText_innerHTML s)
    (timers s) (next_timer_id s) (trace s).
Definition set_floatingAnimation (v : bool) (s : Pointy) : Pointy :=
  mkPointy (steps s) (offsetX s) (offsetY s) (tracking s) (trackingFps s) (animationDuration s)
    (introFadeDuration s) (bubbleFadeDuration s) (messageTransitionDuration s) (easing s) (resetOnComplete
    s) v (initialPosition s) (initialPositionOffset s) (resetPositionOnHide s) (autoplay s) (autoplayEnabled
    s) (autoplayWaitForMessages s) (hideOnComplete s) (hideOnCompleteDelay s) (pointerSvg s) (onStepChange
    s) (onComplete s) (_autoplayTimeoutId s) (_autoplayPaused s) (_messagesCompletedForStep s)
    (_hideOnCompleteTimeoutId s) (_eventListeners s) (targetElement s) (currentStepIndex s)
    (currentMessageIndex s) (currentMessages s) (messageInterval s) (_messageIntervalId s) (isVisible s)
    (isPointingUp s) (lastTargetY s) (_targetYHistory s) (_lastDirectionChangeTime s) (manualDirection s)
    (moveTimeout s) (_hasShownBefore s) (_lastTrackTime s) (_rafId s) (_messageCyclePausedByHide s)
    (_wasAutoplayActiveBeforeHide s) (_messageCyclePaused s) (bubble_opacity s) (bubbleText_innerHTML s)
    (timers s) (next_timer_id s) (trace s).
Definition set_initialPosition (v : Position) (s : Pointy) : Pointy :=
  mkPointy (steps s) (offsetX s) (offsetY s) (tracking s) (trackingFps s) (animationDuration s)
    (introFadeDuration s) (bubbleFadeDuration s) (messageTransitionDuration s) (easing s) (resetOnComplete
    s) (floatingAnimation s) v (initialPositionOffset s) (resetPositionOnHide s) (autoplay s)
    (autoplayEnabled s) (autoplayWaitForMessages s) (hideOnComplete s) (hideOnCompleteDelay s) (pointerSvg
    s) (onStepChange s) (onComplete s) (_autoplayTimeoutId s) (_autoplayPaused s) (_messagesCompletedForStep
    s) (_hideOnCompleteTimeoutId s) (_eventListeners s) (targetElement s) (currentStepIndex s)
    (currentMessageIndex s) (currentMessages s) (messageInterval s) (_messageIntervalId s) (isVisible s)
    (isPointingUp s) (lastTargetY s) (_targetYHistory s) (_lastDirectionChangeTime s) (manualDirection s)
    (moveTimeout s) (_hasShownBefore s) (_lastTrackTime s) (_rafId s) (_messageCyclePausedByHide s)
    (_wasAutoplayActiveBeforeHide s) (_messageCyclePaused s) (bubble_opacity s) (bubbleText_innerHTML s)
    (timers s) (next_timer_id s) (trace s).
Definition set_initialPositionOffset (v : Z) (s : Pointy) : Pointy :=
  mkPointy (steps s) (offsetX s) (offsetY s) (tracking s) (trackingFps s) (animationDuration s)
    (introFadeDuration s) (bubbleFadeDuration s) (messageTransitionDuration s) (easing s) (resetOnComplete
    s) (floatingAnimation s) (initialPosition s) v (resetPositionOnHide s) (autoplay s) (autoplayEnabled s)
    (autoplayWaitForMessages s) (hideOnComplete s) (hideOnCompleteDelay s) (pointerSvg s) (onStepChange s)
    (onComplete s) (_autoplayTimeoutId s) (_autoplayPaused s) (_messagesCompletedForStep s)
    (_hideOnCompleteTimeoutId s) (_eventListeners s) (targetElement s) (currentStepIndex s)
    (currentMessageIndex s) (currentMessages s) (messageInterval s) (_messageIntervalId s) (isVisible s)
    (isPointingUp s) (lastTargetY s) (_targetYHistory s) (_lastDirectionChangeTime s) (manualDirection s)
    (moveTimeout s) (_hasShownBefore s) (_lastTrackTime s) (_rafId s) (_messageCyclePausedByHide s)
    (_wasAutoplayActiveBeforeHide s) (_messageCyclePaused s) (bubble_opacity s) (bubbleText_innerHTML s)
    (timers s) (next_timer_id s) (trace s).
Definition set_autoplay (v : option Z) (s : Pointy) : Pointy :=
  mkPointy (steps s) (offsetX s) (offsetY s) (tracking s) (trackingFps s) (animationDuration s)
    (introFadeDuration s) (bubbleFadeDuration s) (messageTransitionDuration s) (easing s) (resetOnComplete
    s) (floatingAnimation s) (initialPosition s) (initialPositionOffset s) (resetPositionOnHide s) v
    (autoplayEnabled s) (autoplayWaitForMessages s) (hideOnComplete s) (hideOnCompleteDelay s) (pointerSvg
    s) (onStepChange s) (onComplete s) (_autoplayTimeoutId s) (_autoplayPaused s) (_messagesCompletedForStep
    s) (_hideOnCompleteTimeoutId s) (_eventListeners s) (targetElement s) (currentStepIndex s)
    (currentMessageIndex s) (currentMessages s) (messageInterval s) (_messageIntervalId s) (isVisible s)
    (isPointingUp s) (lastTargetY s) (_targetYHistory s) (_lastDirectionChangeTime s) (manualDirection s)
    (moveTimeout s) (_hasShownBefore s) (_lastTrackTime s) (_rafId s) (_messageCyclePausedByHide s)
    (_wasAutoplayActiveBeforeHide s) (_messageCyclePaused s) (bubble_opacity s) (bubbleText_innerHTML s)
    (timers s) (next_timer_id s) (trace s).
Definition set_autoplayEnabled (v : bool) (s : Pointy) : Pointy :=
  mkPointy (steps s) (offsetX s) (offsetY s) (tracking s) (trackingFps s) (animationDuration s)
    (introFadeDuration s) (bubbleFadeDuration s) (messageTransitionDuration s) (easing s) (resetOnComplete
    s) (floatingAnimation s) (initialPosition s) (initialPositionOffset s) (resetPositionOnHide s) (autoplay
    s) v (autoplayWaitForMessages s) (hideOnComplete s) (hideOnCompleteDelay s) (pointerSvg s) (onStepChange
    s) (onComplete s) (_autoplayTimeoutId s) (_autoplayPaused s) (_messagesCompletedForStep s)
    (_hideOnCompleteTimeoutId s) (_eventListeners s) (targetElement s) (currentStepIndex s)
    (currentMessageIndex s) (currentMessages s) (messageInterval s) (_messageIntervalId s) (isVisible s)
    (isPointingUp s) (lastTargetY s) (_targetYHistory s) (_lastDirectionChangeTime s) (manualDirection s)
    (moveTimeout s) (_hasShownBefore s) (_lastTrackTime s) (_rafId s) (_messageCyclePausedByHide s)
    (_wasAutoplayActiveBeforeHide s) (_messageCyclePaused s) (bubble_opacity s) (bubbleText_innerHTML s)
    (timers s) (next_timer_id s) (trace s).
Definition set_autoplayWaitForMessages (v : bool) (s : Pointy) : Pointy :=
  mkPointy (steps s) (offsetX s) (offsetY s) (tracking s) (trackingFps s) (animationDuration s)
    (introFadeDuration s) (bubbleFadeDuration s) (messageTransitionDuration s) (easing s) (resetOnComplete
    s) (floatingAnimation s) (initialPosition s) (initialPositionOffset s) (resetPositionOnHide s) (autoplay
    s) (autoplayEnabled s) v (hideOnComplete s) (hideOnCompleteDelay s) (pointerSvg s) (onStepChange s)
    (onComplete s) (_autoplayTimeoutId s) (_autoplayPaused s) (_messagesCompletedForStep s)
    (_hideOnCompleteTimeoutId s) (_eventListeners s) (targetElement s) (currentStepIndex s)
    (currentMessageIndex s) (currentMessages s) (messageInterval s) (_messageIntervalId s) (isVisible s)
    (isPointingUp s) (lastTargetY s) (_targetYHistory s) (_lastDirectionChangeTime s) (manualDirection s)
    (moveTimeout s) (_hasShownBefore s) (_lastTrackTime s) (_rafId s) (_messageCyclePausedByHide s)
    (_wasAutoplayActiveBeforeHide s) (_messageCyclePaused s) (bubble_opacity s) (bubbleText_innerHTML s)
    (timers s) (next_timer_id s) (trace s).
Definition set_hideOnComplete (v : bool) (s : Pointy) : Pointy :=
  mkPointy (steps s) (offsetX s) (offsetY s) (tracking s) (trackingFps s) (animationDuration s)
    (introFadeDuration s) (bubbleFadeDuration s) (messageTransitionDuration s) (easing s) (resetOnComplete
    s) (floatingAnimation s) (initialPosition s) (initialPositionOffset s) (resetPositionOnHide s) (autoplay
    s) (autoplayEnabled s) (autoplayWaitForMessages s) v (hideOnCompleteDelay s) (pointerSvg s)
    (onStepChange s) (onComplete s) (_autoplayTimeoutId s) (_autoplayPaused s) (_messagesCompletedForStep s)
    (_hideOnCompleteTimeoutId s) (_eventListeners s) (targetElement s) (currentStepIndex s)
    (currentMessageIndex s) (currentMessages s) (messageInterval s) (_messageIntervalId s) (isVisible s)
    (isPointingUp s) (lastTargetY s) (_targetYHistory s) (_lastDirectionChangeTime s) (manualDirection s)
    (moveTimeout s) (_hasShownBefore s) (_lastTrackTime s) (_rafId s) (_messageCyclePausedByHide s)
    (_wasAutoplayActiveBeforeHide s) (_messageCyclePaused s) (bubble_opacity s) (bubbleText_innerHTML s)
    (timers s) (next_timer_id s) (trace s).
Definition set_hideOnCompleteDelay (v : option Z) (s : Pointy) : Pointy :=
  mkPointy (steps s) (offsetX s) (offsetY s) (tracking s) (trackingFps s) (animationDuration s)
    (introFadeDuration s) (bubbleFadeDuration s) (messageTransitionDuration s) (easing s) (resetOnComplete
    s) (floatingAnimation s) (initialPosition s) (initialPositionOffset s) (resetPositionOnHide s) (autoplay
    s) (autoplayEnabled s) (autoplayWaitForMessages s) (hideOnComplete s) v (pointerSvg s) (onStepChange s)
    (onComplete s) (_autoplayTimeoutId s) (_autoplayPaused s) (_messagesCompletedForStep s)
    (_hideOnCompleteTimeoutId s) (_eventListeners s) (targetElement s) (currentStepIndex s)
    (currentMessageIndex s) (currentMessages s) (messageInterval s) (_messageIntervalId s) (isVisible s)
    (isPointingUp s) (lastTargetY s) (_targetYHistory s) (_lastDirectionChangeTime s) (manualDirection s)
    (moveTimeout s) (_hasShownBefore s) (_lastTrackTime s) (_rafId s) (_messageCyclePausedByHide s)
    (_wasAutoplayActiveBeforeHide s) (_messageCyclePaused s) (bubble_opacity s) (bubbleText_innerHTML s)
    (timers s) (next_timer_id s) (trace s).
Definition set_pointerSvg (v : string) (s : Pointy) : Pointy :=
  mkPointy (steps s) (offsetX s) (offsetY s) (tracking s) (trackingFps s) (animationDuration s)
    (introFadeDuration s) (bubbleFadeDuration s) (messageTransitionDuration s) (easing s) (resetOnComplete
    s) (floatingAnimation s) (initialPosition s) (initialPositionOffset s) (resetPositionOnHide s) (autoplay
    s) (autoplayEnabled s) (autoplayWaitForMessages s) (hideOnComplete s) (hideOnCompleteDelay s) v
    (onStepChange s) (onComplete s) (_autoplayTimeoutId s) (_autoplayPaused s) (_messagesCompletedForStep s)
    (_hideOnCompleteTimeoutId s) (_eventListeners s) (targetElement s) (currentStepIndex s)
    (currentMessageIndex s) (currentMessages s) (messageInterval s) (_messageIntervalId s) (isVisible s)
    (isPointingUp s) (lastTargetY s) (_targetYHistory s) (_lastDirectionChangeTime s) (manualDirection s)
    (moveTimeout s) (_hasShownBefore s) (_lastTrackTime s) (_rafId s) (_messageCyclePausedByHide s)
    (_wasAutoplayActiveBeforeHide s) (_messageCyclePaused s) (bubble_opacity s) (bubbleText_innerHTML s)
    (timers s) (next_timer_id s) (trace s).
Definition set__autoplayTimeoutId (v : option positive) (s : Pointy) : Pointy :=
  mkPointy (steps s) (offsetX s) (offsetY s) (tracking s) (trackingFps s) (animationDuration s)
    (introFadeDuration s) (bubbleFadeDuration s) (messageTransitionDuration s) (easing s) (resetOnComplete
    s) (floatingAnimation s) (initialPosition s) (initialPositionOffset s) (resetPositionOnHide s) (autoplay
    s) (autoplayEnabled s) (autoplayWaitForMessages s) (hideOnComplete s) (hideOnCompleteDelay s)
    (pointerSvg s) (onStepChange s) (onComplete s) v (_autoplayPaused s) (_messagesCompletedForStep s)
    (_hideOnCompleteTimeoutId s) (_eventListeners s) (targetElement s) (currentStepIndex s)
    (currentMessageIndex s) (currentMessages s) (messageInterval s) (_messageIntervalId s) (isVisible s)
    (isPointingUp s) (lastTargetY s) (_targetYHistory s) (_lastDirectionChangeTime s) (manualDirection s)
    (moveTimeout s) (_hasShownBefore s) (_lastTrackTime s) (_rafId s) (_messageCyclePausedByHide s)
    (_wasAutoplayActiveBeforeHide s) (_messageCyclePaused s) (bubble_opacity s) (bubbleText_innerHTML s)
    (timers s) (next_timer_id s) (trace s).
Definition set__autoplayPaused (v : bool) (s : Pointy) : Pointy :=
  mkPointy (steps s) (offsetX s) (offsetY s) (tracking s) (trackingFps s) (animationDuration s)
    (introFadeDuration s) (bubbleFadeDuration s) (messageTransitionDuration s) (easing s) (resetOnComplete
    s) (floatingAnimation s) (initialPosition s) (initialPositionOffset s) (resetPositionOnHide s) (autoplay
    s) (autoplayEnabled s) (autoplayWaitForMessages s) (hideOnComplete s) (hideOnCompleteDelay s)
    (pointerSvg s) (onStepChange s) (onComplete s) (_autoplayTimeoutId s) v (_messagesCompletedForStep s)
    (_hideOnCompleteTimeoutId s) (_eventListeners s) (targetElement s) (currentStepIndex s)
    (currentMessageIndex s) (currentMessages s) (messageInterval s) (_messageIntervalId s) (isVisible s)
    (isPointingUp s) (lastTargetY s) (_targetYHistory s) (_lastDirectionChangeTime s) (manualDirection s)
    (moveTimeout s) (_hasShownBefore s) (_lastTrackTime s) (_rafId s) (_messageCyclePausedByHide s)
    (_wasAutoplayActiveBeforeHide s) (_messageCyclePaused s) (bubble_opacity s) (bubbleText_innerHTML s)
    (timers s) (next_timer_id s) (trace s).
Definition set__messagesCompletedForStep (v : bool) (s : Pointy) : Pointy :=
  mkPointy (steps s) (offsetX s) (offsetY s) (tracking s) (trackingFps s) (animationDuration s)
    (introFadeDuration s) (bubbleFadeDuration s) (messageTransitionDuration s) (easing s) (resetOnComplete
    s) (floatingAnimation s) (initialPosition s) (initialPositionOffset s) (resetPositionOnHide s) (autoplay
    s) (autoplayEnabled s) (autoplayWaitForMessages s) (hideOnComplete s) (hideOnCompleteDelay s)
    (pointerSvg s) (onStepChange s) (onComplete s) (_autoplayTimeoutId s) (_autoplayPaused s) v
    (_hideOnCompleteTimeoutId s) (_eventListeners s) (targetElement s) (currentStepIndex s)
    (currentMessageIndex s) (currentMessages s) (messageInterval s) (_messageIntervalId s) (isVisible s)
    (isPointingUp s) (lastTargetY s) (_targetYHistory s) (_lastDirectionChangeTime s) (manualDirection s)
    (moveTimeout s) (_hasShownBefore s) (_lastTrackTime s) (_rafId s) (_messageCyclePausedByHide s)
    (_wasAutoplayActiveBeforeHide s) (_messageCyclePaused s) (bubble_opacity s) (bubbleText_innerHTML s)
    (timers s) (next_timer_id s) (trace s).
Definition set__hideOnCompleteTimeoutId (v : option positive) (s : Pointy) : Pointy :=
  mkPointy (steps s) (offsetX s) (offsetY s) (tracking s) (trackingFps s) (animationDuration s)
    (introFadeDuration s) (bubbleFadeDuration s) (messageTransitionDuration s) (easing s) (resetOnComplete
    s) (floatingAnimation s) (initialPosition s) (initialPositionOffset s) (resetPositionOnHide s) (autoplay
    s) (autoplayEnabled s) (autoplayWaitForMessages s) (hideOnComplete s) (hideOnCompleteDelay s)
    (pointerSvg s) (onStepChange s) (onComplete s) (_autoplayTimeoutId s) (_autoplayPaused s)
    (_messagesCompletedForStep s) v (_eventListeners s) (targetElement s) (currentStepIndex s)
    (currentMessageIndex s) (currentMessages s) (messageInterval s) (_messageIntervalId s) (isVisible s)
    (isPointingUp s) (lastTargetY s) (_targetYHistory s) (_lastDirectionChangeTime s) (manualDirection s)
    (moveTimeout s) (_hasShownBefore s) (_lastTrackTime s) (_rafId s) (_messageCyclePausedByHide s)
    (_wasAutoplayActiveBeforeHide s) (_messageCyclePaused s) (bubble_opacity s) (bubbleText_innerHTML s)
    (timers s) (next_timer_id s) (trace s).
Definition set__eventListeners (v : gmap string (list Handler)) (s : Pointy) : Pointy :=
  mkPointy (steps s) (offsetX s) (offsetY s) (tracking s) (trackingFps s) (animationDuration s)
    (introFadeDuration s) (bubbleFadeDuration s) (messageTransitionDuration s) (easing s) (resetOnComplete
    s) (floatingAnimation s) (initialPosition s) (initialPositionOffset s) (resetPositionOnHide s) (autoplay
    s) (autoplayEnabled s) (autoplayWaitForMessages s) (hideOnComplete s) (hideOnCompleteDelay s)
    (pointerSvg s) (onStepChange s) (onComplete s) (_autoplayTimeoutId s) (_autoplayPaused s)
    (_messagesCompletedForStep s) (_hideOnCompleteTimeoutId s) v (targetElement s) (currentStepIndex s)
    (currentMessageIndex s) (currentMessages s) (messageInterval s) (_messageIntervalId s) (isVisible s)
    (isPointingUp s) (lastTargetY s) (_targetYHistory s) (_lastDirectionChangeTime s) (manualDirection s)
    (moveTimeout s) (_hasShownBefore s) (_lastTrackTime s) (_rafId s) (_messageCyclePausedByHide s)
    (_wasAutoplayActiveBeforeHide s) (_messageCyclePaused s) (bubble_opacity s) (bubbleText_innerHTML s)
    (timers s) (next_timer_id s) (trace s).
Definition set_targetElement (v : option Elem) (s : Pointy) : Pointy :=
  mkPointy (steps s) (offsetX s) (offsetY s) (tracking s) (trackingFps s) (animationDuration s)
    (introFadeDuration s) (bubbleFadeDuration s) (messageTransitionDuration s) (easing s) (resetOnComplete
    s) (floatingAnimation s) (initialPosition s) (initialPositionOffset s) (resetPositionOnHide s) (autoplay
    s) (autoplayEnabled s) (autoplayWaitForMessages s) (hideOnComplete s) (hideOnCompleteDelay s)
    (pointerSvg s) (onStepChange s) (onComplete s) (_autoplayTimeoutId s) (_autoplayPaused s)
    (_messagesCompletedForStep s) (_hideOnCompleteTimeoutId s) (_eventListeners s) v (currentStepIndex s)
    (currentMessageIndex s) (currentMessages s) (messageInterval s) (_messageIntervalId s) (isVisible s)
    (isPointingUp s) (lastTargetY s) (_targetYHistory s) (_lastDirectionChangeTime s) (manualDirection s)
    (moveTimeout s) (_hasShownBefore s) (_lastTrackTime s) (_rafId s) (_messageCyclePausedByHide s)
    (_wasAutoplayActiveBeforeHide s) (_messageCyclePaused s) (bubble_opacity s) (bubbleText_innerHTML s)
    (timers s) (next_timer_id s) (trace s).
Definition set_currentStepIndex (v : Index) (s : Pointy) : Pointy :=
  mkPointy (steps s) (offsetX s) (offsetY s) (tracking s) (trackingFps s) (animationDuration s)
    (introFadeDuration s) (bubbleFadeDuration s) (messageTransitionDuration s) (easing s) (resetOnComplete
    s) (floatingAnimation s) (initialPosition s) (initialPositionOffset s) (resetPositionOnHide s) (autoplay
    s) (autoplayEnabled s) (autoplayWaitForMessages s) (hideOnComplete s) (hideOnCompleteDelay s)
    (pointerSvg s) (onStepChange s) (onComplete s) (_autoplayTimeoutId s) (_autoplayPaused s)
    (_messagesCompletedForStep s) (_hideOnCompleteTimeoutId s) (_eventListeners s) (targetElement s) v
    (currentMessageIndex s) (currentMessages s) (messageInterval s) (_messageIntervalId s) (isVisible s)
    (isPointingUp s) (lastTargetY s) (_targetYHistory s) (_lastDirectionChangeTime s) (manualDirection s)
    (moveTimeout s) (_hasShownBefore s) (_lastTrackTime s) (_rafId s) (_messageCyclePausedByHide s)
    (_wasAutoplayActiveBeforeHide s) (_messageCyclePaused s) (bubble_opacity s) (bubbleText_innerHTML s)
    (timers s) (next_timer_id s) (trace s).
Definition set_currentMessageIndex (v : Index) (s : Pointy) : Pointy :=
  mkPointy (steps s) (offsetX s) (offsetY s) (tracking s) (trackingFps s) (animationDuration s)
    (introFadeDuration s) (bubbleFadeDuration s) (messageTransitionDuration s) (easing s) (resetOnComplete
    s) (floatingAnimation s) (initialPosition s) (initialPositionOffset s) (resetPositionOnHide s) (autoplay
    s) (autoplayEnabled s) (autoplayWaitForMessages s) (hideOnComplete s) (hideOnCompleteDelay s)
    (pointerSvg s) (onStepChange s) (onComplete s) (_autoplayTimeoutId s) (_autoplayPaused s)
    (_messagesCompletedForStep s) (_hideOnCompleteTimeoutId s) (_eventListeners s) (targetElement s)
    (currentStepIndex s) v (currentMessages s) (messageInterval s) (_messageIntervalId s) (isVisible s)
    (isPointingUp s) (lastTargetY s) (_targetYHistory s) (_lastDirectionChangeTime s) (manualDirection s)
    (moveTimeout s) (_hasShownBefore s) (_lastTrackTime s) (_rafId s) (_messageCyclePausedByHide s)
    (_wasAutoplayActiveBeforeHide s) (_messageCyclePaused s) (bubble_opacity s) (bubbleText_innerHTML s)
    (timers s) (next_timer_id s) (trace s).
Definition set_currentMessages (v : list Msg) (s : Pointy) : Pointy :=
  mkPointy (steps s) (offsetX s) (offsetY s) (tracking s) (trackingFps s) (animationDuration s)
    (introFadeDuration s) (bubbleFadeDuration s) (messageTransitionDuration s) (easing s) (resetOnComplete
    s) (floatingAnimation s) (initialPosition s) (initialPositionOffset s) (resetPositionOnHide s) (autoplay
    s) (autoplayEnabled s) (autoplayWaitForMessages s) (hideOnComplete s) (hideOnCompleteDelay s)
    (pointerSvg s) (onStepChange s) (onComplete s) (_autoplayTimeoutId s) (_autoplayPaused s)
    (_messagesCompletedForStep s) (_hideOnCompleteTimeoutId s) (_eventListeners s) (targetElement s)
    (currentStepIndex s) (currentMessageIndex s) v (messageInterval s) (_messageIntervalId s) (isVisible s)
    (isPointingUp s) (lastTargetY s) (_targetYHistory s) (_lastDirectionChangeTime s) (manualDirection s)
    (moveTimeout s) (_hasShownBefore s) (_lastTrackTime s) (_rafId s) (_messageCyclePausedByHide s)
    (_wasAutoplayActiveBeforeHide s) (_messageCyclePaused s) (bubble_opacity s) (bubbleText_innerHTML s)
    (timers s) (next_timer_id s) (trace s).
Definition set_messageInterval (v : option Z) (s : Pointy) : Pointy :=
  mkPointy (steps s) (offsetX s) (offsetY s) (tracking s) (trackingFps s) (animationDuration s)
    (introFadeDuration s) (bubbleFadeDuration s) (messageTransitionDuration s) (easing s) (resetOnComplete
    s) (floatingAnimation s) (initialPosition s) (initialPositionOffset s) (resetPositionOnHide s) (autoplay
    s) (autoplayEnabled s) (autoplayWaitForMessages s) (hideOnComplete s) (hideOnCompleteDelay s)
    (pointerSvg s) (onStepChange s) (onComplete s) (_autoplayTimeoutId s) (_autoplayPaused s)
    (_messagesCompletedForStep s) (_hideOnCompleteTimeoutId s) (_eventListeners s) (targetElement s)
    (currentStepIndex s) (currentMessageIndex s) (currentMessages s) v (_messageIntervalId s) (isVisible s)
    (isPointingUp s) (lastTargetY s) (_targetYHistory s) (_lastDirectionChangeTime s) (manualDirection s)
    (moveTimeout s) (_hasShownBefore s) (_lastTrackTime s) (_rafId s) (_messageCyclePausedByHide s)
    (_wasAutoplayActiveBeforeHide s) (_messageCyclePaused s) (bubble_opacity s) (bubbleText_innerHTML s)
    (timers s) (next_timer_id s) (trace s).
Definition set__messageIntervalId (v : option positive) (s : Pointy) : Pointy :=
  mkPointy (steps s) (offsetX s) (offsetY s) (tracking s) (trackingFps s) (animationDuration s)
    (introFadeDuration s) (bubbleFadeDuration s) (messageTransitionDuration s) (easing s) (resetOnComplete
    s) (floatingAnimation s) (initialPosition s) (initialPositionOffset s) (resetPositionOnHide s) (autoplay
    s) (autoplayEnabled s) (autoplayWaitForMessages s) (hideOnComplete s) (hideOnCompleteDelay s)
    (pointerSvg s) (onStepChange s) (onComplete s) (_autoplayTimeoutId s) (_autoplayPaused s)
    (_messagesCompletedForStep s) (_hideOnCompleteTimeoutId s) (_eventListeners s) (targetElement s)
    (currentStepIndex s) (currentMessageIndex s) (currentMessages s) (messageInterval s) v (isVisible s)
    (isPointingUp s) (lastTargetY s) (_targetYHistory s) (_lastDirectionChangeTime s) (manualDirection s)
    (moveTimeout s) (_hasShownBefore s) (_lastTrackTime s) (_rafId s) (_messageCyclePausedByHide s)
    (_wasAutoplayActiveBeforeHide s) (_messageCyclePaused s) (bubble_opacity s) (bubbleText_innerHTML s)
    (timers s) (next_timer_id s) (trace s).
Definition set_isVisible (v : bool) (s : Pointy) : Pointy :=
  mkPointy (steps s) (offsetX s) (offsetY s) (tracking s) (trackingFps s) (animationDuration s)
    (introFadeDuration s) (bubbleFadeDuration s) (messageTransitionDuration s) (easing s) (resetOnComplete
    s) (floatingAnimation s) (initialPosition s) (initialPositionOffset s) (resetPositionOnHide s) (autoplay
    s) (autoplayEnabled s) (autoplayWaitForMessages s) (hideOnComplete s) (hideOnCompleteDelay s)
    (pointerSvg s) (onStepChange s) (onComplete s) (_autoplayTimeoutId s) (_autoplayPaused s)
    (_messagesCompletedForStep s) (_hideOnCompleteTimeoutId s) (_eventListeners s) (targetElement s)
    (currentStepIndex s) (currentMessageIndex s) (currentMessages s) (messageInterval s) (_messageIntervalId
    s) v (isPointingUp s) (lastTargetY s) (_targetYHistory s) (_lastDirectionChangeTime s) (manualDirection
    s) (moveTimeout s) (_hasShownBefore s) (_lastTrackTime s) (_rafId s) (_messageCyclePausedByHide s)
    (_wasAutoplayActiveBeforeHide s) (_messageCyclePaused s) (bubble_opacity s) (bubbleText_innerHTML s)
    (timers s) (next_timer_id s) (trace s).
Definition set_isPointingUp (v : bool) (s : Pointy) : Pointy :=
  mkPointy (steps s) (offsetX s) (offsetY s) (tracking s) (trackingFps s) (animationDuration s)
    (introFadeDuration s) (bubbleFadeDuration s) (messageTransitionDuration s) (easing s) (resetOnComplete
    s) (floatingAnimation s) (initialPosition s) (initialPositionOffset s) (resetPositionOnHide s) (autoplay
    s) (autoplayEnabled s) (autoplayWaitForMessages s) (hideOnComplete s) (hideOnCompleteDelay s)
    (pointerSvg s) (onStepChange s) (onComplete s) (_autoplayTimeoutId s) (_autoplayPaused s)
    (_messagesCompletedForStep s) (_hideOnCompleteTimeoutId s) (_eventListeners s) (targetElement s)
    (currentStepIndex s) (currentMessageIndex s) (currentMessages s) (messageInterval s) (_messageIntervalId
    s) (isVisible s) v (lastTargetY s) (_targetYHistory s) (_lastDirectionChangeTime s) (manualDirection s)
    (moveTimeout s) (_hasShownBefore s) (_lastTrackTime s) (_rafId s) (_messageCyclePausedByHide s)
    (_wasAutoplayActiveBeforeHide s) (_messageCyclePaused s) (bubble_opacity s) (bubbleText_innerHTML s)
    (timers s) (next_timer_id s) (trace s).
Definition set_lastTargetY (v : option Z) (s : Pointy) : Pointy :=
  mkPointy (steps s) (offsetX s) (offsetY s) (tracking s) (trackingFps s) (animationDuration s)
    (introFadeDuration s) (bubbleFadeDuration s) (messageTransitionDuration s) (easing s) (resetOnComplete
    s) (floatingAnimation s) (initialPosition s) (initialPositionOffset s) (resetPositionOnHide s) (autoplay
    s) (autoplayEnabled s) (autoplayWaitForMessages s) (hideOnComplete s) (hideOnCompleteDelay s)
    (pointerSvg s) (onStepChange s) (onComplete s) (_autoplayTimeoutId s) (_autoplayPaused s)
    (_messagesCompletedForStep s) (_hideOnCompleteTimeoutId s) (_eventListeners s) (targetElement s)
    (currentStepIndex s) (currentMessageIndex s) (currentMessages s) (messageInterval s) (_messageIntervalId
    s) (isVisible s) (isPointingUp s) v (_targetYHistory s) (_lastDirectionChangeTime s) (manualDirection s)
    (moveTimeout s) (_hasShownBefore s) (_lastTrackTime s) (_rafId s) (_messageCyclePausedByHide s)
    (_wasAutoplayActiveBeforeHide s) (_messageCyclePaused s) (bubble_opacity s) (bubbleText_innerHTML s)
    (timers s) (next_timer_id s) (trace s).
Definition set__targetYHistory (v : list Sample) (s : Pointy) : Pointy :=
  mkPointy (steps s) (offsetX s) (offsetY s) (tracking s) (trackingFps s) (animationDuration s)
    (introFadeDuration s) (bubbleFadeDuration s) (messageTransitionDuration s) (easing s) (resetOnComplete
    s) (floatingAnimation s) (initialPosition s) (initialPositionOffset s) (resetPositionOnHide s) (autoplay
    s) (autoplayEnabled s) (autoplayWaitForMessages s) (hideOnComplete s) (hideOnCompleteDelay s)
    (pointerSvg s) (onStepChange s) (onComplete s) (_autoplayTimeoutId s) (_autoplayPaused s)
    (_messagesCompletedForStep s) (_hideOnCompleteTimeoutId s) (_eventListeners s) (targetElement s)
    (currentStepIndex s) (currentMessageIndex s) (currentMessages s) (messageInterval s) (_messageIntervalId
    s) (isVisible s) (isPointingUp s) (lastTargetY s) v (_lastDirectionChangeTime s) (manualDirection s)
    (moveTimeout s) (_hasShownBefore s) (_lastTrackTime s) (_rafId s) (_messageCyclePausedByHide s)
    (_wasAutoplayActiveBeforeHide s) (_messageCyclePaused s) (bubble_opacity s) (bubbleText_innerHTML s)
    (timers s) (next_timer_id s) (trace s).
Definition set__lastDirectionChangeTime (v : Z) (s : Pointy) : Pointy :=
  mkPointy (steps s) (offsetX s) (offsetY s) (tracking s) (trackingFps s) (animationDuration s)
    (introFadeDuration s) (bubbleFadeDuration s) (messageTransitionDuration s) (easing s) (resetOnComplete
    s) (floatingAnimation s) (initialPosition s) (initialPositionOffset s) (resetPositionOnHide s) (autoplay
    s) (autoplayEnabled s) (autoplayWaitForMessages s) (hideOnComplete s) (hideOnCompleteDelay s)
    (pointerSvg s) (onStepChange s) (onComplete s) (_autoplayTimeoutId s) (_autoplayPaused s)
    (_messagesCompletedForStep s) (_hideOnCompleteTimeoutId s) (_eventListeners s) (targetElement s)
    (currentStepIndex s) (currentMessageIndex s) (currentMessages s) (messageInterval s) (_messageIntervalId
    s) (isVisible s) (isPointingUp s) (lastTargetY s) (_targetYHistory s) v (manualDirection s) (moveTimeout
    s) (_hasShownBefore s) (_lastTrackTime s) (_rafId s) (_messageCyclePausedByHide s)
    (_wasAutoplayActiveBeforeHide s) (_messageCyclePaused s) (bubble_opacity s) (bubbleText_innerHTML s)
    (timers s) (next_timer_id s) (trace s).
Definition set_manualDirection (v : option string) (s : Pointy) : Pointy :=
  mkPointy (steps s) (offsetX s) (offsetY s) (tracking s) (trackingFps s) (animationDuration s)
    (introFadeDuration s) (bubbleFadeDuration s) (messageTransitionDuration s) (easing s) (resetOnComplete
    s) (floatingAnimation s) (initialPosition s) (initialPositionOffset s) (resetPositionOnHide s) (autoplay
    s) (autoplayEnabled s) (autoplayWaitForMessages s) (hideOnComplete s) (hideOnCompleteDelay s)
    (pointerSvg s) (onStepChange s) (onComplete s) (_autoplayTimeoutId s) (_autoplayPaused s)
    (_messagesCompletedForStep s) (_hideOnCompleteTimeoutId s) (_eventListeners s) (targetElement s)
    (currentStepIndex s) (currentMessageIndex s) (currentMessages s) (messageInterval s) (_messageIntervalId
    s) (isVisible s) (isPointingUp s) (lastTargetY s) (_targetYHistory s) (_lastDirectionChangeTime s) v
    (moveTimeout s) (_hasShownBefore s) (_lastTrackTime s) (_rafId s) (_messageCyclePausedByHide s)
    (_wasAutoplayActiveBeforeHide s) (_messageCyclePaused s) (bubble_opacity s) (bubbleText_innerHTML s)
    (timers s) (next_timer_id s) (trace s).
Definition set_moveTimeout (v : option positive) (s : Pointy) : Pointy :=
  mkPointy (steps s) (offsetX s) (offsetY s) (tracking s) (trackingFps s) (animationDuration s)
    (introFadeDuration s) (bubbleFadeDuration s) (messageTransitionDuration s) (easing s) (resetOnComplete
    s) (floatingAnimation s) (initialPosition s) (initialPositionOffset s) (resetPositionOnHide s) (autoplay
    s) (autoplayEnabled s) (autoplayWaitForMessages s) (hideOnComplete s) (hideOnCompleteDelay s)
    (pointerSvg s) (onStepChange s) (onComplete s) (_autoplayTimeoutId s) (_autoplayPaused s)
    (_messagesCompletedForStep s) (_hideOnCompleteTimeoutId s) (_eventListeners s) (targetElement s)
    (currentStepIndex s) (currentMessageIndex s) (currentMessages s) (messageInterval s) (_messageIntervalId
    s) (isVisible s) (isPointingUp s) (lastTargetY s) (_targetYHistory s) (_lastDirectionChangeTime s)
    (manualDirection s) v (_hasShownBefore s) (_lastTrackTime s) (_rafId s) (_messageCyclePausedByHide s)
    (_wasAutoplayActiveBeforeHide s) (_messageCyclePaused s) (bubble_opacity s) (bubbleText_innerHTML s)
    (timers s) (next_timer_id s) (trace s).
Definition set__hasShownBefore (v : bool) (s : Pointy) : Pointy :=
  mkPointy (steps s) (offsetX s) (offsetY s) (tracking s) (trackingFps s) (animationDuration s)
    (introFadeDuration s) (bubbleFadeDuration s) (messageTransitionDuration s) (easing s) (resetOnComplete
    s) (floatingAnimation s) (initialPosition s) (initialPositionOffset s) (resetPositionOnHide s) (autoplay
    s) (autoplayEnabled s) (autoplayWaitForMessages s) (hideOnComplete s) (hideOnCompleteDelay s)
    (pointerSvg s) (onStepChange s) (onComplete s) (_autoplayTimeoutId s) (_autoplayPaused s)
    (_messagesCompletedForStep s) (_hideOnCompleteTimeoutId s) (_eventListeners s) (targetElement s)
    (currentStepIndex s) (currentMessageIndex s) (currentMessages s) (messageInterval s) (_messageIntervalId
    s) (isVisible s) (isPointingUp s) (lastTargetY s) (_targetYHistory s) (_lastDirectionChangeTime s)
    (manualDirection s) (moveTimeout s) v (_lastTrackTime s) (_rafId s) (_messageCyclePausedByHide s)
    (_wasAutoplayActiveBeforeHide s) (_messageCyclePaused s) (bubble_opacity s) (bubbleText_innerHTML s)
    (timers s) (next_timer_id s) (trace s).
Definition set__lastTrackTime (v : Z) (s : Pointy) : Pointy :=
  mkPointy (steps s) (offsetX s) (offsetY s) (tracking s) (trackingFps s) (animationDuration s)
    (introFadeDuration s) (bubbleFadeDuration s) (messageTransitionDuration s) (easing s) (resetOnComplete
    s) (floatingAnimation s) (initialPosition s) (initialPositionOffset s) (resetPositionOnHide s) (autoplay
    s) (autoplayEnabled s) (autoplayWaitForMessages s) (hideOnComplete s) (hideOnCompleteDelay s)
    (pointerSvg s) (onStepChange s) (onComplete s) (_autoplayTimeoutId s) (_autoplayPaused s)
    (_messagesCompletedForStep s) (_hideOnCompleteTimeoutId s) (_eventListeners s) (targetElement s)
    (currentStepIndex s) (currentMessageIndex s) (currentMessages s) (messageInterval s) (_messageIntervalId
    s) (isVisible s) (isPointingUp s) (lastTargetY s) (_targetYHistory s) (_lastDirectionChangeTime s)
    (manualDirection s) (moveTimeout s) (_hasShownBefore s) v (_rafId s) (_messageCyclePausedByHide s)
    (_wasAutoplayActiveBeforeHide s) (_messageCyclePaused s) (bubble_opacity s) (bubbleText_innerHTML s)
    (timers s) (next_timer_id s) (trace s).
Definition set__rafId (v : option positive) (s : Pointy) : Pointy :=
  mkPointy (steps s) (offsetX s) (offsetY s) (tracking s) (trackingFps s) (animationDuration s)
    (introFadeDuration s) (bubbleFadeDuration s) (messageTransitionDuration s) (easing s) (resetOnComplete
    s) (floatingAnimation s) (initialPosition s) (initialPositionOffset s) (resetPositionOnHide s) (autoplay
    s) (autoplayEnabled s) (autoplayWaitForMessages s) (hideOnComplete s) (hideOnCompleteDelay s)
    (pointerSvg s) (onStepChange s) (onComplete s) (_autoplayTimeoutId s) (_autoplayPaused s)
    (_messagesCompletedForStep s) (_hideOnCompleteTimeoutId s) (_eventListeners s) (targetElement s)
    (currentStepIndex s) (currentMessageIndex s) (currentMessages s) (messageInterval s) (_messageIntervalId
    s) (isVisible s) (isPointingUp s) (lastTargetY s) (_targetYHistory s) (_lastDirectionChangeTime s)
    (manualDirection s) (moveTimeout s) (_hasShownBefore s) (_lastTrackTime s) v (_messageCyclePausedByHide
    s) (_wasAutoplayActiveBeforeHide s) (_messageCyclePaused s) (bubble_opacity s) (bubbleText_innerHTML s)
    (timers s) (next_timer_id s) (trace s).
Definition set__messageCyclePausedByHide (v : bool) (s : Pointy) : Pointy :=
  mkPointy (steps s) (offsetX s) (offsetY s) (tracking s) (trackingFps s) (animationDuration s)
    (introFadeDuration s) (bubbleFadeDuration s) (messageTransitionDuration s) (easing s) (resetOnComplete
    s) (floatingAnimation s) (initialPosition s) (initialPositionOffset s) (resetPositionOnHide s) (autoplay
    s) (autoplayEnabled s) (autoplayWaitForMessages s) (hideOnComplete s) (hideOnCompleteDelay s)
    (pointerSvg s) (onStepChange s) (onComplete s) (_autoplayTimeoutId s) (_autoplayPaused s)
    (_messagesCompletedForStep s) (_hideOnCompleteTimeoutId s) (_eventListeners s) (targetElement s)
    (currentStepIndex s) (currentMessageIndex s) (currentMessages s) (messageInterval s) (_messageIntervalId
    s) (isVisible s) (isPointingUp s) (lastTargetY s) (_targetYHistory s) (_lastDirectionChangeTime s)
    (manualDirection s) (moveTimeout s) (_hasShownBefore s) (_lastTrackTime s) (_rafId s) v
    (_wasAutoplayActiveBeforeHide s) (_messageCyclePaused s) (bubble_opacity s) (bubbleText_innerHTML s)
    (timers s) (next_timer_id s) (trace s).
Definition set__wasAutoplayActiveBeforeHide (v : bool) (s : Pointy) : Pointy :=
  mkPointy (steps s) (offsetX s) (offsetY s) (tracking s) (trackingFps s) (animationDuration s)
    (introFadeDuration s) (bubbleFadeDuration s) (messageTransitionDuration s) (easing s) (resetOnComplete
    s) (floatingAnimation s) (initialPosition s) (initialPositionOffset s) (resetPositionOnHide s) (autoplay
    s) (autoplayEnabled s) (autoplayWaitForMessages s) (hideOnComplete s) (hideOnCompleteDelay s)
    (pointerSvg s) (onStepChange s) (onComplete s) (_autoplayTimeoutId s) (_autoplayPaused s)
    (_messagesCompletedForStep s) (_hideOnCompleteTimeoutId s) (_eventListeners s) (targetElement s)
    (currentStepIndex s) (currentMessageIndex s) (currentMessages s) (messageInterval s) (_messageIntervalId
    s) (isVisible s) (isPointingUp s) (lastTargetY s) (_targetYHistory s) (_lastDirectionChangeTime s)
    (manualDirection s) (moveTimeout s) (_hasShownBefore s) (_lastTrackTime s) (_rafId s)
    (_messageCyclePausedByHide s) v (_messageCyclePaused s) (bubble_opacity s) (bubbleText_innerHTML s)
    (timers s) (next_timer_id s) (trace s).
Definition set__messageCyclePaused (v : bool) (s : Pointy) : Pointy :=
  mkPointy (steps s) (offsetX s) (offsetY s) (tracking s) (trackingFps s) (animationDuration s)
    (introFadeDuration s) (bubbleFadeDuration s) (messageTransitionDuration s) (easing s) (resetOnComplete
    s) (floatingAnimation s) (initialPosition s) (initialPositionOffset s) (resetPositionOnHide s) (autoplay
    s) (autoplayEnabled s) (autoplayWaitForMessages s) (hideOnComplete s) (hideOnCompleteDelay s)
    (pointerSvg s) (onStepChange s) (onComplete s) (_autoplayTimeoutId s) (_autoplayPaused s)
    (_messagesCompletedForStep s) (_hideOnCompleteTimeoutId s) (_eventListeners s) (targetElement s)
    (currentStepIndex s) (currentMessageIndex s) (currentMessages s) (messageInterval s) (_messageIntervalId
    s) (isVisible s) (isPointingUp s) (lastTargetY s) (_targetYHistory s) (_lastDirectionChangeTime s)
    (manualDirection s) (moveTimeout s) (_hasShownBefore s) (_lastTrackTime s) (_rafId s)
    (_messageCyclePausedByHide s) (_wasAutoplayActiveBeforeHide s) v (bubble_opacity s)
    (bubbleText_innerHTML s) (timers s) (next_timer_id s) (trace s).
Definition set_bubble_opacity (v : string) (s : Pointy) : Pointy :=
  mkPointy (steps s) (offsetX s) (offsetY s) (tracking s) (trackingFps s) (animationDuration s)
    (introFadeDuration s) (bubbleFadeDuration s) (messageTransitionDuration s) (easing s) (resetOnComplete
    s) (floatingAnimation s) (initialPosition s) (initialPositionOffset s) (resetPositionOnHide s) (autoplay
    s) (autoplayEnabled s) (autoplayWaitForMessages s) (hideOnComplete s) (hideOnCompleteDelay s)
    (pointerSvg s) (onStepChange s) (onComplete s) (_autoplayTimeoutId s) (_autoplayPaused s)
    (_messagesCompletedForStep s) (_hideOnCompleteTimeoutId s) (_eventListeners s) (targetElement s)
    (currentStepIndex s) (currentMessageIndex s) (currentMessages s) (messageInterval s) (_messageIntervalId
    s) (isVisible s) (isPointingUp s) (lastTargetY s) (_targetYHistory s) (_lastDirectionChangeTime s)
    (manualDirection s) (moveTimeout s) (_hasShownBefore s) (_lastTrackTime s) (_rafId s)
    (_messageCyclePausedByHide s) (_wasAutoplayActiveBeforeHide s) (_messageCyclePaused s) v
    (bubbleText_innerHTML s) (timers s) (next_timer_id s) (trace s).
Definition set_bubbleText_innerHTML (v : Msg) (s : Pointy) : Pointy :=
  mkPointy (steps s) (offsetX s) (offsetY s) (tracking s) (trackingFps s) (animationDuration s)
    (introFadeDuration s) (bubbleFadeDuration s) (messageTransitionDuration s) (easing s) (resetOnComplete
    s) (floatingAnimation s) (initialPosition s) (initialPositionOffset s) (resetPositionOnHide s) (autoplay
    s) (autoplayEnabled s) (autoplayWaitForMessages s) (hideOnComplete s) (hideOnCompleteDelay s)
    (pointerSvg s) (onStepChange s) (onComplete s) (_autoplayTimeoutId s) (_autoplayPaused s)
    (_messagesCompletedForStep s) (_hideOnCompleteTimeoutId s) (_eventListeners s) (targetElement s)
    (currentStepIndex s) (currentMessageIndex s) (currentMessages s) (messageInterval s) (_messageIntervalId
    s) (isVisible s) (isPointingUp s) (lastTargetY s) (_targetYHistory s) (_lastDirectionChangeTime s)
    (manualDirection s) (moveTimeout s) (_hasShownBefore s) (_lastTrackTime s) (_rafId s)
    (_messageCyclePausedByHide s) (_wasAutoplayActiveBeforeHide s) (_messageCyclePaused s) (bubble_opacity
    s) v (timers s) (next_timer_id s) (trace s).
Definition set_timers (v : list Timer) (s : Pointy) : Pointy :=
  mkPointy (steps s) (offsetX s) (offsetY s) (tracking s) (trackingFps s) (animationDuration s)
    (introFadeDuration s) (bubbleFadeDuration s) (messageTransitionDuration s) (easing s) (resetOnComplete
    s) (floatingAnimation s) (initialPosition s) (initialPositionOffset s) (resetPositionOnHide s) (autoplay
    s) (autoplayEnabled s) (autoplayWaitForMessages s) (hideOnComplete s) (hideOnCompleteDelay s)
    (pointerSvg s) (onStepChange s) (onComplete s) (_autoplayTimeoutId s) (_autoplayPaused s)
    (_messagesCompletedForStep s) (_hideOnCompleteTimeoutId s) (_eventListeners s) (targetElement s)
    (currentStepIndex s) (currentMessageIndex s) (currentMessages s) (messageInterval s) (_messageIntervalId
    s) (isVisible s) (isPointingUp s) (lastTargetY s) (_targetYHistory s) (_lastDirectionChangeTime s)
    (manualDirection s) (moveTimeout s) (_hasShownBefore s) (_lastTrackTime s) (_rafId s)
    (_messageCyclePausedByHide s) (_wasAutoplayActiveBeforeHide s) (_messageCyclePaused s) (bubble_opacity
    s) (bubbleText_innerHTML s) v (next_timer_id s) (trace s).
Definition set_next_timer_id (v : positive) (s : Pointy) : Pointy :=
  mkPointy (steps s) (offsetX s) (offsetY s) (tracking s) (trackingFps s) (animationDuration s)
    (introFadeDuration s) (bubbleFadeDuration s) (messageTransitionDuration s) (easing s) (resetOnComplete
    s) (floatingAnimation s) (initialPosition s) (initialPositionOffset s) (resetPositionOnHide s) (autoplay
    s) (autoplayEnabled s) (autoplayWaitForMessages s) (hideOnComplete s) (hideOnCompleteDelay s)
    (pointerSvg s) (onStepChange s) (onComplete s) (_autoplayTimeoutId s) (_autoplayPaused s)
    (_messagesCompletedForStep s) (_hideOnCompleteTimeoutId s) (_eventListeners s) (targetElement s)
    (currentStepIndex s) (currentMessageIndex s) (currentMessages s) (messageInterval s) (_messageIntervalId
    s) (isVisible s) (isPointingUp s) (lastTargetY s) (_targetYHistory s) (_lastDirectionChangeTime s)
    (manualDirection s) (moveTimeout s) (_hasShownBefore s) (_lastTrackTime s) (_rafId s)
    (_messageCyclePausedByHide s) (_wasAutoplayActiveBeforeHide s) (_messageCyclePaused s) (bubble_opacity
    s) (bubbleText_innerHTML s) (timers s) v (trace s).
Definition set_trace (v : list Obs) (s : Pointy) : Pointy :=
  mkPointy (steps s) (offsetX s) (offsetY s) (tracking s) (trackingFps s) (animationDuration s)
    (introFadeDuration s) (bubbleFadeDuration s) (messageTransitionDuration s) (easing s) (resetOnComplete
    s) (floatingAnimation s) (initialPosition s) (initialPositionOffset s) (resetPositionOnHide s) (autoplay
    s) (autoplayEnabled s) (autoplayWaitForMessages s) (hideOnComplete s) (hideOnCompleteDelay s)
    (pointerSvg s) (onStepChange s) (onComplete s) (_autoplayTimeoutId s) (_autoplayPaused s)
    (_messagesCompletedForStep s) (_hideOnCompleteTimeoutId s) (_eventListeners s) (targetElement s)
    (currentStepIndex s) (currentMessageIndex s) (currentMessages s) (messageInterval s) (_messageIntervalId
    s) (isVisible s) (isPointingUp s) (lastTargetY s) (_targetYHistory s) (_lastDirectionChangeTime s)
    (manualDirection s) (moveTimeout s) (_hasShownBefore s) (_lastTrackTime s) (_rafId s)
    (_messageCyclePausedByHide s) (_wasAutoplayActiveBeforeHide s) (_messageCyclePaused s) (bubble_opacity
    s) (bubbleText_innerHTML s) (timers s) (next_timer_id s) v.

(** ** The state-and-exception monad of the methods *)

Definition M (A : Type) : Type := Pointy -> Completion A * Pointy.

#[export] Instance M_ret : MRet M := fun A a s => (Normal a, s).

(** Sequencing: a throw skips the rest. *)
#[export] Instance M_bind : MBind M := fun A B f m s =>
  match m s with
  | (Normal a, s') => f a s'
  | (Thrown e, s') => (Thrown e, s')
  end.

(** [this], read at this point of the method. *)
Definition get : M Pointy := fun s => (Normal s, s).

Definition modify (f : Pointy -> Pointy) : M unit := fun s => (Normal tt, f s).

Definition throw {A : Type} (e : Val) : M A := fun s => (Thrown e, s).

(** [try { body } catch (e) { handler(e) }] *)
Definition try_catch (body : M unit) (handler : Val -> M unit) : M unit := fun s =>
  match body s with
  | (Normal a, s') => (Normal a, s')
  | (Thrown e, s') => handler e s'
  end.

(** [if (c) { body }] *)
Definition when (c : bool) (body : M unit) : M unit :=
  if c then body else mret tt.

(** [list.forEach(f)] *)
Fixpoint forEach {A : Type} (l : list A) (f : A -> M unit) : M unit :=
  match l with
  | [] => mret tt
  | x :: l' => f x ;; forEach l' f
  end.

(** The state a computation leaves, and how it ended. *)
Definition exec {A : Type} (m : M A) (s : Pointy) : Pointy := snd (m s).
Definition outcome {A : Type} (m : M A) (s : Pointy) : Completion A := fst (m s).

Definition log (o : Obs) : M unit := modify (fun s => set_trace (trace s ++ [o])%list s).

(** ** Event groups *)

(** [Pointy.EVENT_GROUPS], in the order of its properties. *)
Definition EVENT_GROUPS : list (string * list string) :=
  [ ("lifecycle", ["beforeShow"; "show"; "beforeHide"; "hide"; "destroy"; "beforeRestart";
                   "restart"; "beforeReset"; "reset"]);
    ("navigation", ["beforeStepChange"; "stepChange"; "next"; "prev"; "complete"]);
    ("animation", ["animationStart"; "animationEnd"; "move"; "moveComplete";
                   "introAnimationStart"; "introAnimationEnd"]);
    ("content", ["contentSet"; "messagesSet"; "messageChange"]);
    ("messageCycle", ["messageCycleStart"; "messageCycleStop"; "messageCyclePause";
                      "messageCycleResume"; "messageCycleComplete"]);
    ("pointing", ["beforePointTo"; "pointTo"; "pointToComplete"]);
    ("tracking", ["track"; "targetChange"; "trackingChange"; "trackingFpsChange"]);
    ("autoplay", ["autoplayStart"; "autoplayStop"; "autoplayPause"; "autoplayResume";
                  "autoplayNext"; "autoplayComplete"; "autoHide"; "autoplayChange";
                  "autoplayWaitForMessagesChange"]) ].

(** [events.includes(event)] *)
Definition includes (events : list string) (event : string) : bool :=
  existsb (String.eqb event) events.

(** [s.endsWith(suffix)] *)
Definition endsWith (s suffix : string) : bool :=
  let n := String.length s in
  let m := String.length suffix in
  if (m <=? n)%nat then String.eqb (substring (n - m) m s) suffix else false.

(** The loop of [getEventGroup] over [Object.entries(Pointy.EVENT_GROUPS)]. *)
Fixpoint find_group (groups : list (string * list string)) (event : string) : option string :=
  match groups with
  | [] => None
  | (group, events) :: rest =>
      if includes events event then Some group else find_group rest event
  end.

(** [static getEventGroup(event)]: the name of the group, or [None] for
    [null]. *)
Definition getEventGroup (event : string) : option string :=
  match find_group EVENT_GROUPS event with
  | Some group => Some group
  | None => if endsWith event "Change" then Some "config" else None
  end.

(** [static getEventsInGroup(group)] *)
Definition getEventsInGroup (group : string) : list string :=
  match find (fun ge => String.eqb (fst ge) group) EVENT_GROUPS with
  | Some ge => snd ge
  | None => []
  end.

(** ** The event bus *)

(** [on(event, callback)]: the array under [event], created empty when
    absent, with [callback] pushed at its end. *)
Definition on (event : string) (callback : Handler) : M unit :=
  modify (fun s => set__eventListeners
            (<[event := (default [] (_eventListeners s !! event) ++ [callback])%list]>
               (_eventListeners s)) s).

(** [off(event, callback)]; [callback] is [None] when the argument is
    omitted. *)
Definition off (event : string) (callback : option Handler) : M unit :=
  this ← get;
  match _eventListeners this !! event with
  | None => mret tt
  | Some cbs =>
      match callback with
      | Some cb =>
          modify (set__eventListeners
                    (<[event := List.filter (fun c => negb (h_id c =? h_id cb)%nat) cbs]>
                       (_eventListeners this)))
      | None => modify (set__eventListeners (delete event (_eventListeners this)))
      end
  end.

(** [callback(eventData)] for a listener registered under [key]. *)
Definition call_listener (key : string) (eventData : EventData) (callback : Handler) : M unit :=
  log (Deliver key (h_id callback) eventData) ;;
  match h_call callback eventData with
  | Normal _ => mret tt
  | Thrown e => throw e
  end.

(** [console.error(msg, e)] *)
Definition console_error (msg : string) (e : Val) : M unit := log (ConsoleError msg e).

(** One [this._eventListeners[key].forEach(callback => { try ... catch ... })]
    block of [_emit], guarded by [if (this._eventListeners[key])]. *)
Definition dispatch (key : string) (eventData : EventData) (msg : string) : M unit :=
  this ← get;
  match _eventListeners this !! key with
  | Some cbs =>
      forEach cbs (fun callback =>
        try_catch (call_listener key eventData callback) (fun e => console_error msg e))
  | None => mret tt
  end.

(** [_emit(event, data)] *)
Definition _emit (event : string) (data : Obj) : M unit :=
  let eventData := obj_set "type" (VStr event) data in
  log (Emit event eventData) ;;
  dispatch event eventData ("Pointy: Error in " ++ event ++ " event handler:") ;;
  match getEventGroup event with
  | Some group =>
      dispatch group eventData
        ("Pointy: Error in " ++ group ++ " group handler for " ++ event ++ ":")
  | None => mret tt
  end ;;
  forEach ["*"; "all"] (fun wildcard =>
    dispatch wildcard eventData ("Pointy: Error in wildcard handler for " ++ event ++ ":")).

(** ** The browser environment *)

(** The part of [getBoundingClientRect()] the engine reads. *)
Record Rect : Type := mkRect {
  rect_top : Z;
  rect_left : Z;
  rect_bottom : Z
}.

(** What the engine reads from the browser during one call. *)
Record Env : Type := mkEnv {
  date_now : Z;
  performance_now : Z;
  querySelector : string -> option Elem;
  getBoundingClientRect : Elem -> Rect;
  scrollX : Z;
  scrollY : Z
}.

(** [opt === v] on optional numbers and timer ids. *)
Definition optZ_eqb (a b : option Z) : bool :=
  match a, b with
  | Some x, Some y => x =? y
  | None, None => true
  | _, _ => false
  end.

(** [===] on a string or element. *)
Definition Position_eqb (a b : Position) : bool :=
  match a, b with
  | PosStr x, PosStr y => String.eqb x y
  | PosElem x, PosElem y => (x =? y)%nat
  | _, _ => false
  end.

Definition is_some {A : Type} (o : option A) : bool :=
  match o with Some _ => true | None => false end.

(** [messages[i]]; [undefined] when there is no such element. *)
Definition msg_at (ms : list Msg) (i : Index) : Msg :=
  default MUndef (at_index ms i).

Definition len {A : Type} (l : list A) : Z := Z.of_nat (length l).

(** [m === '' || m === null || m === undefined] *)
Definition is_blank (m : Msg) : bool :=
  match m with
  | MUndef | MNull => true
  | MStr text => String.eqb text ""
  | MNode _ => false
  end.

(** [messages.length > 0 && messages.some(m => m !== '' && m !== null && m !== undefined)] *)
Definition hasContent (ms : list Msg) : bool :=
  (0 <? len ms) && existsb (fun m => negb (is_blank m)) ms.

(** What [element.innerHTML] reads after [renderContent(element, m)], when
    it is a string the engine can compare: an HTML string reads back as
    written. *)
Definition innerHTML (m : Msg) : option string :=
  match m with
  | MStr text => Some text
  | MNull => Some ""
  | MUndef => Some "undefined"
  | MNode _ => None
  end.

Definition TypeError : Val := VStr "TypeError".

(** The value of [Pointy.POINTER_SVG], by name. *)
Definition POINTER_SVG : string := "Pointy.POINTER_SVG".

Definition validPresets : list string :=
  ["center"; "top-left"; "top-center"; "top-right"; "middle-left"; "middle-right";
   "bottom-left"; "bottom-center"; "bottom-right"; "first-step"].

Definition startsWith (s pre : string) : bool := String.prefix pre s.

Section Engine.

(** The environment of the call. *)
Variable env : Env.

(** [static getTargetElement(target)] *)
Definition getTargetElement (t : Target) : option Elem :=
  match t with
  | TSel selector => querySelector env selector
  | TElem el => Some el
  | TNone => None
  end.

(** *** Timers *)

Definition register_timer (k : TimerKind) (cb : Callback) (d : Z) : M positive :=
  this ← get;
  let id := next_timer_id this in
  modify (fun s => set_next_timer_id (Pos.succ id)
            (set_timers (timers s ++ [mkTimer id k (date_now env) d cb])%list s)) ;;
  mret id.

Definition cancel_timer (id : positive) : M unit :=
  modify (fun s => set_timers (List.filter (fun t => negb (tid t =? id)%positive) (timers s)) s).

Definition setTimeout (cb : Callback) (d : Z) : M positive := register_timer KTimeout cb d.
Definition setInterval (cb : Callback) (d : Z) : M positive := register_timer KInterval cb d.
Definition requestAnimationFrame (cb : Callback) : M positive := register_timer KFrame cb 0.
Definition clearTimeout (id : positive) : M unit := cancel_timer id.
Definition clearInterval (id : positive) : M unit := cancel_timer id.
Definition cancelAnimationFrame (id : positive) : M unit := cancel_timer id.

(** *** Position and direction *)

(** [updatePosition()]: the direction inference; the pointer and bubble
    placement that follows it only writes styles. *)
Definition updatePosition : M unit :=
  this ← get;
  match targetElement this with
  | None => mret tt
  | Some el =>
      let targetRect := getBoundingClientRect env el in
      match manualDirection this with
      | Some d => modify (set_isPointingUp (String.eqb d "up"))
      | None =>
          let currentTargetY := rect_top targetRect + scrollY env in
          let now := date_now env in
          modify (fun s => set__targetYHistory
                    (_targetYHistory s ++ [mkSample currentTargetY now])%list s) ;;
          let historyWindow := 200 in
          modify (fun s => set__targetYHistory
                    (List.filter (fun h => now - time h <? historyWindow) (_targetYHistory s)) s) ;;
          this ← get;
          when (2 <=? len (_targetYHistory this))
            (match head (_targetYHistory this), last (_targetYHistory this) with
             | Some oldest, Some newest =>
                 let deltaY := y newest - y oldest in
                 let velocityThreshold := 30 in
                 let debounceTime := 300 in
                 when ((velocityThreshold <? Z.abs deltaY)
                       && (debounceTime <? now - _lastDirectionChangeTime this))
                   (let newDirection := deltaY <? 0 in
                    when (negb (Bool.eqb newDirection (isPointingUp this)))
                      (modify (set_isPointingUp newDirection) ;;
                       modify (set__lastDirectionChangeTime now)))
             | _, _ => mret tt
             end) ;;
          modify (set_lastTargetY (Some currentTargetY))
      end
  end.

(** [_trackPosition()]; [1000 / fps <= elapsed] is compared as
    [1000 <= elapsed * fps] ([fps] is positive there). *)
Definition _trackPosition : M unit :=
  this ← get;
  if negb (isVisible this) || negb (is_some (targetElement this)) then
    modify (set__rafId None)
  else
    (if 0 <? trackingFps this then
       let now := performance_now env in
       when (1000 <=? (now - _lastTrackTime this) * trackingFps this)
         (modify (set__lastTrackTime now) ;;
          updatePosition ;;
          this ← get;
          _emit "track" [("target", val_of_elem (targetElement this)); ("timestamp", VNum now)])
     else
       updatePosition ;;
       this ← get;
       _emit "track" [("target", val_of_elem (targetElement this));
                      ("timestamp", VNum (performance_now env))]) ;;
    id ← requestAnimationFrame CbTrack;
    modify (set__rafId (Some id)).

Definition _startTracking : M unit :=
  this ← get;
  if negb (tracking this) then mret tt
  else when (negb (is_some (_rafId this))) _trackPosition.

Definition _stopTracking : M unit :=
  this ← get;
  match _rafId this with
  | Some id => cancelAnimationFrame id ;; modify (set__rafId None)
  | None => mret tt
  end.

(** *** Content and message cycling *)

(** [updateContent(newContent, animate)]. [Pointy.animateText] is its
    [setTimeout] of [duration * 0.4], whose closure renders the content and
    calls [onComplete], here [updatePosition]. *)
Definition updateContent (newContent : Msg) (animate : bool) : M unit :=
  if is_blank newContent then modify (set_bubble_opacity "0")
  else
    this ← get;
    let wasHidden := String.eqb (bubble_opacity this) "0" in
    when (wasHidden && isVisible this)
      (modify (set_bubble_opacity "1") ;; updatePosition) ;;
    this ← get;
    let same :=
      match newContent, innerHTML (bubbleText_innerHTML this) with
      | MStr text, Some html => String.eqb html text
      | _, _ => false
      end in
    if same then mret tt
    else if animate then
      setTimeout (CbTextSwap newContent) (messageTransitionDuration this * 2 / 5) ;; mret tt
    else
      modify (set_bubbleText_innerHTML newContent) ;; updatePosition.

Definition _stopMessageCycle : M unit :=
  this ← get;
  match _messageIntervalId this with
  | Some id =>
      clearInterval id ;;
      modify (set__messageIntervalId None) ;;
      _emit "messageCycleStop" [("currentIndex", val_of_index (currentMessageIndex this))]
  | None => mret tt
  end.

Definition _startMessageCycle : M unit :=
  modify (set__messagesCompletedForStep false) ;;
  this ← get;
  id ← setInterval CbMessageCycle (default 0 (messageInterval this));
  modify (set__messageIntervalId (Some id)) ;;
  _emit "messageCycleStart" [("interval", val_of_num (messageInterval this));
                             ("totalMessages", VNum (len (currentMessages this)))].

(** [_applyMessages(content, fromStepChange)] *)
Definition _applyMessages (content : Content) (fromStepChange : bool) : M unit :=
  this ← get;
  let wasRunning := is_some (_messageIntervalId this) in
  _stopMessageCycle ;;
  modify (set_currentMessages (to_messages content)) ;;
  modify (set_currentMessageIndex 0) ;;
  this ← get;
  updateContent (msg_at (currentMessages this) 0) true ;;
  this ← get;
  (if fromStepChange && truthy (messageInterval this) && (1 <? len (currentMessages this)) then
     _startMessageCycle
   else when (wasRunning && (1 <? len (currentMessages this)))
          (modify (set__messageCyclePaused true))) ;;
  this ← get;
  _emit "messagesSet" [("messages", VMsgs (currentMessages this));
                       ("total", VNum (len (currentMessages this)));
                       ("cyclePaused", VBool (_messageCyclePaused this))].

Definition pauseMessageCycle : M unit :=
  this ← get;
  match _messageIntervalId this with
  | Some id =>
      clearInterval id ;;
      modify (set__messageIntervalId None) ;;
      modify (set__messageCyclePaused true) ;;
      _emit "messageCyclePause" [("currentIndex", val_of_index (currentMessageIndex this))]
  | None => mret tt
  end.

Definition resumeMessageCycle : M bool :=
  this ← get;
  if _messageCyclePaused this && truthy (messageInterval this) && (1 <? len (currentMessages this))
  then
    modify (set__messageCyclePaused false) ;;
    _startMessageCycle ;;
    this ← get;
    _emit "messageCycleResume" [("currentIndex", val_of_index (currentMessageIndex this))] ;;
    mret true
  else mret false.

(** [startMessageCycle(interval)]; [None] when the argument is omitted. *)
Definition startMessageCycle (interval : option Z) : M bool :=
  this ← get;
  if is_some (_messageIntervalId this) then mret false
  else if len (currentMessages this) <=? 1 then mret false
  else
    match interval with
    | Some i => modify (set_messageInterval (Some i))
    | None => mret tt
    end ;;
    this ← get;
    if negb (truthy (messageInterval this)) then mret false
    else
      modify (set__messageCyclePaused false) ;;
      _startMessageCycle ;;
      mret true.

Definition stopMessageCycle : M bool :=
  this ← get;
  if is_some (_messageIntervalId this) then
    _stopMessageCycle ;;
    modify (set__messageCyclePaused false) ;;
    mret true
  else mret false.

Definition nextMessage (isAuto : bool) : M bool :=
  this ← get;
  if len (currentMessages this) <=? 1 then mret false
  else
    let previousIndex := currentMessageIndex this in
    modify (set_currentMessageIndex
              (Index_rem (Index_add (currentMessageIndex this) 1) (len (currentMessages this)))) ;;
    this ← get;
    updateContent (msg_at (currentMessages this) (currentMessageIndex this)) true ;;
    this ← get;
    _emit "messageChange" [("fromIndex", val_of_index previousIndex);
                           ("toIndex", val_of_index (currentMessageIndex this));
                           ("message", VMsg (msg_at (currentMessages this) (currentMessageIndex this)));
                           ("total", VNum (len (currentMessages this)));
                           ("isAuto", VBool isAuto)] ;;
    mret true.

Definition prevMessage : M bool :=
  this ← get;
  if len (currentMessages this) <=? 1 then mret false
  else
    let previousIndex := currentMessageIndex this in
    modify (set_currentMessageIndex
              (Index_rem (Index_add (Index_add (currentMessageIndex this) (-1))
                                    (len (currentMessages this)))
                         (len (currentMessages this)))) ;;
    this ← get;
    updateContent (msg_at (currentMessages this) (currentMessageIndex this)) true ;;
    this ← get;
    _emit "messageChange" [("fromIndex", val_of_index previousIndex);
                           ("toIndex", val_of_index (currentMessageIndex this));
                           ("message", VMsg (msg_at (currentMessages this) (currentMessageIndex this)));
                           ("total", VNum (len (currentMessages this)))] ;;
    mret true.

Definition goToMessage (index : Index) : M unit :=
  this ← get;
  if Index_ltb index 0 || Index_geb index (len (currentMessages this)) then mret tt
  else
    let previousIndex := currentMessageIndex this in
    modify (set_currentMessageIndex index) ;;
    this ← get;
    updateContent (msg_at (currentMessages this) (currentMessageIndex this)) true ;;
    this ← get;
    _emit "messageChange" [("fromIndex", val_of_index previousIndex);
                           ("toIndex", val_of_index (currentMessageIndex this));
                           ("message", VMsg (msg_at (currentMessages this) (currentMessageIndex this)));
                           ("total", VNum (len (currentMessages this)))].

(** *** Autoplay *)

Definition _stopAutoplay : M unit :=
  this ← get;
  match _autoplayTimeoutId this with
  | Some id => clearTimeout id ;; modify (set__autoplayTimeoutId None)
  | None => mret tt
  end.

(** [_scheduleAutoplay()]. [this.steps[this.currentStepIndex]] is
    [undefined] when there is no such step, and reading [step.duration]
    then throws. *)
Definition _scheduleAutoplay : M unit :=
  this ← get;
  if negb (truthy (autoplay this)) || negb (autoplayEnabled this) || _autoplayPaused this
     || negb (isVisible this)
  then mret tt
  else
    let step := at_index (steps this) (currentStepIndex this) in
    let hasMultipleMessages :=
      (1 <? len (currentMessages this)) && truthy (messageInterval this) in
    if autoplayWaitForMessages this && hasMultipleMessages then mret tt
    else
      match step with
      | None => throw TypeError
      | Some step =>
          let duration := match duration step with
                          | Some d => Some d
                          | None => autoplay this
                          end in
          match duration with
          | Some d =>
              when (negb (d =? 0) && (0 <? d))
                (id ← setTimeout (CbAutoplay d) d;
                 modify (set__autoplayTimeoutId (Some id)))
          | None => mret tt
          end
      end.

Definition _scheduleAutoplayAfterMessages : M unit :=
  this ← get;
  if negb (truthy (autoplay this)) || negb (autoplayEnabled this) || _autoplayPaused this
     || negb (isVisible this)
  then mret tt
  else
    let delay := 300 in
    id ← setTimeout CbAutoplayAfterMessages delay;
    modify (set__autoplayTimeoutId (Some id)).

(** *** Steps *)

(** [onStepChange(index, step)] / [onComplete()], when the option is set. *)
Definition call_user (o : Obs) (cb : UserCallback) : M unit :=
  log o ;;
  match cb_call cb with
  | Normal _ => mret tt
  | Thrown e => throw e
  end.

Definition goToStep (index : Index) : M unit :=
  this ← get;
  if (len (steps this) =? 0) || Index_ltb index 0 || Index_geb index (len (steps this))
  then mret tt
  else
    _stopAutoplay ;;
    modify (set__messagesCompletedForStep false) ;;
    this ← get;
    let previousIndex := currentStepIndex this in
    let previousTarget := targetElement this in
    modify (set_currentStepIndex index) ;;
    let step := at_index (steps this) index in
    _emit "beforeStepChange" [("fromIndex", val_of_index previousIndex);
                              ("toIndex", val_of_index index);
                              ("step", val_of_step step);
                              ("fromTarget", val_of_elem previousTarget)] ;;
    match step with
    | None => throw TypeError
    | Some step =>
        modify (set_manualDirection (or_null (direction step))) ;;
        modify (set__targetYHistory []) ;;
        modify (set_lastTargetY None) ;;
        this ← get;
        match moveTimeout this with Some id => clearTimeout id | None => mret tt end ;;
        _emit "animationStart" [("fromTarget", val_of_elem previousTarget);
                                ("toTarget", val_of_elem (getTargetElement (target step)));
                                ("type", VStr "step"); ("stepIndex", val_of_index index)] ;;
        this ← get;
        id ← setTimeout (CbStepSettle index step previousTarget) (animationDuration this);
        modify (set_moveTimeout (Some id)) ;;
        _emit "move" [("index", val_of_index index); ("step", VStep step)] ;;
        _applyMessages (content step) true ;;
        modify (set_targetElement (getTargetElement (target step))) ;;
        updatePosition ;;
        this ← get;
        _emit "stepChange" [("fromIndex", val_of_index previousIndex);
                            ("toIndex", val_of_index index);
                            ("step", VStep step);
                            ("target", val_of_elem (targetElement this))] ;;
        this ← get;
        match onStepChange this with
        | Some cb => call_user (StepChangeCb (cb_id cb) (currentStepIndex this) step) cb
        | None => mret tt
        end
    end.

(** *** Visibility *)

Definition Position_is (p : Position) (name : string) : bool :=
  match p with
  | PosStr s => String.eqb s name
  | PosElem _ => false
  end.

(** The [isPointingUp] property of what [_getInitialPosition()] returns:
    set only by the ['first-step'] branch, when the first step's target
    resolves. The coordinates [x], [y] go to styles only. *)
Definition _getInitialPosition (this : Pointy) : option bool :=
  if Position_is (initialPosition this) "first-step" && (0 <? len (steps this)) then
    match steps this with
    | firstStep :: _ =>
        match getTargetElement (target firstStep) with
        | Some _ =>
            Some (negb (bool_decide (direction firstStep = Some "down")))
        | None => None
        end
    | [] => None
    end
  else None.

(** The [if (messageInterval && currentMessages.length > 1 && !_messageIntervalId)]
    start of the message cycle, as [show()] and its timers have it. *)
Definition start_cycle_if_multi : M unit :=
  this ← get;
  when (truthy (messageInterval this) && (1 <? len (currentMessages this))
        && negb (is_some (_messageIntervalId this)))
    _startMessageCycle.

Definition show : M unit :=
  this ← get;
  _emit "beforeShow" [("target", val_of_elem (targetElement this))] ;;
  this ← get;
  match _hideOnCompleteTimeoutId this with
  | Some id => clearTimeout id ;; modify (set__hideOnCompleteTimeoutId None)
  | None => mret tt
  end ;;
  this ← get;
  if negb (_hasShownBefore this) then
    modify (set__hasShownBefore true) ;;
    this ← get;
    let isFirstStepStart := Position_is (initialPosition this) "first-step" in
    let initialPos := _getInitialPosition this in
    modify (set_bubble_opacity "0") ;;
    match isFirstStepStart, initialPos with
    | true, Some up => modify (set_isPointingUp up)
    | _, _ => mret tt
    end ;;
    modify (set_isVisible true) ;;
    this ← get;
    _emit "introAnimationStart" [("duration", VNum (introFadeDuration this))] ;;
    this ← get;
    setTimeout (CbIntroFadeEnd isFirstStepStart) (introFadeDuration this) ;;
    mret tt
  else
    modify (set_isVisible true) ;;
    updatePosition ;;
    _startTracking ;;
    this ← get;
    (if _messageCyclePausedByHide this && truthy (messageInterval this)
        && (1 <? len (currentMessages this))
     then _startMessageCycle ;; modify (set__messageCyclePausedByHide false)
     else start_cycle_if_multi) ;;
    this ← get;
    when (_wasAutoplayActiveBeforeHide this)
      (_scheduleAutoplay ;; modify (set__wasAutoplayActiveBeforeHide false)) ;;
    this ← get;
    _emit "show" [("target", val_of_elem (targetElement this)); ("isIntro", VBool false)].

Definition hide : M unit :=
  this ← get;
  _emit "beforeHide" [("target", val_of_elem (targetElement this))] ;;
  modify (set_isVisible false) ;;
  this ← get;
  when (resetPositionOnHide this) (modify (set__hasShownBefore false)) ;;
  _stopTracking ;;
  this ← get;
  when (is_some (_messageIntervalId this))
    (_stopMessageCycle ;; modify (set__messageCyclePausedByHide true)) ;;
  this ← get;
  modify (set__wasAutoplayActiveBeforeHide
            (truthy (autoplay this) && autoplayEnabled this && negb (_autoplayPaused this))) ;;
  _stopAutoplay ;;
  this ← get;
  _emit "hide" [("target", val_of_elem (targetElement this))].

Definition restart : M unit :=
  _emit "beforeRestart" [] ;;
  modify (set__hasShownBefore false) ;;
  this ← get;
  if isVisible this then
    _stopTracking ;;
    _stopMessageCycle ;;
    modify (set_isVisible false) ;;
    setTimeout CbRestart 50 ;;
    mret tt
  else
    goToStep 0 ;;
    show ;;
    _emit "restart" [].

Definition destroy : M unit :=
  _emit "destroy" [] ;;
  _stopTracking ;;
  this ← get;
  match _hideOnCompleteTimeoutId this with
  | Some id => clearTimeout id ;; modify (set__hideOnCompleteTimeoutId None)
  | None => mret tt
  end ;;
  modify (set__eventListeners ∅).

(** [reset(goToFirstStep)] *)
Definition reset (goToFirstStep : bool) : M unit :=
  this ← get;
  _emit "beforeReset" [("currentStep", val_of_index (currentStepIndex this))] ;;
  _stopMessageCycle ;;
  this ← get;
  match _hideOnCompleteTimeoutId this with
  | Some id => clearTimeout id ;; modify (set__hideOnCompleteTimeoutId None)
  | None => mret tt
  end ;;
  this ← get;
  match moveTimeout this with Some id => clearTimeout id | None => mret tt end ;;
  modify (set_bubble_opacity "0") ;;
  this ← get;
  match goToFirstStep, steps this with
  | true, firstStep :: _ =>
      modify (set_currentStepIndex 0) ;;
      modify (set_targetElement (getTargetElement (target firstStep))) ;;
      modify (set_currentMessages (to_messages (content firstStep))) ;;
      modify (set_currentMessageIndex 0) ;;
      modify (set_bubbleText_innerHTML (msg_at (to_messages (content firstStep)) 0))
  | _, _ => mret tt
  end ;;
  this ← get;
  id ← setTimeout CbResetSettle (animationDuration this);
  modify (set_moveTimeout (Some id)).

(** *** Navigation *)

Definition next : M unit :=
  this ← get;
  if len (steps this) =? 0 then mret tt
  else if Index_ltb (currentStepIndex this) (len (steps this) - 1) then
    _emit "next" [("fromIndex", val_of_index (currentStepIndex this));
                  ("toIndex", val_of_index (Index_add (currentStepIndex this) 1))] ;;
    this ← get;
    goToStep (Index_add (currentStepIndex this) 1)
  else
    let wasAutoplayActive :=
      truthy (autoplay this) && autoplayEnabled this && negb (_autoplayPaused this) in
    _emit "complete" [("totalSteps", VNum (len (steps this)));
                      ("source", VStr (if wasAutoplayActive then "autoplay" else "manual"))] ;;
    when wasAutoplayActive
      (_stopAutoplay ;;
       modify (set_autoplayEnabled false) ;;
       this ← get;
       _emit "autoplayComplete" [("totalSteps", VNum (len (steps this)))]) ;;
    this ← get;
    (if resetOnComplete this then
       reset true ;;
       this ← get;
       when (hideOnComplete this)
         (let hideDelay := match hideOnCompleteDelay this with
                           | Some d => d
                           | None => animationDuration this
                           end in
          let source := if wasAutoplayActive then "autoplay" else "manual" in
          id ← setTimeout (CbAutoHide hideDelay source) (animationDuration this + hideDelay);
          modify (set__hideOnCompleteTimeoutId (Some id)))
     else
       when (hideOnComplete this)
         (let delay := match hideOnCompleteDelay this with
                       | Some d => d
                       | None => animationDuration this
                       end in
          let source := if wasAutoplayActive then "autoplay" else "manual" in
          id ← setTimeout (CbAutoHide delay source) delay;
          modify (set__hideOnCompleteTimeoutId (Some id)))) ;;
    this ← get;
    match onComplete this with
    | Some cb => call_user (CompleteCb (cb_id cb)) cb
    | None => mret tt
    end.

Definition prev : M unit :=
  this ← get;
  if len (steps this) =? 0 then mret tt
  else
    when (Index_gtb (currentStepIndex this) 0)
      (_emit "prev" [("fromIndex", val_of_index (currentStepIndex this));
                     ("toIndex", val_of_index (Index_add (currentStepIndex this) (-1)))] ;;
       this ← get;
       goToStep (Index_add (currentStepIndex this) (-1))).

(** [content !== undefined] *)
Definition content_defined (c : Content) : bool :=
  match c with
  | CSingle MUndef => false
  | _ => true
  end.

(** [pointTo(target, content, direction)]; an omitted [content] is
    [CSingle MUndef], an omitted [direction] is [None]. *)
Definition pointTo (tgt : Target) (content : Content) (direction : option string) : M unit :=
  this ← get;
  let previousTarget := targetElement this in
  let actualDirection := default "auto" (or_null direction) in
  _emit "beforePointTo" [("target", val_of_elem (getTargetElement tgt));
                         ("content", VContent content);
                         ("direction", VStr actualDirection);
                         ("fromTarget", val_of_elem previousTarget)] ;;
  modify (set_manualDirection (or_null direction)) ;;
  modify (set__targetYHistory []) ;;
  modify (set_lastTargetY None) ;;
  this ← get;
  match moveTimeout this with Some id => clearTimeout id | None => mret tt end ;;
  let toTarget := getTargetElement tgt in
  _emit "animationStart" [("fromTarget", val_of_elem previousTarget);
                          ("toTarget", val_of_elem toTarget);
                          ("type", VStr "pointTo"); ("content", VContent content)] ;;
  modify (set_targetElement toTarget) ;;
  when (content_defined content) (_applyMessages content false) ;;
  updatePosition ;;
  this ← get;
  let resolvedDirection := if isPointingUp this then "up" else "down" in
  id ← setTimeout (CbPointToSettle previousTarget content resolvedDirection)
                  (animationDuration this);
  modify (set_moveTimeout (Some id)) ;;
  this ← get;
  _emit "pointTo" [("target", val_of_elem (targetElement this));
                   ("content", VContent content);
                   ("direction", VStr resolvedDirection)] ;;
  this ← get;
  when (negb (isVisible this)) show.

(** *** Autoplay controls *)

Definition startAutoplay : M unit :=
  this ← get;
  if negb (truthy (autoplay this)) then mret tt
  else
    modify (set_autoplayEnabled true) ;;
    modify (set__autoplayPaused false) ;;
    _emit "autoplayStart" [] ;;
    _scheduleAutoplay.

Definition stopAutoplay : M unit :=
  _stopAutoplay ;;
  modify (set_autoplayEnabled false) ;;
  modify (set__autoplayPaused false) ;;
  _emit "autoplayStop" [].

Definition pauseAutoplay : M unit :=
  _stopAutoplay ;;
  modify (set__autoplayPaused true) ;;
  _emit "autoplayPause" [].

Definition resumeAutoplay : M unit :=
  this ← get;
  if negb (_autoplayPaused this) then mret tt
  else
    modify (set__autoplayPaused false) ;;
    _emit "autoplayResume" [] ;;
    _scheduleAutoplay.

(** [isAutoplayActive()], as a boolean. *)
Definition isAutoplayActive (this : Pointy) : bool :=
  truthy (autoplay this) && autoplayEnabled this && negb (_autoplayPaused this).

(** *** Configuration setters *)

Definition setResetOnComplete (reset : bool) : M unit :=
  this ← get;
  let oldValue := resetOnComplete this in
  if Bool.eqb oldValue reset then mret tt
  else
    modify (set_resetOnComplete reset) ;;
    _emit "resetOnCompleteChange" [("from", VBool oldValue); ("to", VBool reset)].

Definition setFloatingAnimation (enabled : bool) : M unit :=
  this ← get;
  let oldValue := floatingAnimation this in
  if Bool.eqb oldValue enabled then mret tt
  else
    modify (set_floatingAnimation enabled) ;;
    _emit "floatingAnimationChange" [("from", VBool oldValue); ("to", VBool enabled)].

Definition setTracking (enabled : bool) : M unit :=
  this ← get;
  let oldValue := tracking this in
  if Bool.eqb oldValue enabled then mret tt
  else
    modify (set_tracking enabled) ;;
    (if enabled && isVisible this then _startTracking
     else when (negb enabled) _stopTracking) ;;
    _emit "trackingChange" [("from", VBool oldValue); ("to", VBool enabled)].

Definition setTrackingFps (fps : Z) : M unit :=
  this ← get;
  let oldValue := trackingFps this in
  if oldValue =? fps then mret tt
  else
    modify (set_trackingFps fps) ;;
    _emit "trackingFpsChange" [("from", VNum oldValue); ("to", VNum fps)].

Definition setMessageInterval (interval : option Z) : M unit :=
  this ← get;
  let oldInterval := messageInterval this in
  if optZ_eqb oldInterval interval then mret tt
  else
    modify (set_messageInterval interval) ;;
    _stopMessageCycle ;;
    this ← get;
    when (truthy interval && (1 <? len (currentMessages this))) _startMessageCycle ;;
    _emit "messageIntervalChange" [("from", val_of_num oldInterval); ("to", val_of_num interval)].

Definition setOffset (offsetX' offsetY' : Z) : M unit :=
  this ← get;
  let oldOffsetX := offsetX this in
  let oldOffsetY := offsetY this in
  if (oldOffsetX =? offsetX') && (oldOffsetY =? offsetY') then mret tt
  else
    modify (set_offsetX offsetX') ;;
    modify (set_offsetY offsetY') ;;
    updatePosition ;;
    _emit "offsetChange" [("from", VPoint oldOffsetX oldOffsetY); ("to", VPoint offsetX' offsetY')].

Definition setAnimationDuration (duration : Z) : M unit :=
  this ← get;
  let oldDuration := animationDuration this in
  if oldDuration =? duration then mret tt
  else
    modify (set_animationDuration duration) ;;
    _emit "animationDurationChange" [("from", VNum oldDuration); ("to", VNum duration)].

Definition setIntroFadeDuration (duration : Z) : M unit :=
  this ← get;
  let oldDuration := introFadeDuration this in
  if oldDuration =? duration then mret tt
  else
    modify (set_introFadeDuration duration) ;;
    _emit "introFadeDurationChange" [("from", VNum oldDuration); ("to", VNum duration)].

Definition setBubbleFadeDuration (duration : Z) : M unit :=
  this ← get;
  let oldDuration := bubbleFadeDuration this in
  if oldDuration =? duration then mret tt
  else
    modify (set_bubbleFadeDuration duration) ;;
    _emit "bubbleFadeDurationChange" [("from", VNum oldDuration); ("to", VNum duration)].

(** [console.warn(msg)] *)
Definition console_warn (msg : string) : M unit := log (ConsoleWarn msg).

Definition setInitialPosition (position : Position) : M unit :=
  let invalid :=
    match position with
    | PosStr p => negb (startsWith p "#") && negb (startsWith p ".") && negb (includes validPresets p)
    | PosElem _ => false
    end in
  if invalid then
    console_warn ("Invalid initial position: "
                  ++ match position with PosStr p => p | PosElem _ => "" end
                  ++ ". Valid presets: " ++ String.concat ", " validPresets
                  ++ ". Or use a CSS selector or DOM element.")
  else
    this ← get;
    let oldPosition := initialPosition this in
    if Position_eqb oldPosition position then mret tt
    else
      modify (set_initialPosition position) ;;
      _emit "initialPositionChange" [("from", VPosition oldPosition); ("to", VPosition position)].

Definition setInitialPositionOffset (offset : Z) : M unit :=
  this ← get;
  let oldOffset := initialPositionOffset this in
  if oldOffset =? offset then mret tt
  else
    modify (set_initialPositionOffset offset) ;;
    _emit "initialPositionOffsetChange" [("from", VNum oldOffset); ("to", VNum offset)].

Definition setEasing (easing' : string) : M unit :=
  this ← get;
  let oldEasing := easing this in
  if String.eqb oldEasing easing' then mret tt
  else
    modify (set_easing easing') ;;
    _emit "easingChange" [("from", VStr oldEasing); ("to", VStr easing')].

Definition setMessageTransitionDuration (duration : Z) : M unit :=
  this ← get;
  let oldDuration := messageTransitionDuration this in
  if oldDuration =? duration then mret tt
  else
    modify (set_messageTransitionDuration duration) ;;
    _emit "messageTransitionDurationChange" [("from", VNum oldDuration); ("to", VNum duration)].

Definition setPointerSvg (svg : string) : M unit :=
  this ← get;
  let oldSvg := pointerSvg this in
  if String.eqb oldSvg svg then mret tt
  else
    modify (set_pointerSvg svg) ;;
    _emit "pointerSvgChange" [("from", VStr oldSvg); ("to", VStr svg)].

Definition setAutoplayInterval (interval : option Z) : M unit :=
  this ← get;
  let oldInterval := autoplay this in
  if optZ_eqb oldInterval interval then mret tt
  else
    modify (set_autoplay interval) ;;
    _emit "autoplayChange" [("from", val_of_num oldInterval); ("to", val_of_num interval)] ;;
    this ← get;
    if autoplayEnabled this && truthy interval && isVisible this then
      _stopAutoplay ;;
      _scheduleAutoplay
    else
      when (negb (truthy interval))
        (_stopAutoplay ;;
         modify (set_autoplayEnabled false)).

Definition setAutoplayWaitForMessages (wait : bool) : M unit :=
  this ← get;
  let oldValue := autoplayWaitForMessages this in
  if Bool.eqb oldValue wait then mret tt
  else
    modify (set_autoplayWaitForMessages wait) ;;
    _emit "autoplayWaitForMessagesChange" [("from", VBool oldValue); ("to", VBool wait)].

Definition setHideOnComplete (hide : bool) : M unit :=
  this ← get;
  let oldValue := hideOnComplete this in
  if Bool.eqb oldValue hide then mret tt
  else
    modify (set_hideOnComplete hide) ;;
    _emit "hideOnCompleteChange" [("from", VBool oldValue); ("to", VBool hide)].

Definition setHideOnCompleteDelay (delay : option Z) : M unit :=
  this ← get;
  let oldValue := hideOnCompleteDelay this in
  if optZ_eqb oldValue delay then mret tt
  else
    modify (set_hideOnCompleteDelay delay) ;;
    _emit "hideOnCompleteDelayChange" [("from", val_of_num oldValue); ("to", val_of_num delay)].

(** [setAutoplay(interval)], the legacy method. *)
Definition setAutoplay (interval : option Z) : M unit :=
  setAutoplayInterval interval ;;
  this ← get;
  when (truthy interval && isVisible this)
    (modify (set_autoplayEnabled true) ;;
     modify (set__autoplayPaused false) ;;
     restart).

(** [updateTarget(newTarget)] *)
Definition updateTarget (newTarget : Target) : M unit :=
  this ← get;
  let oldTarget := targetElement this in
  modify (set_targetElement (getTargetElement newTarget)) ;;
  updatePosition ;;
  this ← get;
  _emit "targetChange" [("from", val_of_elem oldTarget); ("to", val_of_elem (targetElement this))].

(** *** Timer callbacks *)

(** The body of each closure. *)
Definition run_callback (cb : Callback) : M unit :=
  match cb with
  | CbIntroFadeEnd isFirstStepStart =>
      _emit "introAnimationEnd" [] ;;
      if isFirstStepStart then
        _startTracking ;;
        this ← get;
        modify (set_bubble_opacity (if hasContent (currentMessages this) then "1" else "0")) ;;
        start_cycle_if_multi ;;
        _scheduleAutoplay ;;
        this ← get;
        _emit "show" [("target", val_of_elem (targetElement this)); ("isIntro", VBool true);
                      ("isFirstStep", VBool true)]
      else
        updatePosition ;;
        _startTracking ;;
        this ← get;
        setTimeout CbIntroArrive (animationDuration this) ;;
        _emit "show" [("target", val_of_elem (targetElement this)); ("isIntro", VBool true);
                      ("isFirstStep", VBool false)]
  | CbIntroArrive =>
      this ← get;
      modify (set_bubble_opacity (if hasContent (currentMessages this) then "1" else "0")) ;;
      start_cycle_if_multi ;;
      _scheduleAutoplay
  | CbRestart =>
      goToStep 0 ;;
      show ;;
      _emit "restart" []
  | CbResetSettle =>
      modify (set__hasShownBefore false) ;;
      this ← get;
      _emit "reset" [("stepIndex", val_of_index (currentStepIndex this))]
  | CbTextSwap newContent =>
      modify (set_bubbleText_innerHTML newContent) ;;
      updatePosition
  | CbMessageCycle =>
      this ← get;
      let isLastMessage := Index_is (currentMessageIndex this) (len (currentMessages this) - 1) in
      if isLastMessage && truthy (autoplay this) && autoplayWaitForMessages this then
        _stopMessageCycle ;;
        modify (set__messagesCompletedForStep true) ;;
        this ← get;
        _emit "messageCycleComplete" [("stepIndex", val_of_index (currentStepIndex this));
                                      ("totalMessages", VNum (len (currentMessages this)))] ;;
        _scheduleAutoplayAfterMessages
      else
        nextMessage true ;; mret tt
  | CbStepSettle index step previousTarget =>
      this ← get;
      _emit "moveComplete" [("index", val_of_index index); ("step", VStep step);
                            ("target", val_of_elem (targetElement this))] ;;
      this ← get;
      _emit "animationEnd" [("fromTarget", val_of_elem previousTarget);
                            ("toTarget", val_of_elem (targetElement this));
                            ("type", VStr "step"); ("stepIndex", val_of_index index)] ;;
      _scheduleAutoplay
  | CbAutoplay duration =>
      this ← get;
      when (negb (_autoplayPaused this) && isVisible this && autoplayEnabled this)
        (_emit "autoplayNext" [("fromIndex", val_of_index (currentStepIndex this));
                               ("duration", VNum duration)] ;;
         next)
  | CbAutoplayAfterMessages =>
      this ← get;
      when (negb (_autoplayPaused this) && isVisible this && _messagesCompletedForStep this)
        (_emit "autoplayNext" [("fromIndex", val_of_index (currentStepIndex this));
                               ("afterMessages", VBool true)] ;;
         next)
  | CbAutoHide delay source =>
      hide ;;
      _emit "autoHide" [("delay", VNum delay); ("source", VStr source)]
  | CbPointToSettle previousTarget content resolvedDirection =>
      this ← get;
      _emit "pointToComplete" [("target", val_of_elem (targetElement this));
                               ("content", VContent content);
                               ("direction", VStr resolvedDirection)] ;;
      this ← get;
      _emit "animationEnd" [("fromTarget", val_of_elem previousTarget);
                            ("toTarget", val_of_elem (targetElement this));
                            ("type", VStr "pointTo"); ("content", VContent content)]
  | CbTrack => _trackPosition
  end.

(** The event loop runs the pending timer [id]: it must be due; a timeout
    or a frame request leaves the store, an interval is re-armed. An
    exception the callback throws ends the callback only. *)
Definition fire (id : positive) (s : Pointy) : option Pointy :=
  match find (fun t => (tid t =? id)%positive) (timers s) with
  | None => None
  | Some t =>
      if registered t + Z.max 0 (delay t) <=? date_now env then
        let pending :=
          match kind t with
          | KInterval =>
              map (fun u => if (tid u =? id)%positive
                            then mkTimer (tid u) (kind u) (date_now env) (delay u) (callback u)
                            else u) (timers s)
          | _ => List.filter (fun u => negb (tid u =? id)%positive) (timers s)
          end in
        Some (exec (run_callback (callback t)) (set_timers pending s))
      else None
  end.

End Engine.

(** ** Construction *)

(** The options object; an absent property is [None] (or [TNone]). *)
Record Options : Type := mkOptions {
  o_steps : option (list Step);
  o_target : Target;
  o_content : option Content;
  o_offsetX : option Z;
  o_offsetY : option Z;
  o_tracking : option bool;
  o_trackingFps : option Z;
  o_animationDuration : option Z;
  o_introFadeDuration : option Z;
  o_bubbleFadeDuration : option Z;
  o_messageTransitionDuration : option Z;
  o_easing : option string;
  o_resetOnComplete : option bool;
  o_floatingAnimation : option bool;
  o_initialPosition : option Position;
  o_initialPositionOffset : option Z;
  o_resetPositionOnHide : option bool;
  o_autoplay : option Z;
  o_autoplayEnabled : option bool;
  o_autoplayWaitForMessages : option bool;
  o_hideOnComplete : option bool;
  o_hideOnCompleteDelay : option Z;
  o_messageInterval : option Z;
  o_pointerSvg : option string;
  o_onStepChange : option UserCallback;
  o_onComplete : option UserCallback
}.

(** [n || null] *)
Definition num_or_null (n : option Z) : option Z :=
  if truthy n then n else None.

(** [options.content || ''] *)
Definition content_or_empty (c : option Content) : Content :=
  match c with
  | Some (CArray ms) => CArray ms
  | Some (CSingle m) => if is_blank m then CSingle (MStr "") else CSingle m
  | None => CSingle (MStr "")
  end.

(** [constructor(options)] *)
Definition constructor (env : Env) (options : Options) : Pointy :=
  let steps := default [] (o_steps options) in
  let targetElement :=
    match steps with
    | firstStep :: _ => getTargetElement env (target firstStep)
    | [] =>
        match o_target options with
        | TSel "" => None
        | t => getTargetElement env t
        end
    end in
  let currentMessages :=
    match steps with
    | firstStep :: _ => to_messages (content firstStep)
    | [] => to_messages (content_or_empty (o_content options))
    end in
  {| steps := steps;
     offsetX := default 20 (o_offsetX options);
     offsetY := default 16 (o_offsetY options);
     tracking := default true (o_tracking options);
     trackingFps := default 60 (o_trackingFps options);
     animationDuration := default 1000 (o_animationDuration options);
     introFadeDuration := default 1000 (o_introFadeDuration options);
     bubbleFadeDuration := default 500 (o_bubbleFadeDuration options);
     messageTransitionDuration := default 500 (o_messageTransitionDuration options);
     easing := default "default" (o_easing options);
     resetOnComplete := default true (o_resetOnComplete options);
     floatingAnimation := default true (o_floatingAnimation options);
     initialPosition :=
       match o_initialPosition options with
       | Some (PosStr name) => if String.eqb name "" then PosStr "center" else PosStr name
       | Some (PosElem el) => PosElem el
       | None => PosStr "center"
       end;
     initialPositionOffset := default 32 (o_initialPositionOffset options);
     resetPositionOnHide := default false (o_resetPositionOnHide options);
     autoplay := num_or_null (o_autoplay options);
     autoplayEnabled := default false (o_autoplayEnabled options);
     autoplayWaitForMessages := default true (o_autoplayWaitForMessages options);
     hideOnComplete := default true (o_hideOnComplete options);
     hideOnCompleteDelay := o_hideOnCompleteDelay options;
     pointerSvg :=
       match o_pointerSvg options with
       | Some svg => if String.eqb svg "" then POINTER_SVG else svg
       | None => POINTER_SVG
       end;
     onStepChange := o_onStepChange options;
     onComplete := o_onComplete options;
     _autoplayTimeoutId := None;
     _autoplayPaused := false;
     _messagesCompletedForStep := false;
     _hideOnCompleteTimeoutId := None;
     _eventListeners := ∅;
     targetElement := targetElement;
     currentStepIndex := 0;
     currentMessageIndex := 0;
     currentMessages := currentMessages;
     messageInterval := num_or_null (o_messageInterval options);
     _messageIntervalId := None;
     isVisible := false;
     isPointingUp := true;
     lastTargetY := None;
     _targetYHistory := [];
     _lastDirectionChangeTime := 0;
     manualDirection := None;
     moveTimeout := None;
     _hasShownBefore := false;
     _lastTrackTime := 0;
     _rafId := None;
     _messageCyclePausedByHide := false;
     _wasAutoplayActiveBeforeHide := false;
     _messageCyclePaused := false;
     bubble_opacity := "";
     bubbleText_innerHTML := msg_at currentMessages 0;
     timers := [];
     next_timer_id := 1;
     trace := [] |}.

(** ** Notions the properties are stated with *)

(** What one listener call leaves in the trace: the call, and the logged
    error when the listener throws. *)
Definition listener_obs (key : string) (eventData : EventData) (msg : string)
    (callback : Handler) : list Obs :=
  Deliver key (h_id callback) eventData ::
  match h_call callback eventData with
  | Normal _ => []
  | Thrown e => [ConsoleError msg e]
  end.

(** The listeners registered under [key], in registration order. *)
Definition subscribers (s : Pointy) (key : string) : list Handler :=
  default [] (_eventListeners s !! key).

Definition dispatch_obs (s : Pointy) (key : string) (eventData : EventData) (msg : string)
    : list Obs :=
  flat_map (listener_obs key eventData msg) (subscribers s key).

(** Everything one [_emit(event, data)] appends to the trace. *)
Definition emit_obs (s : Pointy) (event : string) (data : Obj) : list Obs :=
  let eventData := obj_set "type" (VStr event) data in
  (Emit event eventData
   :: dispatch_obs s event eventData ("Pointy: Error in " ++ event ++ " event handler:")
   ++ match getEventGroup event with
      | Some group =>
          dispatch_obs s group eventData
            ("Pointy: Error in " ++ group ++ " group handler for " ++ event ++ ":")
      | None => []
      end
   ++ dispatch_obs s "*" eventData ("Pointy: Error in wildcard handler for " ++ event ++ ":")
   ++ dispatch_obs s "all" eventData ("Pointy: Error in wildcard handler for " ++ event ++ ":"))%list.

(** The order the claim gives for one emit: exact-name subscribers, then
    the subscribers of the event's group, then ['*'], then ['all']; each
    with the key it is registered under. *)
Definition delivery_plan (s : Pointy) (event : string) : list (string * Handler) :=
  (map (pair event) (subscribers s event)
   ++ match getEventGroup event with
      | Some group => map (pair group) (subscribers s group)
      | None => []
      end
   ++ map (pair "*") (subscribers s "*")
   ++ map (pair "all") (subscribers s "all"))%list.

(** The listener calls of a trace, in order: the key and the listener. *)
Definition deliveries (t : list Obs) : list (string * nat) :=
  flat_map (fun o => match o with Deliver key h _ => [(key, h)] | _ => [] end) t.

(** The errors a trace logged, in order. *)
Definition logged_errors (t : list Obs) : list Val :=
  flat_map (fun o => match o with ConsoleError _ e => [e] | _ => [] end) t.

(** The events of a trace, in order. *)
Definition emitted (t : list Obs) : list (string * EventData) :=
  flat_map (fun o => match o with Emit event data => [(event, data)] | _ => [] end) t.

(** A computation leaves [f] as it found it, however it ends. *)
Definition keeps {A B : Type} (f : Pointy -> B) (m : M A) : Prop :=
  forall s, f (exec m s) = f s.

(** A computation never throws. *)
Definition returns {A : Type} (m : M A) : Prop :=
  forall s, exists a, outcome m s = Normal a.

(** Assignments to the fields that hold the run-time state of the engine,
    as opposed to its configuration and its step cursor. *)
Inductive runtime_update : (Pointy -> Pointy) -> Prop :=
| ru_trace v : runtime_update (set_trace v)
| ru_timers v : runtime_update (set_timers v)
| ru_next_timer_id v : runtime_update (set_next_timer_id v)
| ru_autoplayTimeoutId v : runtime_update (set__autoplayTimeoutId v)
| ru_autoplayPaused v : runtime_update (set__autoplayPaused v)
| ru_messagesCompletedForStep v : runtime_update (set__messagesCompletedForStep v)
| ru_hideOnCompleteTimeoutId v : runtime_update (set__hideOnCompleteTimeoutId v)
| ru_targetElement v : runtime_update (set_targetElement v)
| ru_currentMessageIndex v : runtime_update (set_currentMessageIndex v)
| ru_currentMessages v : runtime_update (set_currentMessages v)
| ru_messageIntervalId v : runtime_update (set__messageIntervalId v)
| ru_isVisible v : runtime_update (set_isVisible v)
| ru_isPointingUp v : runtime_update (set_isPointingUp v)
| ru_lastTargetY v : runtime_update (set_lastTargetY v)
| ru_targetYHistory v : runtime_update (set__targetYHistory v)
| ru_lastDirectionChangeTime v : runtime_update (set__lastDirectionChangeTime v)
| ru_manualDirection v : runtime_update (set_manualDirection v)
| ru_moveTimeout v : runtime_update (set_moveTimeout v)
| ru_hasShownBefore v : runtime_update (set__hasShownBefore v)
| ru_lastTrackTime v : runtime_update (set__lastTrackTime v)
| ru_rafId v : runtime_update (set__rafId v)
| ru_messageCyclePausedByHide v : runtime_update (set__messageCyclePausedByHide v)
| ru_wasAutoplayActiveBeforeHide v : runtime_update (set__wasAutoplayActiveBeforeHide v)
| ru_messageCyclePaused v : runtime_update (set__messageCyclePaused v)
| ru_bubble_opacity v : runtime_update (set_bubble_opacity v)
| ru_bubbleText_innerHTML v : runtime_update (set_bubbleText_innerHTML v).

(** [f] reads none of those fields. *)
Definition ignores_runtime {B : Type} (f : Pointy -> B) : Prop :=
  forall g, runtime_update g -> forall s, f (g s) = f s.

(** The part of the state that says where the tour is and what [next()]
    does at its end. *)
Definition cursor (s : Pointy) : Index * list Step * bool :=
  (currentStepIndex s, steps s, resetOnComplete s).

(** The completion policy of the configuration. *)
Definition completion_policy (s : Pointy) : Z * option Z * bool * bool :=
  (animationDuration s, hideOnCompleteDelay s, hideOnComplete s, resetOnComplete s).

(** The auto-hide bookkeeping: the recorded timer id and the pending
    timers. *)
Definition autoHide_state (s : Pointy) : option positive * list Timer :=
  (_hideOnCompleteTimeoutId s, timers s).

(** Every pending timer has an id below the next one to be handed out:
    what [setTimeout] guarantees of the ids it returns. *)
Definition timers_fresh (s : Pointy) : Prop :=
  Forall (fun t => (tid t < next_timer_id s)%positive) (timers s).

(** A computation keeps the invariant [I], however it ends. *)
Definition maintains {A : Type} (I : Pointy -> Prop) (m : M A) : Prop :=
  forall s, I s -> I (exec m s).

(** ** Concrete runs *)

(** A page with two elements, [#a] and [#b], at time [t]. *)
Definition page (t : Z) : Env :=
  mkEnv t t
    (fun selector =>
       if String.eqb selector "#a" then Some 1%nat
       else if String.eqb selector "#b" then Some 2%nat
       else None)
    (fun el => mkRect (100 * Z.of_nat el) 50 (100 * Z.of_nat el + 20)) 0 0.

(** [{ steps, autoplay, messageInterval, autoplayWaitForMessages }], every
    other option left out. *)
Definition tour_options (steps : list Step) (autoplay messageInterval : option Z)
    (autoplayWaitForMessages : option bool) : Options :=
  mkOptions (Some steps) TNone None None None None None None None None None None None None
            None None None autoplay None autoplayWaitForMessages None None messageInterval
            None None None.

Definition step_a : Step := mkStep (TSel "#a") (CSingle (MStr "Welcome")) None None.
Definition step_a2 : Step := mkStep (TSel "#a") (CArray [MStr "m1"; MStr "m2"]) None None.
Definition step_b : Step := mkStep (TSel "#b") (CSingle (MStr "Done")) None None.

(** Run a method in a state, whatever its outcome. *)
Definition call {A : Type} (m : M A) (s : option Pointy) : option Pointy :=
  option_map (exec m) s.

(** Let the pending timer [id] fire. *)
Definition tick (env : Env) (id : positive) (s : option Pointy) : option Pointy :=
  match s with
  | Some st => fire env id st
  | None => None
  end.

(** The pending timers that advance the tour. *)
Definition is_autoplay_timer (t : Timer) : bool :=
  match callback t with
  | CbAutoplay _ | CbAutoplayAfterMessages => true
  | _ => false
  end.

Definition pending_autoplay (s : Pointy) : list Timer :=
  List.filter is_autoplay_timer (timers s).

(** A tour with a two-message first step, message cycling every second and
    autoplay every three, not waiting for messages: constructed, shown, its
    intro played out. *)
Definition running_tour : option Pointy :=
  tick (page 2000) 3
    (tick (page 1000) 1
       (call (show (page 0))
          (Some (constructor (page 0)
                   (tour_options [step_a2; step_b] (Some 3000) (Some 1000) (Some false)))))).

(** ... then autoplay started, [#b] pointed at, and the instance
    destroyed. *)
Definition destroyed_tour : option Pointy :=
  call destroy
    (call (pointTo (page 2500) (TSel "#b") (CSingle MUndef) None)
       (call (startAutoplay (page 2100)) running_tour)).

(** The timers that come due in the next 2.6 s, fired in the order they
    come due: the message interval (4) at 3 s, 4 s and 5 s, the text swaps
    it starts (7, 8) 200 ms later, the movement-settle timeout (6) at 3.5 s
    and the autoplay timeout (5) at 5.1 s. *)
Definition timers_run_on (s : option Pointy) : option Pointy :=
  tick (page 5100) 5
    (tick (page 5000) 4
       (tick (page 4200) 8
          (tick (page 4000) 4
             (tick (page 3500) 6
                (tick (page 3200) 7
                   (tick (page 3000) 4 s)))))).

(** A one-step tour with the default completion policy: constructed, shown,
    its intro played out, completed by [next()] at 5 s, hidden by hand at
    5.5 s. *)
Definition completed_then_hidden : option Pointy :=
  call hide
    (call (next (page 5000))
       (tick (page 2000) 3
          (tick (page 1000) 1
             (call (show (page 0))
                (Some (constructor (page 0) (tour_options [step_a] None None None))))))).

(** ... and then the two timers that were pending coming due: the
    reset's settle timeout (4) at 6 s, the auto-hide (5) at 7 s. *)
Definition hidden_then_timers_fire : option Pointy :=
  tick (page 7000) 5 (tick (page 6000) 4 completed_then_hidden).

(** A two-step tour with autoplay every three seconds: constructed, shown,
    and [startAutoplay()] called twice. *)
Definition autoplay_started_twice : option Pointy :=
  call (startAutoplay (page 10))
    (call (startAutoplay (page 0))
       (call (show (page 0))
          (Some (constructor (page 0) (tour_options [step_a; step_b] (Some 3000) None None))))).

(** ... and then the timers as they come due (animation frames aside): the
    intro's two timeouts (1, 5) at 1 s and 2 s, the first autoplay timeout
    (2) at 3 s, the second (3) 10 ms later. *)
Definition autoplay_fires_twice : option Pointy :=
  tick (page 3010) 3
    (tick (page 3000) 2
       (tick (page 2000) 5
          (tick (page 1000) 1 autoplay_started_twice))).

(** The same tour, shown, before any autoplay call. *)
Definition shown_tour : option Pointy :=
  call (show (page 0))
    (Some (constructor (page 0) (tour_options [step_a; step_b] (Some 3000) None None))).

(** A one-step tour, as constructed. *)
Definition one_step_tour : Pointy :=
  constructor (page 0) (tour_options [step_a] None None None).

(** The names of the events the run [after] emitted beyond those of
    [before]. *)
Definition new_events (before after : option Pointy) : option (list string) :=
  match before, after with
  | Some b, Some a => Some (map fst (drop (length (emitted (trace b))) (emitted (trace a))))
  | _, _ => None
  end.

(** A page at time [t] whose element [#a] has its top edge at [top]. *)
Definition moving_page (t top : Z) : Env :=
  mkEnv t t (fun selector => if String.eqb selector "#a" then Some 1%nat else None)
    (fun _ => mkRect top 50 (top + 20)) 0 0.

(** The one-step tour after a first position update at 900 ms with the
    target at 500 px. *)
Definition sampled_once : Pointy :=
  exec (updatePosition (moving_page 900 500)) one_step_tour.

(** Three listeners: one that always throws, two that return. *)
Definition failing_listener : Handler := mkHandler 1 (fun _ => Thrown (VStr "boom")).
Definition quiet_listener (id : nat) : Handler := mkHandler id (fun _ => Normal tt).

(** A tour with listeners on ['all'], ['*'], the [lifecycle] group and the
    [hide] event, registered in that order; the [hide] listener throws. *)
Definition listening_tour : Pointy :=
  exec (on "hide" (quiet_listener 5))
    (exec (on "hide" failing_listener)
       (exec (on "lifecycle" (quiet_listener 2))
          (exec (on "*" (quiet_listener 3))
             (exec (on "all" (quiet_listener 4)) one_step_tour)))).

(** A two-step tour, as constructed. *)
Definition two_step_tour : Pointy :=
  constructor (page 0) (tour_options [step_a; step_b] None None None).

(** ** What a call adds *)

(** What the run from [before] to [after] appended to the trace. *)
Definition added (before after : Pointy) : list Obs :=
  drop (length (trace before)) (trace after).

(** [event_names t]: the names of the events emitted in [t], in order. *)
Definition event_names (t : list Obs) : list string := map fst (emitted t).

(** The one-step tour after [pointTo('#missing', 'Look', 'down')], whose
    selector matches no element of the page. *)
Definition pointed_nowhere : Pointy :=
  exec (pointTo (page 0) (TSel "#missing") (CSingle (MStr "Look")) (Some "down"))
       one_step_tour.

(** What [setInitialPosition] accepts: an element, a selector (a string
    that starts with [#] or [.]), or one of the presets. *)
Definition accepted_position (p : Position) : bool :=
  match p with
  | PosStr name => startsWith name "#" || startsWith name "." || includes validPresets name
  | PosElem _ => true
  end.

(** ** More of the class: queries *)


(** [static getInitialPositions()] *)
Definition getInitialPositions : list string :=
  ["center"; "top-left"; "top-center"; "top-right"; "middle-left"; "middle-right";
   "bottom-left"; "bottom-center"; "bottom-right"; "first-step"].

(** [isFloatingAnimationEnabled()], [isTrackingEnabled()],
    [isMessageCycleActive()], [isMessageCyclePaused()],
    [getCurrentMessage()], [getTotalMessages()], [getPointerSvg()],
    [isAutoplayPaused()], [getCurrentStep()], [getTotalSteps()] *)
Definition isFloatingAnimationEnabled (this : Pointy) : bool := floatingAnimation this.
Definition isTrackingEnabled (this : Pointy) : bool := tracking this.
Definition isMessageCycleActive (this : Pointy) : bool := is_some (_messageIntervalId this).
Definition isMessageCyclePaused (this : Pointy) : bool := _messageCyclePaused this.
Definition getCurrentMessage (this : Pointy) : Index := currentMessageIndex this.
Definition getTotalMessages (this : Pointy) : Z := len (currentMessages this).
Definition getPointerSvg (this : Pointy) : string := pointerSvg this.
Definition isAutoplayPaused (this : Pointy) : bool := _autoplayPaused this.
Definition getCurrentStep (this : Pointy) : Index := currentStepIndex this.
Definition getTotalSteps (this : Pointy) : Z := len (steps this).

(** Assignments to what positioning, rendering and the timer functions
    write: the timer store, the samples and the outcome of the direction
    inference, the bubble's opacity and text, the pending frame request. *)
Inductive display_update : (Pointy -> Pointy) -> Prop :=
| du_timers v : display_update (set_timers v)
| du_next_timer_id v : display_update (set_next_timer_id v)
| du_isPointingUp v : display_update (set_isPointingUp v)
| du_lastTargetY v : display_update (set_lastTargetY v)
| du_targetYHistory v : display_update (set__targetYHistory v)
| du_lastDirectionChangeTime v : display_update (set__lastDirectionChangeTime v)
| du_rafId v : display_update (set__rafId v)
| du_bubble_opacity v : display_update (set_bubble_opacity v)
| du_bubbleText_innerHTML v : display_update (set_bubbleText_innerHTML v).

(** [f] reads none of those fields. *)
Definition ignores_display {B : Type} (f : Pointy -> B) : Prop :=
  forall g, display_update g -> forall s, f (g s) = f s.

Section Messages.

Variable env : Env.

(** [setMessages(content, animate)] *)
Definition setMessages (content : Content) (animate : bool) : M unit :=
  this ← get;
  let wasRunning := is_some (_messageIntervalId this) in
  (if animate then _applyMessages env content false
   else
     _stopMessageCycle ;;
     modify (set_currentMessages (to_messages content)) ;;
     modify (set_currentMessageIndex 0) ;;
     this ← get;
     modify (set_bubbleText_innerHTML (msg_at (currentMessages this) 0)) ;;
     updatePosition env ;;
     this ← get;
     when (wasRunning && (1 <? len (currentMessages this)))
       (modify (set__messageCyclePaused true))) ;;
  this ← get;
  _emit "messagesSet" [("messages", VMsgs (currentMessages this));
                       ("total", VNum (len (currentMessages this)));
                       ("animated", VBool animate);
                       ("cyclePaused", VBool (_messageCyclePaused this))].

End Messages.


(** The message state: the trace, the messages and their index, and the
    state of the message cycle. *)
Definition msgs_view (x : Pointy) :
    list Obs * list Msg * Index * option positive * bool * option Z :=
  (trace x, currentMessages x, currentMessageIndex x, _messageIntervalId x,
   _messageCyclePaused x, messageInterval x).

(** Whether [t] is the timer one of the recorded ids names. *)
Definition cancelled (ids : list (option positive)) (t : Timer) : bool :=
  existsb (fun o => match o with
                    | Some id => (tid t =? id)%positive
                    | None => false
                    end) ids.

(** The autoplay switches: the interval, whether autoplay is enabled, and
    whether it is paused. *)
Definition autoplay_switches (x : Pointy) : option Z * bool * bool :=
  (autoplay x, autoplayEnabled x, _autoplayPaused x).

(** ** Calls from outside, and histories *)

(** A call of a method of the public interface, with its arguments. *)
Inductive Request : Type :=
| RShow
| RHide
| RRestart
| RDestroy
| RReset (goToFirstStep : bool)
| RNext
| RPrev
| RGoToStep (index : Index)
| RPointTo (tgt : Target) (content : Content) (direction : option string)
| RUpdateTarget (newTarget : Target)
| RUpdateContent (newContent : Msg) (animate : bool)
| RUpdatePosition
| RNextMessage (isAuto : bool)
| RPrevMessage
| RGoToMessage (index : Index)
| RSetMessages (content : Content) (animate : bool)
| RPauseMessageCycle
| RResumeMessageCycle
| RStartMessageCycle (interval : option Z)
| RStopMessageCycle
| RStartAutoplay
| RStopAutoplay
| RPauseAutoplay
| RResumeAutoplay
| RSetResetOnComplete (reset : bool)
| RSetFloatingAnimation (enabled : bool)
| RSetTracking (enabled : bool)
| RSetTrackingFps (fps : Z)
| RSetMessageInterval (interval : option Z)
| RSetOffset (offsetX : Z) (offsetY : Z)
| RSetAnimationDuration (duration : Z)
| RSetIntroFadeDuration (duration : Z)
| RSetBubbleFadeDuration (duration : Z)
| RSetInitialPosition (position : Position)
| RSetInitialPositionOffset (offset : Z)
| RSetEasing (easing : string)
| RSetMessageTransitionDuration (duration : Z)
| RSetPointerSvg (svg : string)
| RSetAutoplayInterval (interval : option Z)
| RSetAutoplayWaitForMessages (wait : bool)
| RSetHideOnComplete (hide : bool)
| RSetHideOnCompleteDelay (delay : option Z)
| RSetAutoplay (interval : option Z)
| ROn (event : string) (callback : Handler)
| ROff (event : string) (callback : option Handler).

(** A call whose result is not used. *)
Definition discard {A : Type} (m : M A) : M unit := m ≫= fun _ => mret tt.

Definition perform (env : Env) (r : Request) : M unit :=
  match r with
  | RShow => show env
  | RHide => hide
  | RRestart => restart env
  | RDestroy => destroy
  | RReset goToFirstStep => reset env goToFirstStep
  | RNext => next env
  | RPrev => prev env
  | RGoToStep index => goToStep env index
  | RPointTo tgt content direction => pointTo env tgt content direction
  | RUpdateTarget newTarget => updateTarget env newTarget
  | RUpdateContent newContent animate => updateContent env newContent animate
  | RUpdatePosition => updatePosition env
  | RNextMessage isAuto => discard (nextMessage env isAuto)
  | RPrevMessage => discard (prevMessage env)
  | RGoToMessage index => goToMessage env index
  | RSetMessages content animate => setMessages env content animate
  | RPauseMessageCycle => pauseMessageCycle
  | RResumeMessageCycle => discard (resumeMessageCycle env)
  | RStartMessageCycle interval => discard (startMessageCycle env interval)
  | RStopMessageCycle => discard (stopMessageCycle)
  | RStartAutoplay => startAutoplay env
  | RStopAutoplay => stopAutoplay
  | RPauseAutoplay => pauseAutoplay
  | RResumeAutoplay => resumeAutoplay env
  | RSetResetOnComplete reset => setResetOnComplete reset
  | RSetFloatingAnimation enabled => setFloatingAnimation enabled
  | RSetTracking enabled => setTracking env enabled
  | RSetTrackingFps fps => setTrackingFps fps
  | RSetMessageInterval interval => setMessageInterval env interval
  | RSetOffset offsetX offsetY => setOffset env offsetX offsetY
  | RSetAnimationDuration duration => setAnimationDuration duration
  | RSetIntroFadeDuration duration => setIntroFadeDuration duration
  | RSetBubbleFadeDuration duration => setBubbleFadeDuration duration
  | RSetInitialPosition position => setInitialPosition position
  | RSetInitialPositionOffset offset => setInitialPositionOffset offset
  | RSetEasing easing => setEasing easing
  | RSetMessageTransitionDuration duration => setMessageTransitionDuration duration
  | RSetPointerSvg svg => setPointerSvg svg
  | RSetAutoplayInterval interval => setAutoplayInterval env interval
  | RSetAutoplayWaitForMessages wait => setAutoplayWaitForMessages wait
  | RSetHideOnComplete hide => setHideOnComplete hide
  | RSetHideOnCompleteDelay delay => setHideOnCompleteDelay delay
  | RSetAutoplay interval => setAutoplay env interval
  | ROn event callback => on event callback
  | ROff event callback => off event callback
  end.

(** What happens to an instance: a call from outside, or a pending timer
    that fires. *)
Inductive Happening : Type :=
| Calls (r : Request)
| Fires (id : positive).

Definition happen (env : Env) (h : Happening) (s : Pointy) : option Pointy :=
  match h with
  | Calls r => Some (exec (perform env r) s)
  | Fires id => fire env id s
  end.

(** The state after a history: each happening with the environment it
    happens in. A timer that is not pending, or not due, cannot fire. *)
Fixpoint after (history : list (Env * Happening)) (s : Pointy) : option Pointy :=
  match history with
  | [] => Some s
  | (env, h) :: rest =>
      match happen env h s with
      | Some s' => after rest s'
      | None => None
      end
  end.

(** A call whose index argument, if it takes one, is a number. *)
Definition numeric (r : Request) : Prop :=
  match r with
  | RGoToStep index | RGoToMessage index => exists z, index = Int z
  | _ => True
  end.

(** A history whose calls pass numbers for indices. *)
Definition well_typed (history : list (Env * Happening)) : Prop :=
  Forall (fun eh => match snd eh with Calls r => numeric r | Fires _ => True end) history.

(** The states an instance can be in: constructed with some options, then
    any history of calls of the embedded methods, with numbers for
    indices, and of timers that fire. *)
Definition reachable (s : Pointy) : Prop :=
  exists env options history,
    well_typed history /\ after history (constructor env options) = Some s.

(** ** Invariants of the engine *)

(** The names the [_emit] calls of the embedded methods are given. *)
Definition engine_events : list string :=
  ["beforeShow"; "introAnimationStart"; "introAnimationEnd"; "show"; "beforeHide"; "hide";
   "beforeRestart"; "restart"; "destroy"; "beforeReset"; "reset";
   "resetOnCompleteChange"; "floatingAnimationChange"; "trackingChange";
   "trackingFpsChange"; "track"; "messagesSet"; "messageCycleStart"; "messageCycleStop";
   "messageCycleComplete"; "messageCyclePause"; "messageCycleResume"; "messageChange";
   "messageIntervalChange"; "targetChange"; "offsetChange"; "animationDurationChange";
   "introFadeDurationChange"; "bubbleFadeDurationChange"; "initialPositionChange";
   "initialPositionOffsetChange"; "easingChange"; "messageTransitionDurationChange";
   "pointerSvgChange"; "beforeStepChange"; "animationStart"; "moveComplete";
   "animationEnd"; "move"; "stepChange"; "autoplayNext"; "autoplayStart"; "autoplayStop";
   "autoplayPause"; "autoplayResume"; "autoplayChange"; "autoplayWaitForMessagesChange";
   "hideOnCompleteChange"; "hideOnCompleteDelayChange"; "complete"; "autoplayComplete";
   "autoHide"; "beforePointTo"; "pointToComplete"; "pointTo"; "next"; "prev"].

(** An observation whose event, if it is an emit, is one of those. *)
Definition engine_obs (o : Obs) : Prop :=
  match o with
  | Emit event _ => includes engine_events event = true
  | _ => True
  end.

(** A property of the step cursor with the options that are never
    assigned, of the message cursor, of the trace and of the timer store,
    each part on its own. *)
Definition engine_invariant
    (R : Index -> list Step -> option UserCallback -> option UserCallback -> Prop)
    (MP : Index -> list Msg -> Prop) (TR : list Obs -> Prop)
    (TM : list Timer -> positive -> Prop) (s : Pointy) : Prop :=
  R (currentStepIndex s) (steps s) (onStepChange s) (onComplete s)
  /\ MP (currentMessageIndex s) (currentMessages s)
  /\ TR (trace s)
  /\ TM (timers s) (next_timer_id s).

(** The parts are kept by what the engine does to them: it moves the step
    index to an existing step; it replaces the messages and starts at the
    first, moves to an existing message, or to the next or the previous
    one round the messages; it logs observations of its own events; it
    registers a timer under the next id, cancels one by id, or re-arms an
    interval. *)
Record invariant_closed
    (R : Index -> list Step -> option UserCallback -> option UserCallback -> Prop)
    (MP : Index -> list Msg -> Prop) (TR : list Obs -> Prop)
    (TM : list Timer -> positive -> Prop) : Prop := {
  closed_step :
    forall i st a b (j : Z), R i st a b -> 0 <= j < len st -> R (Int j) st a b;
  closed_messages : forall i ms ms', MP i ms -> MP (Int 0) ms';
  closed_message : forall i ms (j : Z), MP i ms -> 0 <= j < len ms -> MP (Int j) ms;
  closed_next_message :
    forall i ms, MP i ms -> 1 < len ms -> MP (Index_rem (Index_add i 1) (len ms)) ms;
  closed_prev_message :
    forall i ms, MP i ms -> 1 < len ms ->
                 MP (Index_rem (Index_add (Index_add i (-1)) (len ms)) (len ms)) ms;
  closed_obs : forall t o, TR t -> engine_obs o -> TR (t ++ [o])%list;
  closed_register :
    forall l n t, TM l n -> tid t = n -> TM (l ++ [t])%list (Pos.succ n);
  closed_cancel :
    forall l n id, TM l n -> TM (List.filter (fun t => negb (tid t =? id)%positive) l) n;
  closed_rearm : forall l l' n, map tid l' = map tid l -> TM l n -> TM l' n
}.



(** A user callback that returns when it is called, or none. *)
Definition quiet (cb : option UserCallback) : Prop :=
  match cb with
  | Some c => cb_call c = Normal tt
  | None => True
  end.

(** The step cursor is on an existing step, and [onStepChange] and
    [onComplete] return. *)
Definition on_a_step_and_quiet (i : Index) (st : list Step) (a b : option UserCallback)
    : Prop :=
  (exists z, i = Int z /\ 0 <= z < len st) /\ quiet a /\ quiet b.


(** A computation that returns from every state that satisfies [J]. *)
Definition safe {A : Type} (J : Pointy -> Prop) (m : M A) : Prop :=
  forall s, J s -> exists a, outcome m s = Normal a.

(** The timer [id] was handed out and is not pending. *)
Definition not_pending (id : positive) (l : list Timer) (n : positive) : Prop :=
  (id < n)%positive /\ Forall (fun t => tid t <> id) l.

(** ** More concrete runs *)

(** An instance without steps, with autoplay every three seconds, shown. *)
Definition shown_without_steps : Pointy :=
  exec (show (page 0)) (constructor (page 0) (tour_options [] (Some 3000) None None)).

(** A tour whose only step has two messages, after
    [startMessageCycle(1000)]. *)
Definition cycling_tour : Pointy :=
  exec (startMessageCycle (page 0) (Some 1000))
       (constructor (page 0) (tour_options [step_a2] None None None)).

(** The one-step tour completed by [next()] at 5 s: its auto-hide is
    pending. *)
Definition completed_tour : Pointy := exec (next (page 5000)) one_step_tour.

(** The two-step tour on its way to the second step. *)
Definition moving_tour : Pointy := exec (goToStep (page 0) 1) two_step_tour.

(** The one-step tour after [show()], and the history that leads there. *)
Definition shown_history : list (Env * Happening) := [(page 0, Calls RShow)].

Definition shown_one_step_tour : Pointy := exec (show (page 0)) one_step_tour.

(** * Properties *)

(** ** The monad *)

Lemma bind_unfold {A B : Type} (m : M A) (k : A -> M B) (s : Pointy) :
  (m ≫= k) s = match m s with
               | (Normal a, s') => k a s'
               | (Thrown e, s') => (Thrown e, s')
               end.
Proof. reflexivity. Qed.

Lemma set_trace_same (s : Pointy) : set_trace (trace s) s = s.
Proof. destruct s; reflexivity. Qed.

Section Frames.
Context {B : Type} (f : Pointy -> B).

Lemma keeps_ret {A : Type} (a : A) : keeps f (mret a).
Proof. intros s. reflexivity. Qed.

Lemma keeps_get : keeps f get.
Proof. intros s. reflexivity. Qed.

Lemma keeps_throw {A : Type} (e : Val) : keeps f (@throw A e).
Proof. intros s. reflexivity. Qed.

Lemma keeps_modify (g : Pointy -> Pointy) :
  (forall s, f (g s) = f s) -> keeps f (modify g).
Proof. intros H s. apply H. Qed.

Lemma keeps_bind {A C : Type} (m : M A) (k : A -> M C) :
  keeps f m -> (forall a, keeps f (k a)) -> keeps f (m ≫= k).
Proof.
  intros Hm Hk s. unfold exec. rewrite bind_unfold.
  specialize (Hm s). unfold exec in Hm.
  destruct (m s) as [[a|e] s']; cbn in *.
  - rewrite <- Hm. apply Hk.
  - exact Hm.
Qed.

Lemma keeps_when (c : bool) (m : M unit) : keeps f m -> keeps f (when c m).
Proof. intros Hm. destruct c; [exact Hm | apply keeps_ret]. Qed.

Lemma keeps_try_catch (body : M unit) (handler : Val -> M unit) :
  keeps f body -> (forall e, keeps f (handler e)) -> keeps f (try_catch body handler).
Proof.
  intros Hb Hh s. unfold exec, try_catch.
  specialize (Hb s). unfold exec in Hb.
  destruct (body s) as [[a|e] s']; cbn in *.
  - exact Hb.
  - rewrite <- Hb. apply Hh.
Qed.

Lemma keeps_forEach {A : Type} (l : list A) (k : A -> M unit) :
  (forall a, keeps f (k a)) -> keeps f (forEach l k).
Proof.
  intros Hk. induction l as [|a l IH]; cbn [forEach].
  - apply keeps_ret.
  - apply keeps_bind; [apply Hk | intros _; exact IH].
Qed.
End Frames.

Lemma returns_ret {A : Type} (a : A) : returns (mret a).
Proof. intros s. exists a. reflexivity. Qed.

Lemma returns_get : returns get.
Proof. intros s. exists s. reflexivity. Qed.

Lemma returns_modify (g : Pointy -> Pointy) : returns (modify g).
Proof. intros s. exists tt. reflexivity. Qed.

Lemma returns_bind {A C : Type} (m : M A) (k : A -> M C) :
  returns m -> (forall a, returns (k a)) -> returns (m ≫= k).
Proof.
  intros Hm Hk s. unfold outcome. rewrite bind_unfold.
  destruct (Hm s) as [a Ha]. unfold outcome in Ha.
  destruct (m s) as [c s']. cbn in Ha. subst c. apply Hk.
Qed.

Lemma returns_when (c : bool) (m : M unit) : returns m -> returns (when c m).
Proof. intros Hm. destruct c; [exact Hm | apply returns_ret]. Qed.

Lemma returns_try_catch (body : M unit) (handler : Val -> M unit) :
  (forall e, returns (handler e)) -> returns (try_catch body handler).
Proof.
  intros Hh s. unfold outcome, try_catch.
  destruct (body s) as [[a|e] s']; cbn.
  - exists a. reflexivity.
  - apply Hh.
Qed.

Lemma returns_forEach {A : Type} (l : list A) (k : A -> M unit) :
  (forall a, returns (k a)) -> returns (forEach l k).
Proof.
  intros Hk. induction l as [|a l IH]; cbn [forEach].
  - apply returns_ret.
  - apply returns_bind; [apply Hk | intros _; exact IH].
Qed.

Section Invariants.
Context (I : Pointy -> Prop).

Lemma maintains_ret {A : Type} (a : A) : maintains I (mret a).
Proof. intros s H. exact H. Qed.

Lemma maintains_get : maintains I get.
Proof. intros s H. exact H. Qed.

Lemma maintains_throw {A : Type} (e : Val) : maintains I (@throw A e).
Proof. intros s H. exact H. Qed.

Lemma maintains_modify (g : Pointy -> Pointy) :
  (forall s, I s -> I (g s)) -> maintains I (modify g).
Proof. intros H s Hs. apply H. exact Hs. Qed.

Lemma maintains_bind {A C : Type} (m : M A) (k : A -> M C) :
  maintains I m -> (forall a, maintains I (k a)) -> maintains I (m ≫= k).
Proof.
  intros Hm Hk s Hs. unfold exec. rewrite bind_unfold.
  specialize (Hm s Hs). unfold exec in Hm.
  destruct (m s) as [[a|e] s']; cbn in *.
  - apply Hk. exact Hm.
  - exact Hm.
Qed.

Lemma maintains_when (c : bool) (m : M unit) : maintains I m -> maintains I (when c m).
Proof. intros Hm. destruct c; [exact Hm | apply maintains_ret]. Qed.
End Invariants.

Create HintDb frame discriminated.

(** One step of a frame or no-throw proof: follow the structure of the
    computation, and close calls of methods by the lemmas of the database. *)
Ltac frame_step :=
  lazymatch goal with
  | |- keeps _ (mbind _ _) => apply keeps_bind; [ | intros ? ]
  | |- keeps _ (mret _) => apply keeps_ret
  | |- keeps _ get => apply keeps_get
  | |- keeps _ (throw _) => apply keeps_throw
  | |- keeps _ (when _ _) => apply keeps_when
  | |- keeps _ (try_catch _ _) => apply keeps_try_catch; [ | intros ? ]
  | |- keeps _ (forEach _ _) => apply keeps_forEach; intros ?
  | |- keeps _ (modify _) =>
      apply keeps_modify; intros ?; cbn beta;
      first [ match goal with H : ignores_runtime _ |- _ => apply H; constructor end
            | solve [auto] ]
  | |- keeps _ (if ?c then _ else _) => destruct c
  | |- keeps _ (match ?x with _ => _ end) => destruct x
  | |- maintains _ (mbind _ _) => apply maintains_bind; [ | intros ? ]
  | |- maintains _ (mret _) => apply maintains_ret
  | |- maintains _ get => apply maintains_get
  | |- maintains _ (throw _) => apply maintains_throw
  | |- maintains _ (when _ _) => apply maintains_when
  | |- maintains _ (modify _) =>
      apply maintains_modify; let H := fresh in intros ? H; exact H
  | |- maintains _ (if ?c then _ else _) => destruct c
  | |- maintains _ (match ?x with _ => _ end) => destruct x
  | |- returns (mbind _ _) => apply returns_bind; [ | intros ? ]
  | |- returns (mret _) => apply returns_ret
  | |- returns get => apply returns_get
  | |- returns (when _ _) => apply returns_when
  | |- returns (try_catch _ _) => apply returns_try_catch; intros ?
  | |- returns (forEach _ _) => apply returns_forEach; intros ?
  | |- returns (modify _) => apply returns_modify
  | |- returns (if ?c then _ else _) => destruct c
  | |- returns (match ?x with _ => _ end) => destruct x
  | |- _ => solve [eauto with frame]
  end.

Ltac frame := cbv zeta; repeat frame_step.

(** ** The event bus *)

Lemma forEach_listeners (key : string) (eventData : EventData) (msg : string)
    (cbs : list Handler) (s : Pointy) :
  forEach cbs (fun callback =>
    try_catch (call_listener key eventData callback) (fun e => console_error msg e)) s
  = (Normal tt,
     set_trace (trace s ++ flat_map (listener_obs key eventData msg) cbs)%list s).
Proof.
  revert s. induction cbs as [|cb cbs IH]; intros s.
  - cbn. rewrite app_nil_r, set_trace_same. reflexivity.
  - cbn [forEach flat_map]. rewrite bind_unfold.
    unfold try_catch, call_listener, listener_obs, console_error, log, modify, throw.
    rewrite bind_unfold.
    destruct (h_call cb eventData) as [[]|e]; cbn; rewrite IH; cbn;
      rewrite <- ?app_assoc; reflexivity.
Qed.

Lemma dispatch_run (key : string) (eventData : EventData) (msg : string) (s : Pointy) :
  dispatch key eventData msg s
  = (Normal tt, set_trace (trace s ++ dispatch_obs s key eventData msg)%list s).
Proof.
  unfold dispatch, dispatch_obs, subscribers. rewrite bind_unfold. cbn [get].
  destruct (_eventListeners s !! key) as [cbs|]; cbn [default].
  - apply forEach_listeners.
  - cbn. rewrite app_nil_r, set_trace_same. reflexivity.
Qed.

Lemma dispatch_after (t : list Obs) (key : string) (eventData : EventData) (msg : string)
    (s : Pointy) :
  dispatch key eventData msg (set_trace t s)
  = (Normal tt, set_trace (t ++ dispatch_obs s key eventData msg)%list s).
Proof. rewrite dispatch_run. reflexivity. Qed.

(** [_emit] always returns, and leaves the state as it was but for the
    trace, which it extends by [emit_obs]. *)
Lemma _emit_run (event : string) (data : Obj) (s : Pointy) :
  _emit event data s = (Normal tt, set_trace (trace s ++ emit_obs s event data)%list s).
Proof.
  unfold _emit, emit_obs. cbv zeta.
  set (eventData := obj_set "type" (VStr event) data).
  rewrite bind_unfold. unfold log at 1, modify at 1.
  rewrite bind_unfold, dispatch_after, bind_unfold.
  destruct (getEventGroup event) as [group|].
  - rewrite dispatch_after. cbn [forEach].
    rewrite bind_unfold, dispatch_after, bind_unfold, dispatch_after.
    cbn [mret M_ret]. rewrite <- !app_assoc. reflexivity.
  - cbn [mret M_ret forEach].
    rewrite bind_unfold, dispatch_after, bind_unfold, dispatch_after.
    cbn [mret M_ret]. rewrite <- !app_assoc. reflexivity.
Qed.

Lemma returns_emit (event : string) (data : Obj) : returns (_emit event data).
Proof. intros s. exists tt. unfold outcome. rewrite _emit_run. reflexivity. Qed.

Lemma keeps_emit {B : Type} (f : Pointy -> B) (event : string) (data : Obj) :
  ignores_runtime f -> keeps f (_emit event data).
Proof. intros Hf s. unfold exec. rewrite _emit_run. cbn. apply Hf. constructor. Qed.

Lemma maintains_emit_fresh (event : string) (data : Obj) :
  maintains timers_fresh (_emit event data).
Proof. intros s H. unfold exec. rewrite _emit_run. exact H. Qed.

#[export] Hint Resolve returns_emit keeps_emit maintains_emit_fresh : frame.

(** ** Frames of the methods *)

Section MethodFrames.
Context {B : Type} (f : Pointy -> B) (Hf : ignores_runtime f) (env : Env).

Lemma keeps_log (o : Obs) : keeps f (log o).
Proof using Hf. unfold log. frame. Qed.

Lemma keeps_register_timer (k : TimerKind) (cb : Callback) (d : Z) :
  keeps f (register_timer env k cb d).
Proof using Hf.
  unfold register_timer.
  apply keeps_bind; [apply keeps_get | intros this].
  apply keeps_bind; [ | intros _; apply keeps_ret].
  apply keeps_modify. intros s.
  rewrite (Hf (set_next_timer_id _)) by constructor. apply Hf. constructor.
Qed.

Lemma keeps_setTimeout (cb : Callback) (d : Z) : keeps f (setTimeout env cb d).
Proof using Hf. apply keeps_register_timer. Qed.

Lemma keeps_setInterval (cb : Callback) (d : Z) : keeps f (setInterval env cb d).
Proof using Hf. apply keeps_register_timer. Qed.

Lemma keeps_requestAnimationFrame (cb : Callback) : keeps f (requestAnimationFrame env cb).
Proof using Hf. apply keeps_register_timer. Qed.

Lemma keeps_cancel_timer (id : positive) : keeps f (cancel_timer id).
Proof using Hf. unfold cancel_timer. frame. Qed.

Lemma keeps_clearTimeout (id : positive) : keeps f (clearTimeout id).
Proof using Hf. apply keeps_cancel_timer. Qed.

Lemma keeps_clearInterval (id : positive) : keeps f (clearInterval id).
Proof using Hf. apply keeps_cancel_timer. Qed.

Lemma keeps_cancelAnimationFrame (id : positive) : keeps f (cancelAnimationFrame id).
Proof using Hf. apply keeps_cancel_timer. Qed.

Hint Resolve keeps_log keeps_setTimeout keeps_setInterval keeps_requestAnimationFrame
  keeps_clearTimeout keeps_clearInterval keeps_cancelAnimationFrame : frame.

Lemma keeps_updatePosition : keeps f (updatePosition env).
Proof using Hf. unfold updatePosition. frame. Qed.
Hint Resolve keeps_updatePosition : frame.

Lemma keeps__trackPosition : keeps f (_trackPosition env).
Proof using Hf. unfold _trackPosition. frame. Qed.
Hint Resolve keeps__trackPosition : frame.

Lemma keeps__startTracking : keeps f (_startTracking env).
Proof using Hf. unfold _startTracking. frame. Qed.

Lemma keeps__stopTracking : keeps f _stopTracking.
Proof using Hf. unfold _stopTracking. frame. Qed.
Hint Resolve keeps__startTracking keeps__stopTracking : frame.

Lemma keeps_updateContent (newContent : Msg) (animate : bool) :
  keeps f (updateContent env newContent animate).
Proof using Hf. unfold updateContent. frame. Qed.
Hint Resolve keeps_updateContent : frame.

Lemma keeps__stopMessageCycle : keeps f _stopMessageCycle.
Proof using Hf. unfold _stopMessageCycle. frame. Qed.

Lemma keeps__startMessageCycle : keeps f (_startMessageCycle env).
Proof using Hf. unfold _startMessageCycle. frame. Qed.
Hint Resolve keeps__stopMessageCycle keeps__startMessageCycle : frame.

Lemma keeps__applyMessages (content : Content) (fromStepChange : bool) :
  keeps f (_applyMessages env content fromStepChange).
Proof using Hf. unfold _applyMessages. frame. Qed.
Hint Resolve keeps__applyMessages : frame.

Lemma keeps__stopAutoplay : keeps f _stopAutoplay.
Proof using Hf. unfold _stopAutoplay. frame. Qed.

Lemma keeps__scheduleAutoplay : keeps f (_scheduleAutoplay env).
Proof using Hf. unfold _scheduleAutoplay. frame. Qed.

Lemma keeps_start_cycle_if_multi : keeps f (start_cycle_if_multi env).
Proof using Hf. unfold start_cycle_if_multi. frame. Qed.
Hint Resolve keeps__stopAutoplay keeps__scheduleAutoplay keeps_start_cycle_if_multi : frame.

Lemma keeps_call_user (o : Obs) (cb : UserCallback) : keeps f (call_user o cb).
Proof using Hf. unfold call_user. frame. Qed.
Hint Resolve keeps_call_user : frame.

Lemma keeps_show : keeps f (show env).
Proof using Hf. unfold show. frame. Qed.

Lemma keeps_hide : keeps f (hide).
Proof using Hf. unfold hide. frame. Qed.
Hint Resolve keeps_show keeps_hide : frame.

Lemma keeps_pointTo (tgt : Target) (content : Content) (direction : option string) :
  keeps f (pointTo env tgt content direction).
Proof using Hf. unfold pointTo. frame. Qed.

(** [reset] also assigns the step cursor. *)
Lemma keeps_reset (goToFirstStep : bool) :
  (forall v s, f (set_currentStepIndex v s) = f s) ->
  keeps f (reset env goToFirstStep).
Proof using Hf. intros Hidx. unfold reset. frame. Qed.
End MethodFrames.

(** ** Methods that never throw *)

Section MethodReturns.
Context (env : Env).

Lemma returns_log (o : Obs) : returns (log o).
Proof. unfold log. frame. Qed.

Lemma returns_register_timer (k : TimerKind) (cb : Callback) (d : Z) :
  returns (register_timer env k cb d).
Proof. unfold register_timer. frame. Qed.

Lemma returns_setTimeout (cb : Callback) (d : Z) : returns (setTimeout env cb d).
Proof. apply returns_register_timer. Qed.

Lemma returns_setInterval (cb : Callback) (d : Z) : returns (setInterval env cb d).
Proof. apply returns_register_timer. Qed.

Lemma returns_requestAnimationFrame (cb : Callback) :
  returns (requestAnimationFrame env cb).
Proof. apply returns_register_timer. Qed.

Lemma returns_cancel_timer (id : positive) : returns (cancel_timer id).
Proof. unfold cancel_timer. frame. Qed.

Lemma returns_clearTimeout (id : positive) : returns (clearTimeout id).
Proof. apply returns_cancel_timer. Qed.

Lemma returns_clearInterval (id : positive) : returns (clearInterval id).
Proof. apply returns_cancel_timer. Qed.

Lemma returns_cancelAnimationFrame (id : positive) : returns (cancelAnimationFrame id).
Proof. apply returns_cancel_timer. Qed.

Hint Resolve returns_log returns_setTimeout returns_setInterval
  returns_requestAnimationFrame returns_clearTimeout returns_clearInterval
  returns_cancelAnimationFrame : frame.

Lemma returns_updatePosition : returns (updatePosition env).
Proof. unfold updatePosition. frame. Qed.
Hint Resolve returns_updatePosition : frame.

Lemma returns__trackPosition : returns (_trackPosition env).
Proof. unfold _trackPosition. frame. Qed.
Hint Resolve returns__trackPosition : frame.

Lemma returns__startTracking : returns (_startTracking env).
Proof. unfold _startTracking. frame. Qed.

Lemma returns__stopTracking : returns _stopTracking.
Proof. unfold _stopTracking. frame. Qed.
Hint Resolve returns__startTracking returns__stopTracking : frame.

Lemma returns_updateContent (newContent : Msg) (animate : bool) :
  returns (updateContent env newContent animate).
Proof. unfold updateContent. frame. Qed.
Hint Resolve returns_updateContent : frame.

Lemma returns__stopMessageCycle : returns _stopMessageCycle.
Proof. unfold _stopMessageCycle. frame. Qed.

Lemma returns__startMessageCycle : returns (_startMessageCycle env).
Proof. unfold _startMessageCycle. frame. Qed.
Hint Resolve returns__stopMessageCycle returns__startMessageCycle : frame.

Lemma returns__stopAutoplay : returns _stopAutoplay.
Proof. unfold _stopAutoplay. frame. Qed.
Hint Resolve returns__stopAutoplay : frame.

Lemma returns_hide : returns hide.
Proof. unfold hide. frame. Qed.

Lemma returns_reset (goToFirstStep : bool) : returns (reset env goToFirstStep).
Proof. unfold reset. frame. Qed.
End MethodReturns.

(** ** Timer ids stay fresh *)

Section MethodFresh.
Context (env : Env).

Lemma fresh_register_timer (k : TimerKind) (cb : Callback) (d : Z) :
  maintains timers_fresh (register_timer env k cb d).
Proof.
  intros s H. unfold timers_fresh in *. unfold register_timer, exec, mbind, M_bind, get, modify, mret, M_ret.
  cbn. rewrite Forall_forall in *. intros t Ht.
  apply list_elem_of_In, in_app_or in Ht.
  destruct Ht as [Ht|[<-|[]]]; [|cbn; lia].
  apply list_elem_of_In in Ht. specialize (H t Ht). lia.
Qed.

Lemma fresh_setTimeout (cb : Callback) (d : Z) :
  maintains timers_fresh (setTimeout env cb d).
Proof. apply fresh_register_timer. Qed.

Lemma fresh_cancel_timer (id : positive) : maintains timers_fresh (cancel_timer id).
Proof.
  intros s H. unfold timers_fresh in *. unfold cancel_timer, exec, modify.
  cbn. rewrite Forall_forall in *. intros t Ht.
  apply list_elem_of_In, filter_In in Ht. apply H, list_elem_of_In, Ht.
Qed.

Lemma fresh_clearTimeout (id : positive) : maintains timers_fresh (clearTimeout id).
Proof. apply fresh_cancel_timer. Qed.

Lemma fresh_clearInterval (id : positive) : maintains timers_fresh (clearInterval id).
Proof. apply fresh_cancel_timer. Qed.

Hint Resolve fresh_setTimeout fresh_clearTimeout fresh_clearInterval : frame.

Lemma fresh__stopMessageCycle : maintains timers_fresh _stopMessageCycle.
Proof. unfold _stopMessageCycle. frame. Qed.

Lemma fresh__stopAutoplay : maintains timers_fresh _stopAutoplay.
Proof. unfold _stopAutoplay. frame. Qed.
Hint Resolve fresh__stopMessageCycle fresh__stopAutoplay : frame.

Lemma fresh_reset (goToFirstStep : bool) :
  maintains timers_fresh (reset env goToFirstStep).
Proof. unfold reset. frame. Qed.

Lemma fresh_log (o : Obs) : maintains timers_fresh (log o).
Proof. unfold log. frame. Qed.

Lemma fresh_setInterval (cb : Callback) (d : Z) :
  maintains timers_fresh (setInterval env cb d).
Proof. apply fresh_register_timer. Qed.

Lemma fresh_requestAnimationFrame (cb : Callback) :
  maintains timers_fresh (requestAnimationFrame env cb).
Proof. apply fresh_register_timer. Qed.

Lemma fresh_cancelAnimationFrame (id : positive) :
  maintains timers_fresh (cancelAnimationFrame id).
Proof. apply fresh_cancel_timer. Qed.
Hint Resolve fresh_reset fresh_log fresh_setInterval fresh_requestAnimationFrame
  fresh_cancelAnimationFrame : frame.

Lemma fresh_updatePosition : maintains timers_fresh (updatePosition env).
Proof. unfold updatePosition. frame. Qed.
Hint Resolve fresh_updatePosition : frame.

Lemma fresh__trackPosition : maintains timers_fresh (_trackPosition env).
Proof. unfold _trackPosition. frame. Qed.
Hint Resolve fresh__trackPosition : frame.

Lemma fresh__startTracking : maintains timers_fresh (_startTracking env).
Proof. unfold _startTracking. frame. Qed.

Lemma fresh__stopTracking : maintains timers_fresh _stopTracking.
Proof. unfold _stopTracking. frame. Qed.
Hint Resolve fresh__startTracking fresh__stopTracking : frame.

Lemma fresh_updateContent (newContent : Msg) (animate : bool) :
  maintains timers_fresh (updateContent env newContent animate).
Proof. unfold updateContent. frame. Qed.
Hint Resolve fresh_updateContent : frame.

Lemma fresh__startMessageCycle : maintains timers_fresh (_startMessageCycle env).
Proof. unfold _startMessageCycle. frame. Qed.
Hint Resolve fresh__startMessageCycle : frame.

Lemma fresh__applyMessages (content : Content) (fromStepChange : bool) :
  maintains timers_fresh (_applyMessages env content fromStepChange).
Proof. unfold _applyMessages. frame. Qed.

Lemma fresh__scheduleAutoplay : maintains timers_fresh (_scheduleAutoplay env).
Proof. unfold _scheduleAutoplay. frame. Qed.

Lemma fresh__scheduleAutoplayAfterMessages :
  maintains timers_fresh (_scheduleAutoplayAfterMessages env).
Proof. unfold _scheduleAutoplayAfterMessages. frame. Qed.

Lemma fresh_start_cycle_if_multi : maintains timers_fresh (start_cycle_if_multi env).
Proof. unfold start_cycle_if_multi. frame. Qed.

Lemma fresh_call_user (o : Obs) (cb : UserCallback) :
  maintains timers_fresh (call_user o cb).
Proof. unfold call_user. frame. Qed.
Hint Resolve fresh__applyMessages fresh__scheduleAutoplay
  fresh__scheduleAutoplayAfterMessages fresh_start_cycle_if_multi fresh_call_user : frame.

Lemma fresh_goToStep (index : Index) : maintains timers_fresh (goToStep env index).
Proof. unfold goToStep. frame. Qed.

Lemma fresh_show : maintains timers_fresh (show env).
Proof. unfold show. frame. Qed.

Lemma fresh_hide : maintains timers_fresh hide.
Proof. unfold hide. frame. Qed.
Hint Resolve fresh_goToStep fresh_show fresh_hide : frame.

Lemma fresh_next : maintains timers_fresh (next env).
Proof. unfold next. frame. Qed.

Lemma fresh_prev : maintains timers_fresh (prev env).
Proof. unfold prev. frame. Qed.

Lemma fresh_nextMessage (isAuto : bool) : maintains timers_fresh (nextMessage env isAuto).
Proof. unfold nextMessage. frame. Qed.

Lemma fresh_pointTo (tgt : Target) (content : Content) (direction : option string) :
  maintains timers_fresh (pointTo env tgt content direction).
Proof. unfold pointTo. frame. Qed.

Lemma fresh_restart : maintains timers_fresh (restart env).
Proof. unfold restart. frame. Qed.

Lemma fresh_destroy : maintains timers_fresh destroy.
Proof. unfold destroy. frame. Qed.

Lemma fresh_startAutoplay : maintains timers_fresh (startAutoplay env).
Proof. unfold startAutoplay. frame. Qed.

Lemma fresh_stopAutoplay : maintains timers_fresh stopAutoplay.
Proof. unfold stopAutoplay. frame. Qed.
Hint Resolve fresh_next fresh_nextMessage : frame.

Lemma fresh_run_callback (cb : Callback) : maintains timers_fresh (run_callback env cb).
Proof. destruct cb; cbn [run_callback]; frame. Qed.

(** Firing a timer keeps the ids fresh too. *)
Lemma fresh_fire (id : positive) (s s' : Pointy) :
  fire env id s = Some s' -> timers_fresh s -> timers_fresh s'.
Proof.
  unfold fire. destruct (find _ (timers s)) as [t|]; [|discriminate].
  destruct (_ <=? _); [|discriminate].
  intros Hs' Hs. injection Hs' as <-. apply fresh_run_callback.
  unfold timers_fresh in *. cbn [timers next_timer_id set_timers].
  rewrite Forall_forall in *. intros u Hu. apply list_elem_of_In in Hu.
  destruct (kind t).
  - apply filter_In in Hu. apply Hs, list_elem_of_In, Hu.
  - apply in_map_iff in Hu. destruct Hu as [v [Hv Hin]].
    apply list_elem_of_In in Hin. specialize (Hs v Hin).
    destruct (tid v =? id)%positive; subst u; exact Hs.
  - apply filter_In in Hu. apply Hs, list_elem_of_In, Hu.
Qed.

Lemma fresh_constructor (options : Options) : timers_fresh (constructor env options).
Proof. unfold timers_fresh. cbn. constructor. Qed.
End MethodFresh.

#[export] Hint Resolve fresh_setTimeout fresh_clearTimeout fresh_clearInterval
  fresh__stopMessageCycle fresh__stopAutoplay fresh_reset : frame.

#[export] Hint Resolve keeps_log keeps_setTimeout keeps_setInterval
  keeps_requestAnimationFrame keeps_clearTimeout keeps_clearInterval
  keeps_cancelAnimationFrame keeps_updatePosition keeps__trackPosition
  keeps__startTracking keeps__stopTracking keeps_updateContent keeps__stopMessageCycle
  keeps__startMessageCycle keeps__applyMessages keeps__stopAutoplay
  keeps__scheduleAutoplay keeps_start_cycle_if_multi keeps_call_user keeps_show keeps_hide
  keeps_pointTo keeps_reset : frame.

#[export] Hint Resolve returns_log returns_setTimeout returns_setInterval
  returns_requestAnimationFrame returns_clearTimeout returns_clearInterval
  returns_cancelAnimationFrame returns_updatePosition returns__trackPosition
  returns__startTracking returns__stopTracking returns_updateContent
  returns__stopMessageCycle returns__startMessageCycle returns__stopAutoplay
  returns_hide returns_reset : frame.

(** ** Strings *)

Lemma append_String (c : Ascii.ascii) (a b : string) : String c a ++ b = String c (a ++ b).
Proof. reflexivity. Qed.

Lemma substring_whole (s : string) : substring 0 (String.length s) s = s.
Proof. induction s as [|c s IH]; cbn; [reflexivity | now rewrite IH]. Qed.

Lemma substring_skip (p suf : string) :
  substring (String.length p) (String.length suf) (p ++ suf) = suf.
Proof.
  induction p as [|c p IH].
  - apply substring_whole.
  - rewrite append_String. exact IH.
Qed.

Lemma substring_split (s : string) (k : nat) :
  (k <= String.length s)%nat ->
  s = substring 0 k s ++ substring k (String.length s - k) s.
Proof.
  revert k. induction s as [|c s IH]; intros [|k] Hk; cbn in *; try lia.
  - reflexivity.
  - now rewrite substring_whole.
  - rewrite append_String. f_equal. apply IH. lia.
Qed.

Lemma string_app_length (a b : string) :
  String.length (a ++ b) = (String.length a + String.length b)%nat.
Proof.
  induction a as [|c a IH]; [reflexivity|].
  rewrite append_String. cbn [String.length]. now rewrite IH.
Qed.

(** [endsWith s suffix] holds exactly when [s] is some prefix followed by
    [suffix]. *)
Lemma endsWith_spec (s suffix : string) :
  endsWith s suffix = true <-> exists p, s = p ++ suffix.
Proof.
  unfold endsWith. split.
  - destruct (Nat.leb_spec (String.length suffix) (String.length s)) as [Hle|]; [|discriminate].
    intros H. apply String.eqb_eq in H.
    exists (substring 0 (String.length s - String.length suffix) s).
    set (m := String.length suffix) in *. rewrite <- H.
    pose proof (substring_split s (String.length s - m)) as Hs.
    replace (String.length s - (String.length s - m))%nat with m in Hs by lia.
    apply Hs. lia.
  - intros [p ->]. rewrite string_app_length.
    destruct (Nat.leb_spec (String.length suffix) (String.length p + String.length suffix))
      as [_|]; [|lia].
    replace (String.length p + String.length suffix - String.length suffix)%nat
      with (String.length p) by lia.
    rewrite substring_skip. apply String.eqb_refl.
Qed.

(** ** Event groups *)

Lemma includes_In (events : list string) (event : string) :
  includes events event = true <-> In event events.
Proof.
  unfold includes. rewrite existsb_exists. split.
  - intros [x [Hin Heq]]. apply String.eqb_eq in Heq. now subst.
  - intros Hin. exists event. split; [exact Hin | apply String.eqb_refl].
Qed.

Lemma find_group_None (groups : list (string * list string)) (event : string) :
  find_group groups event = None <->
  forall group events, In (group, events) groups -> ~ In event events.
Proof.
  induction groups as [|[g evs] rest IH]; cbn.
  - split; [intros _ ? ? [] | reflexivity].
  - destruct (includes evs event) eqn:Hinc.
    + split; [discriminate|]. intros H. exfalso.
      apply (H g evs); [now left | now apply includes_In].
    + rewrite IH. split.
      * intros H group events [Heq|Hin].
        -- inversion Heq; subst. rewrite <- includes_In, Hinc. discriminate.
        -- exact (H group events Hin).
      * intros H group events Hin. apply (H group events). now right.
Qed.

(** No event name is listed in two groups, and neither a listed name nor a
    group name is ["config"]: checked on the table. *)
Lemma EVENT_GROUPS_table :
  forallb (fun ge =>
    negb (String.eqb (fst ge) "config")
    && forallb (fun event =>
         negb (String.eqb event "config")
         && bool_decide (find_group EVENT_GROUPS event = Some (fst ge)))
       (snd ge)) EVENT_GROUPS = true.
Proof. vm_compute. reflexivity. Qed.

Lemma listed_event (group event : string) (events : list string) :
  In (group, events) EVENT_GROUPS -> In event events ->
  find_group EVENT_GROUPS event = Some group /\ group <> "config" /\ event <> "config".
Proof.
  intros Hg He.
  pose proof EVENT_GROUPS_table as H.
  rewrite forallb_forall in H. specialize (H _ Hg). cbn [fst snd] in H.
  apply andb_prop in H. destruct H as [Hgc H].
  rewrite forallb_forall in H. specialize (H _ He).
  apply andb_prop in H. destruct H as [Hec H].
  apply bool_decide_eq_true in H.
  apply negb_true_iff, String.eqb_neq in Hgc, Hec. auto.
Qed.

(** ** Deliveries of one emit *)

Lemma deliveries_app (a b : list Obs) : deliveries (a ++ b) = (deliveries a ++ deliveries b)%list.
Proof. unfold deliveries. apply flat_map_app. Qed.

Lemma logged_errors_app (a b : list Obs) :
  logged_errors (a ++ b) = (logged_errors a ++ logged_errors b)%list.
Proof. unfold logged_errors. apply flat_map_app. Qed.

Lemma deliveries_dispatch_obs (s : Pointy) (key : string) (eventData : EventData)
    (msg : string) :
  deliveries (dispatch_obs s key eventData msg)
  = map (fun kh => (fst kh, h_id (snd kh))) (map (pair key) (subscribers s key)).
Proof.
  unfold dispatch_obs. induction (subscribers s key) as [|h hs IH]; [reflexivity|].
  cbn [flat_map map]. rewrite deliveries_app, IH.
  unfold listener_obs. destruct (h_call h eventData); reflexivity.
Qed.

Lemma logged_errors_dispatch_obs (s : Pointy) (key : string) (eventData : EventData)
    (msg : string) :
  logged_errors (dispatch_obs s key eventData msg)
  = flat_map (fun kh => match h_call (snd kh) eventData with
                        | Thrown e => [e]
                        | Normal _ => []
                        end) (map (pair key) (subscribers s key)).
Proof.
  unfold dispatch_obs. induction (subscribers s key) as [|h hs IH]; [reflexivity|].
  cbn [flat_map map]. rewrite logged_errors_app, IH.
  unfold listener_obs. cbn [snd]. destruct (h_call h eventData); reflexivity.
Qed.

(** The listener calls and the logged errors of one emit. *)
Lemma emit_obs_deliveries (s : Pointy) (event : string) (data : Obj) :
  let eventData := obj_set "type" (VStr event) data in
  exists t,
    emit_obs s event data = Emit event eventData :: t
    /\ deliveries t = map (fun kh => (fst kh, h_id (snd kh))) (delivery_plan s event)
    /\ logged_errors t
       = flat_map (fun kh => match h_call (snd kh) eventData with
                             | Thrown e => [e]
                             | Normal _ => []
                             end) (delivery_plan s event).
Proof.
  intros eventData. unfold emit_obs. cbv zeta. fold eventData.
  eexists. split; [reflexivity|]. unfold delivery_plan.
  rewrite !deliveries_app, !logged_errors_app, !map_app, !flat_map_app.
  rewrite !deliveries_dispatch_obs, !logged_errors_dispatch_obs.
  destruct (getEventGroup event) as [group|].
  - rewrite deliveries_dispatch_obs, logged_errors_dispatch_obs. split; reflexivity.
  - split; reflexivity.
Qed.

(** Claim C7. Every [_emit(event, data)] returns normally whatever its listeners
    do, changes nothing but the trace, and calls, in this order, every
    listener registered under the event's own name, then every listener of
    the event's group, then every ['*'] listener, then every ['all']
    listener; a listener that throws stops none of the later calls, and
    each thrown value is logged with [console.error] instead. *)
Theorem emit_delivers_in_order_despite_throws (s : Pointy) (event : string) (data : Obj) :
  let eventData := obj_set "type" (VStr event) data in
  exists t,
    _emit event data s = (Normal tt, set_trace (trace s ++ Emit event eventData :: t)%list s)
    /\ deliveries t = map (fun kh => (fst kh, h_id (snd kh))) (delivery_plan s event)
    /\ logged_errors t
       = flat_map (fun kh => match h_call (snd kh) eventData with
                             | Thrown e => [e]
                             | Normal _ => []
                             end) (delivery_plan s event).
Proof.
  intros eventData. rewrite _emit_run.
  destruct (emit_obs_deliveries s event data) as [t [Hobs [Hdel Herr]]].
  exists t. rewrite Hobs. auto.
Qed.

(** Claim C10. An event name listed in an explicit group gets that group from
    [getEventGroup], also when the name ends in [Change]; its group is
    never ["config"], and emitting it calls no listener registered under
    ["config"]. [getEventGroup] answers ["config"] exactly for the names
    that end in [Change] and are listed in no explicit group. *)
Theorem explicit_group_precedes_config (event : string) :
  (forall group events,
      In (group, events) EVENT_GROUPS -> In event events ->
      getEventGroup event = Some group
      /\ group <> "config"
      /\ forall s data, exists t,
           trace (exec (_emit event data) s) = (trace s ++ t)%list
           /\ forall h, ~ In ("config", h) (deliveries t))
  /\ (getEventGroup event = Some "config" <->
      endsWith event "Change" = true
      /\ forall group events, In (group, events) EVENT_GROUPS -> ~ In event events).
Proof.
  split.
  - intros group events Hg He.
    destruct (listed_event group event events Hg He) as [Hfind [Hgc Hec]].
    assert (Hgrp : getEventGroup event = Some group).
    { unfold getEventGroup. rewrite Hfind. reflexivity. }
    split; [exact Hgrp|]. split; [exact Hgc|].
    intros s data.
    destruct (emit_obs_deliveries s event data) as [t [Hobs [Hdel _]]].
    exists (emit_obs s event data). split.
    + unfold exec. rewrite _emit_run. reflexivity.
    + intros h Hin. rewrite Hobs in Hin.
      change (In ("config", h) (deliveries t)) in Hin.
      rewrite Hdel in Hin. unfold delivery_plan in Hin. rewrite Hgrp in Hin.
      rewrite !map_app, !map_map in Hin. cbn [fst snd] in Hin.
      rewrite !in_app_iff, !in_map_iff in Hin.
      destruct Hin as [[x [Heq _]]|[[x [Heq _]]|[[x [Heq _]]|[x [Heq _]]]]];
        inversion Heq; subst; congruence.
  - unfold getEventGroup. split.
    + destruct (find_group EVENT_GROUPS event) as [g|] eqn:Hfind.
      * intros Heq. inversion Heq; subst. exfalso.
        revert Hfind. clear. unfold EVENT_GROUPS. cbn [find_group].
        repeat match goal with
               | |- context [if ?c then _ else _] => destruct c; [discriminate|]
               end.
        discriminate.
      * destruct (endsWith event "Change"); [|discriminate].
        intros _. split; [reflexivity|]. now apply find_group_None.
    + intros [Hends Hnone]. apply find_group_None in Hnone.
      rewrite Hnone, Hends. reflexivity.
Qed.

(** ** Guards *)

Lemma optZ_eqb_refl (a : option Z) : optZ_eqb a a = true.
Proof. destruct a; cbn; [apply Z.eqb_refl | reflexivity]. Qed.

Lemma Position_eqb_refl (p : Position) : Position_eqb p p = true.
Proof. destruct p; cbn; [apply String.eqb_refl | apply Nat.eqb_refl]. Qed.

Lemma Bool_eqb_refl (b : bool) : Bool.eqb b b = true.
Proof. destruct b; reflexivity. Qed.


(** ** Direction inference *)

(** Running the monad's own combinators. *)
Ltac run :=
  unfold exec, outcome, mbind, M_bind, mret, M_ret, modify, get, throw, when;
  cbn [fst snd].

(** The state [updatePosition] leaves when there is a target and no manual
    direction: the sample is appended, the window trimmed, and the
    direction flipped when the displacement and the debounce allow. *)
Lemma updatePosition_auto (env : Env) (s : Pointy) (el : Elem) :
  targetElement s = Some el -> manualDirection s = None ->
  let now := date_now env in
  let currentTargetY := rect_top (getBoundingClientRect env el) + scrollY env in
  let window := List.filter (fun h => now - time h <? 200)
                  (_targetYHistory s ++ [mkSample currentTargetY now]) in
  let flip :=
    match head window, last window with
    | Some oldest, Some newest =>
        (2 <=? len window)
        && (30 <? Z.abs (y newest - y oldest))
        && (300 <? now - _lastDirectionChangeTime s)
        && negb (Bool.eqb (y newest - y oldest <? 0) (isPointingUp s))
    | _, _ => false
    end in
  _targetYHistory (exec (updatePosition env) s) = window
  /\ isPointingUp (exec (updatePosition env) s)
     = (if flip then negb (isPointingUp s) else isPointingUp s)
  /\ _lastDirectionChangeTime (exec (updatePosition env) s)
     = (if flip then now else _lastDirectionChangeTime s).
Proof.
  intros Ht Hm now currentTargetY window flip.
  unfold updatePosition. run. rewrite Ht, Hm. cbv zeta.
  cbn [_targetYHistory set__targetYHistory _lastDirectionChangeTime isPointingUp].
  fold now. fold currentTargetY. fold window.
  unfold flip. clear flip.
  destruct (2 <=? len window), (head window) as [oldest|], (last window) as [newest|];
    cbn [andb]; try (cbn; auto; fail).
  destruct (30 <? Z.abs (y newest - y oldest)); cbn [andb]; [|cbn; auto].
  destruct (300 <? now - _lastDirectionChangeTime s); cbn [andb]; [|cbn; auto].
  destruct (y newest - y oldest <? 0), (isPointingUp s) eqn:Hup; cbn; rewrite ?Hup; auto.
Qed.

Lemma updatePosition_no_target (env : Env) (s : Pointy) :
  targetElement s = None -> updatePosition env s = (Normal tt, s).
Proof. intros Ht. unfold updatePosition. run. rewrite Ht. reflexivity. Qed.

Lemma updatePosition_manual (env : Env) (s : Pointy) (el : Elem) (d : string) :
  targetElement s = Some el -> manualDirection s = Some d ->
  updatePosition env s = (Normal tt, set_isPointingUp (String.eqb d "up") s).
Proof. intros Ht Hm. unfold updatePosition. run. rewrite Ht, Hm. reflexivity. Qed.

(** Claim C5, as amended. One [updatePosition()] with a target element:
    - with a manual direction, [isPointingUp] becomes
      [manualDirection === 'up'], and neither the samples nor the time of
      the last direction change are touched;
    - with none, the retained window is the history with the new sample
      appended, filtered to the samples younger than 200 ms, and the
      direction changes only if the window holds at least two samples, the
      displacement [newest.y - oldest.y] over it exceeds 30 in absolute
      value and more than 300 ms have passed since
      [_lastDirectionChangeTime]; the new direction is then up exactly
      when the displacement is negative, and [_lastDirectionChangeTime]
      becomes the current time. A call that keeps the direction keeps
      [_lastDirectionChangeTime]; with fewer than two retained samples the
      direction is kept; and whenever the three conditions hold the
      direction after the call is the one of the displacement.
    Without a target element [updatePosition()] returns at once and
    changes nothing, whether a manual direction is set or not. *)
Theorem direction_inference (env : Env) (s : Pointy) :
  let s' := exec (updatePosition env) s in
  let window := _targetYHistory s' in
  let now := date_now env in
  (targetElement s = None -> updatePosition env s = (Normal tt, s))
  /\ (forall el d,
        targetElement s = Some el -> manualDirection s = Some d ->
        isPointingUp s' = String.eqb d "up"
        /\ _targetYHistory s' = _targetYHistory s
        /\ _lastDirectionChangeTime s' = _lastDirectionChangeTime s)
  /\ (forall el,
        targetElement s = Some el -> manualDirection s = None ->
        window = List.filter (fun h => now - time h <? 200)
                   (_targetYHistory s
                    ++ [mkSample (rect_top (getBoundingClientRect env el) + scrollY env) now])
        /\ (isPointingUp s' <> isPointingUp s ->
            exists oldest newest,
              head window = Some oldest /\ last window = Some newest
              /\ (2 <= length window)%nat
              /\ 30 < Z.abs (y newest - y oldest)
              /\ 300 < now - _lastDirectionChangeTime s
              /\ isPointingUp s' = (y newest - y oldest <? 0)
              /\ _lastDirectionChangeTime s' = now)
        /\ (isPointingUp s' = isPointingUp s ->
            _lastDirectionChangeTime s' = _lastDirectionChangeTime s)
        /\ ((length window < 2)%nat -> isPointingUp s' = isPointingUp s)
        /\ (forall oldest newest,
              head window = Some oldest -> last window = Some newest ->
              (2 <= length window)%nat ->
              30 < Z.abs (y newest - y oldest) ->
              300 < now - _lastDirectionChangeTime s ->
              isPointingUp s' = (y newest - y oldest <? 0))).
Proof.
  cbv zeta. split; [apply updatePosition_no_target|]. split.
  - intros el d Ht Hm. unfold exec. rewrite (updatePosition_manual env s el d Ht Hm).
    auto.
  - intros el Ht Hm.
    destruct (updatePosition_auto env s el Ht Hm) as [Hw [Hup Htime]].
    cbv zeta in Hw, Hup, Htime. rewrite Hw, Hup, Htime.
    set (window := List.filter _ _) in *.
    split; [reflexivity|].
    destruct (head window) as [oldest|] eqn:Hhead.
    2: { assert (Hnil : window = []) by (destruct window; [reflexivity | discriminate]).
         rewrite Hnil. cbn.
         repeat split; try congruence; intros; discriminate. }
    destruct (last window) as [newest|] eqn:Hlast.
    2: { repeat split; try congruence; intros; discriminate. }
    destruct (2 <=? len window) eqn:Hlen; cbn [andb].
    2: { apply Z.leb_gt in Hlen. unfold len in Hlen.
         repeat split; try congruence; intros; lia. }
    apply Z.leb_le in Hlen. unfold len in Hlen.
    destruct (30 <? Z.abs (y newest - y oldest)) eqn:Hd; cbn [andb].
    2: { apply Z.ltb_ge in Hd.
         repeat split; try congruence.
         intros o n Ho Hn _ Hd' _. injection Ho as <-. injection Hn as <-. lia. }
    apply Z.ltb_lt in Hd.
    destruct (300 <? date_now env - _lastDirectionChangeTime s) eqn:Hdeb; cbn [andb].
    2: { apply Z.ltb_ge in Hdeb.
         repeat split; try congruence.
         intros o n Ho Hn _ _ Hdeb'. lia. }
    apply Z.ltb_lt in Hdeb.
    destruct (y newest - y oldest <? 0) eqn:Hneg, (isPointingUp s) eqn:Hup0;
      cbn [Bool.eqb negb];
      (split;
       [ intros Hne; try congruence;
         exists oldest, newest; repeat split; try assumption; try reflexivity; lia
       | split; [intros Heq; try reflexivity; discriminate|];
         split; [intros Hshort; lia|];
         intros o n Ho Hn _ _ _; injection Ho as <-; injection Hn as <-;
         rewrite Hneg; reflexivity ]).
Qed.

(** ** The step cursor *)

Lemma exec_bind {A C : Type} (m : M A) (k : A -> M C) (s : Pointy) :
  exec (m ≫= k) s = match outcome m s with
                    | Normal a => exec (k a) (exec m s)
                    | Thrown _ => exec m s
                    end.
Proof. unfold exec, outcome. rewrite bind_unfold. destruct (m s) as [[a|e] s']; reflexivity. Qed.

Lemma exec_get {C : Type} (k : Pointy -> M C) (s : Pointy) :
  exec (get ≫= k) s = exec (k s) s.
Proof. reflexivity. Qed.

Lemma exec_modify {C : Type} (g : Pointy -> Pointy) (k : unit -> M C) (s : Pointy) :
  exec (modify g ≫= k) s = exec (k tt) (g s).
Proof. reflexivity. Qed.

Lemma exec_emit {C : Type} (event : string) (data : Obj) (k : unit -> M C) (s : Pointy) :
  exec (_emit event data ≫= k) s
  = exec (k tt) (set_trace (trace s ++ emit_obs s event data)%list s).
Proof. unfold exec. rewrite bind_unfold, _emit_run. reflexivity. Qed.

(** A tail that keeps [f] does not show in [f]. *)
Lemma keeps_tail {A B C : Type} (f : Pointy -> B) (m : M A) (k : A -> M C) (s : Pointy) :
  (forall a, keeps f (k a)) -> f (exec (m ≫= k) s) = f (exec m s).
Proof.
  intros Hk. rewrite exec_bind. destruct (outcome m s); [apply Hk | reflexivity].
Qed.

(** A prefix that returns and keeps [f] does not show in [f] either, when
    the rest depends on the state through [f] only. *)
Lemma keeps_head {A B C : Type} (f : Pointy -> B) (m : M A) (k : A -> M C) (s : Pointy) :
  returns m -> keeps f m ->
  exists a, f (exec m s) = f s /\ exec (m ≫= k) s = exec (k a) (exec m s).
Proof.
  intros Hr Hk. rewrite exec_bind. destruct (Hr s) as [a Ha]. rewrite Ha.
  exists a. split; [apply Hk | reflexivity].
Qed.

Lemma cursor_ignores_runtime : ignores_runtime cursor.
Proof. intros g Hg s. destruct Hg; reflexivity. Qed.

#[export] Hint Resolve cursor_ignores_runtime : frame.

(** What [goToStep(index)] does to the cursor. *)
Lemma goToStep_cursor (env : Env) (index : Index) (s : Pointy) :
  cursor (exec (goToStep env index) s)
  = (if (len (steps s) =? 0) || Index_ltb index 0 || Index_geb index (len (steps s))
     then currentStepIndex s else index,
     steps s, resetOnComplete s).
Proof.
  unfold goToStep. rewrite exec_get.
  destruct ((len (steps s) =? 0) || Index_ltb index 0 || Index_geb index (len (steps s)));
    [reflexivity|].
  pose proof cursor_ignores_runtime as Hf.
  match goal with
  | |- cursor (exec (?m ≫= ?k) s) = _ =>
      destruct (keeps_head cursor m k s) as [a [Hc ->]]; [frame | frame |]
  end.
  rewrite exec_modify, exec_get, exec_modify.
  match goal with
  | |- cursor (exec ?rest ?s1) = _ =>
      assert (Hk : keeps cursor rest) by frame;
      rewrite (Hk s1)
  end.
  unfold cursor in *. cbn. inversion Hc. reflexivity.
Qed.

(** Peel the head of a sequence off a goal about [exec]: a read of
    [this], an assignment, or a call that returns and keeps [f]. *)
Ltac peel f :=
  lazymatch goal with
  | |- context [exec (get ≫= ?k) ?s] => rewrite (exec_get k s); cbn beta
  | |- context [exec (modify ?g ≫= ?k) ?s] => rewrite (exec_modify g k s); cbn beta
  | |- context [exec (?m ≫= ?k) ?s] =>
      let a := fresh "a" in
      let Hc := fresh "Hc" in
      let He := fresh "He" in
      let s' := fresh "s" in
      destruct (keeps_head f m k s) as [a [Hc He]];
      [ frame | frame | rewrite He; clear He; revert Hc; generalize (exec m s); intros s' Hc ]
  end.

(** What [reset(true)] does to the cursor. *)
Lemma reset_cursor (env : Env) (s : Pointy) :
  cursor (exec (reset env true) s)
  = (match steps s with [] => currentStepIndex s | _ :: _ => Int 0 end,
     steps s, resetOnComplete s).
Proof.
  pose proof cursor_ignores_runtime as Hf.
  unfold reset. do 9 peel cursor.
  rewrite keeps_tail by (intros; frame).
  assert (Hs : cursor s3 = cursor s) by congruence.
  clear - Hs. unfold cursor in *. cbn [steps set_bubble_opacity].
  injection Hs as Hi Hst Hr. rewrite <- Hi, <- Hst, <- Hr.
  destruct (steps s3) as [|firstStep rest] eqn:Hsteps; run; cbn; rewrite ?Hsteps; reflexivity.
Qed.

(** What [next()] does to the cursor: a function of the cursor alone. *)
Lemma next_cursor (env : Env) (s : Pointy) :
  cursor (exec (next env) s)
  = (if len (steps s) =? 0 then currentStepIndex s
     else if Index_ltb (currentStepIndex s) (len (steps s) - 1)
          then (if Index_ltb (Index_add (currentStepIndex s) 1) 0 then currentStepIndex s
                else Index_add (currentStepIndex s) 1)
          else if resetOnComplete s then Int 0 else currentStepIndex s,
     steps s, resetOnComplete s).
Proof.
  pose proof cursor_ignores_runtime as Hf.
  unfold next. rewrite exec_get.
  destruct (len (steps s) =? 0) eqn:Hlen; [reflexivity|].
  destruct (Index_ltb (currentStepIndex s) (len (steps s) - 1)) eqn:Hlast.
  - rewrite exec_emit, exec_get, goToStep_cursor.
    cbn [steps currentStepIndex resetOnComplete set_trace].
    rewrite Hlen. cbn [orb].
    destruct (Index_ltb (Index_add (currentStepIndex s) 1) 0) eqn:Hneg; cbn [orb];
      [reflexivity|].
    replace (Index_geb (Index_add (currentStepIndex s) 1) (len (steps s))) with false;
      [reflexivity|].
    symmetry. destruct (currentStepIndex s) as [z| |]; try discriminate.
    cbn in *. apply Z.leb_gt. apply Z.ltb_lt in Hlast. lia.
  - cbv zeta. rewrite exec_emit. peel cursor.
    rewrite exec_get. rewrite keeps_tail by (intros; frame).
    assert (Hs : cursor s0 = cursor s) by (rewrite Hc; reflexivity).
    pose proof Hs as Hs'. unfold cursor in Hs'. injection Hs' as Hi Hst Hr. rewrite Hr.
    destruct (resetOnComplete s).
    + rewrite keeps_tail by (intros; frame).
      rewrite reset_cursor. rewrite Hst, Hi, Hr.
      destruct (steps s); [discriminate | reflexivity].
    + match goal with
      | |- cursor (exec ?m s0) = _ => assert (Hk : keeps cursor m) by frame; rewrite (Hk s0)
      end.
      unfold cursor. rewrite Hi, Hst, Hr. reflexivity.
Qed.

(** What [prev()] does to the cursor. *)
Lemma prev_cursor (env : Env) (s : Pointy) :
  cursor (exec (prev env) s)
  = (if len (steps s) =? 0 then currentStepIndex s
     else if Index_gtb (currentStepIndex s) 0
          then (if Index_geb (Index_add (currentStepIndex s) (-1)) (len (steps s))
                then currentStepIndex s
                else Index_add (currentStepIndex s) (-1))
          else currentStepIndex s,
     steps s, resetOnComplete s).
Proof.
  unfold prev. rewrite exec_get.
  destruct (len (steps s) =? 0) eqn:Hlen; [reflexivity|].
  destruct (Index_gtb (currentStepIndex s) 0) eqn:Hpos; [|reflexivity].
  cbn [when]. rewrite exec_emit, exec_get, goToStep_cursor.
  cbn [steps currentStepIndex resetOnComplete set_trace].
  rewrite Hlen. cbn [orb].
  replace (Index_ltb (Index_add (currentStepIndex s) (-1)) 0) with false; [reflexivity|].
  symmetry. destruct (currentStepIndex s) as [z| |]; try discriminate.
  cbn in *. apply Z.ltb_ge. apply Z.ltb_lt in Hpos. lia.
Qed.

(** Claim C9. [pointTo(target, content, direction)], with any arguments and in
    any state, leaves [currentStepIndex] (and the steps) as they were, so
    that a [next()] or a [prev()] called afterwards moves the step cursor
    to where it would have moved it without the [pointTo]. *)
Theorem pointTo_keeps_step_cursor (env env' : Env) (s : Pointy)
    (tgt : Target) (content : Content) (direction : option string) :
  let s' := exec (pointTo env tgt content direction) s in
  currentStepIndex s' = currentStepIndex s
  /\ steps s' = steps s
  /\ currentStepIndex (exec (next env') s') = currentStepIndex (exec (next env') s)
  /\ currentStepIndex (exec (prev env') s') = currentStepIndex (exec (prev env') s).
Proof.
  intros s'.
  assert (Hc : cursor s' = cursor s).
  { apply keeps_pointTo. apply cursor_ignores_runtime. }
  pose proof (next_cursor env' s') as Hn'. pose proof (next_cursor env' s) as Hn.
  pose proof (prev_cursor env' s') as Hp'. pose proof (prev_cursor env' s) as Hp.
  unfold cursor in *. injection Hc as Hi Hst Hr.
  rewrite Hi, Hst, Hr in Hn', Hp'.
  rewrite <- Hn in Hn'. rewrite <- Hp in Hp'.
  injection Hn' as Hn' _ _. injection Hp' as Hp' _ _. auto.
Qed.

(** ** Completion *)

Lemma completion_policy_ignores_runtime : ignores_runtime completion_policy.
Proof. intros g Hg s. destruct Hg; reflexivity. Qed.

#[export] Hint Resolve completion_policy_ignores_runtime : frame.

Lemma emitted_app (a b : list Obs) : emitted (a ++ b) = (emitted a ++ emitted b)%list.
Proof. unfold emitted. apply flat_map_app. Qed.

Lemma emitted_dispatch_obs (s : Pointy) (key : string) (eventData : EventData) (msg : string) :
  emitted (dispatch_obs s key eventData msg) = [].
Proof.
  unfold dispatch_obs. induction (subscribers s key) as [|h hs IH]; [reflexivity|].
  cbn [flat_map]. rewrite emitted_app, IH.
  unfold listener_obs. destruct (h_call h eventData); reflexivity.
Qed.

(** One emit adds one event to the events of the trace. *)
Lemma emitted_emit_obs (s : Pointy) (event : string) (data : Obj) :
  emitted (emit_obs s event data) = [(event, obj_set "type" (VStr event) data)].
Proof.
  unfold emit_obs. cbv zeta. change (emitted (?o :: ?t)) with (emitted [o] ++ emitted t)%list.
  rewrite !emitted_app, !emitted_dispatch_obs.
  destruct (getEventGroup event); rewrite ?emitted_dispatch_obs; reflexivity.
Qed.

(** The auto-hide callback hides, then emits [autoHide] with the delay and
    the source it captured. *)
Lemma autoHide_callback (env : Env) (d : Z) (src : string) (s : Pointy) :
  emitted (trace (exec (run_callback env (CbAutoHide d src)) s))
  = (emitted (trace (exec hide s))
     ++ [("autoHide", [("delay", VNum d); ("source", VStr src); ("type", VStr "autoHide")])])%list.
Proof.
  cbn [run_callback]. rewrite exec_bind.
  destruct (returns_hide s) as [[] Ha]. rewrite Ha.
  unfold exec at 1. rewrite _emit_run. cbn [snd trace set_trace].
  rewrite emitted_app, emitted_emit_obs. reflexivity.
Qed.

(** A prefix that returns, keeps [f] and maintains [I]. *)
Lemma keeps_head_inv {A B C : Type} (f : Pointy -> B) (I : Pointy -> Prop)
    (m : M A) (k : A -> M C) (s : Pointy) :
  returns m -> keeps f m -> maintains I m -> I s ->
  exists a, f (exec m s) = f s /\ I (exec m s) /\ exec (m ≫= k) s = exec (k a) (exec m s).
Proof.
  intros Hr Hk Hi Hs. destruct (keeps_head f m k s Hr Hk) as [a [Hf He]].
  exists a. split; [exact Hf|]. split; [apply Hi; exact Hs | exact He].
Qed.

(** Among timers with fresh ids, the one just registered is the one its id
    finds. *)
Lemma find_registered (old : list Timer) (t : Timer) (id : positive) :
  tid t = id ->
  Forall (fun u => (tid u < id)%positive) old ->
  find (fun u => (tid u =? id)%positive) (old ++ [t]) = Some t.
Proof.
  intros <-. induction old as [|u old IH]; intros H; cbn.
  - rewrite Pos.eqb_refl. reflexivity.
  - inversion H as [|? ? Hu Hold]; subst.
    replace (tid u =? tid t)%positive with false by (symmetry; apply Pos.eqb_neq; lia).
    apply IH. exact Hold.
Qed.

(** Claim C4. [next()] on the last step (whenever
    [currentStepIndex < steps.length - 1] is false) with [hideOnComplete]
    set leaves one more pending timeout, whose id is recorded in
    [_hideOnCompleteTimeoutId], registered with the delay
    [animationDuration + hideDelay] when [resetOnComplete] is set and
    [hideDelay] otherwise, where [hideDelay] is [hideOnCompleteDelay]
    unless that is [null], and then [animationDuration]. Once that delay
    has passed the timer can fire, and what it emits last is [autoHide]
    with that [hideDelay] and with the source ['autoplay'] when autoplay
    was active (an interval set, enabled, not paused) on entry to
    [next()], and ['manual'] otherwise. *)
Theorem next_on_last_step_schedules_autoHide (env : Env) (s : Pointy) :
  steps s <> [] ->
  Index_ltb (currentStepIndex s) (len (steps s) - 1) = false ->
  hideOnComplete s = true ->
  timers_fresh s ->
  let hideDelay := match hideOnCompleteDelay s with
                   | Some d => d
                   | None => animationDuration s
                   end in
  let source := if isAutoplayActive s then "autoplay" else "manual" in
  let after := if resetOnComplete s then animationDuration s + hideDelay else hideDelay in
  let s' := exec (next env) s in
  exists id,
    _hideOnCompleteTimeoutId s' = Some id
    /\ In (mkTimer id KTimeout (date_now env) after (CbAutoHide hideDelay source)) (timers s')
    /\ forall env2,
         date_now env + Z.max 0 after <= date_now env2 ->
         exists s'',
           fire env2 id s' = Some s''
           /\ last (emitted (trace s''))
              = Some ("autoHide", [("delay", VNum hideDelay); ("source", VStr source);
                                   ("type", VStr "autoHide")]).
Proof.
  intros Hsteps Hlast Hhide Hfresh hideDelay source after s'.
  pose proof completion_policy_ignores_runtime as Hf.
  set (timer := fun id => mkTimer id KTimeout (date_now env) after (CbAutoHide hideDelay source)).
  set (scheduled := fun st : option positive * list Timer =>
         exists id old, fst st = Some id /\ snd st = (old ++ [timer id])%list
           /\ Forall (fun u => (tid u < id)%positive) old).
  assert (Hgoal : scheduled (autoHide_state s')).
  2: { destruct Hgoal as [id [old [Hid [Htimers Hold]]]]. cbn [fst snd autoHide_state] in *.
       exists id. split; [exact Hid|]. split.
       - rewrite Htimers. apply in_or_app. right. left. reflexivity.
       - intros env2 Hdue. unfold fire. rewrite Htimers.
         rewrite (find_registered old (timer id) id eq_refl Hold).
         cbn [registered delay kind callback timer].
         replace (date_now env + Z.max 0 after <=? date_now env2) with true
           by (symmetry; apply Z.leb_le; exact Hdue).
         eexists. split; [reflexivity|].
         rewrite autoHide_callback. apply last_snoc. }
  unfold s', next. rewrite exec_get.
  replace (len (steps s) =? 0) with false
    by (symmetry; apply Z.eqb_neq; unfold len; destruct (steps s); [congruence | cbn; lia]).
  rewrite Hlast.
  cbv zeta. rewrite exec_emit.
  match goal with
  | |- context [exec (?m ≫= ?k) ?s1] =>
      destruct (keeps_head_inv completion_policy timers_fresh m k s1)
        as [a [Hc [Hfresh0 ->]]]; [frame | frame | frame | exact Hfresh |];
      revert Hc Hfresh0; generalize (exec m s1); intros s0 Hc Hfresh0
  end.
  rewrite exec_get.
  assert (Hs : completion_policy s0 = completion_policy s) by (rewrite Hc; reflexivity).
  unfold completion_policy in Hs. injection Hs as Hanim Hdelay Hh Hreset.
  rewrite keeps_tail.
  2: { intros ?. apply keeps_bind; [apply keeps_get | intros this].
       destruct (onComplete this) as [cb|]; [|apply keeps_ret].
       unfold call_user, log. apply keeps_bind; [apply keeps_modify; reflexivity | intros _].
       destruct (cb_call cb); [apply keeps_ret | apply keeps_throw]. }
  unfold scheduled, timer, after, source, hideDelay, isAutoplayActive.
  rewrite Hreset. destruct (resetOnComplete s).
  - match goal with
    | |- context [exec (?m ≫= ?k) s0] =>
        destruct (keeps_head_inv completion_policy timers_fresh m k s0)
          as [a0 [Hc0 [Hfresh1 ->]]]; [frame | frame | frame | exact Hfresh0 |];
        revert Hc0 Hfresh1; generalize (exec m s0); intros s1 Hc0 Hfresh1
    end.
    rewrite exec_get.
    unfold completion_policy in Hc0. injection Hc0 as Hanim1 Hdelay1 Hh1 _.
    rewrite Hh1, Hh, Hhide, Hdelay1, Hdelay, Hanim1, Hanim.
    cbn [when]. unfold setTimeout, register_timer. run.
    exists (next_timer_id s1), (timers s1). unfold autoHide_state. cbn.
    split; [reflexivity|]. split; [reflexivity | exact Hfresh1].
  - rewrite Hh, Hhide, Hdelay, Hanim.
    cbn [when]. unfold setTimeout, register_timer. run.
    exists (next_timer_id s0), (timers s0). unfold autoHide_state. cbn.
    split; [reflexivity|]. split; [reflexivity | exact Hfresh0].
Qed.

(** ** Evaluations *)

(** Claim C7, at one [hide] event on a tour with listeners under every kind
    of key: the exact listeners are called first, in registration order,
    then the group's, then ['*'], then ['all']; the first one throws, its
    error is logged, and all the others are still called. *)
Lemma emit_in_order_witness :
  exists t,
    _emit "hide" [] listening_tour
    = (Normal tt,
       set_trace (trace listening_tour ++ Emit "hide" [("type", VStr "hide")] :: t)%list
                 listening_tour)
    /\ deliveries t
       = [("hide", 1%nat); ("hide", 5%nat); ("lifecycle", 2%nat); ("*", 3%nat); ("all", 4%nat)]
    /\ logged_errors t = [VStr "boom"].
Proof.
  destruct (emit_delivers_in_order_despite_throws listening_tour "hide" [])
    as [t [Hrun [Hdel Herr]]].
  exists t. split; [exact Hrun|]. split; [rewrite Hdel | rewrite Herr]; reflexivity.
Defined.

(** Claim C10, at three names: [autoplayChange] and [trackingFpsChange] end
    in [Change] and go to their explicit groups; [easingChange] is listed
    nowhere and goes to [config]. *)
Lemma explicit_group_witness :
  getEventGroup "autoplayChange" = Some "autoplay"
  /\ getEventGroup "trackingFpsChange" = Some "tracking"
  /\ getEventGroup "easingChange" = Some "config".
Proof.
  split; [|split].
  - destruct (explicit_group_precedes_config "autoplayChange") as [Hlisted _].
    apply (Hlisted "autoplay" (getEventsInGroup "autoplay"));
      cbn; repeat (first [left; reflexivity | right]).
  - destruct (explicit_group_precedes_config "trackingFpsChange") as [Hlisted _].
    apply (Hlisted "tracking" (getEventsInGroup "tracking"));
      cbn; repeat (first [left; reflexivity | right]).
  - destruct (explicit_group_precedes_config "easingChange") as [_ Hconfig].
    apply Hconfig. split; [reflexivity|].
    apply (find_group_None EVENT_GROUPS "easingChange"). reflexivity.
Defined.

(** Claim C1, on the code. After [destroy()] the message-cycle interval,
    the autoplay timeout and the movement-settle timeout of a running tour
    are still pending. As they come due they fire on the destroyed
    instance: thirteen events are emitted in the next 2.6 s, the message
    index keeps cycling, the autoplay timeout advances the tour to step 1
    and leaves new timers pending; and a listener registered after
    [destroy()] is called with the events. *)
Theorem destroy_leaves_timers_pending :
  option_map (fun s => map callback (timers s)) destroyed_tour
  = Some [CbMessageCycle; CbAutoplay 3000;
          CbPointToSettle (Some 1%nat) (CSingle MUndef) "up"]
  /\ new_events destroyed_tour (timers_run_on destroyed_tour)
     = Some ["messageChange"; "pointToComplete"; "animationEnd"; "messageChange";
             "messageChange"; "autoplayNext"; "next"; "beforeStepChange"; "animationStart";
             "move"; "messageCycleStop"; "messagesSet"; "stepChange"]
  /\ option_map currentStepIndex destroyed_tour = Some (Int 0)
  /\ option_map currentStepIndex (timers_run_on destroyed_tour) = Some (Int 1)
  /\ option_map (fun s => map callback (timers s)) (timers_run_on destroyed_tour)
     = Some [CbTextSwap (MStr "m2"); CbStepSettle 1 step_b (Some 2%nat);
             CbTextSwap (MStr "Done")]
  /\ option_map (fun s => deliveries (trace s))
       (timers_run_on (call (on "messageChange" (quiet_listener 7)) destroyed_tour))
     = Some [("messageChange", 7%nat); ("messageChange", 7%nat); ("messageChange", 7%nat)].
Proof. vm_compute. repeat split. Qed.

(** Claim C2, on the code. After a completed tour scheduled its auto-hide,
    [hide()] leaves that timeout pending and its id recorded; when it comes
    due the instance, already hidden, is hidden a second time and
    [autoHide] is emitted. *)
Theorem hide_leaves_autoHide_pending :
  option_map (fun s => map callback (timers s)) completed_then_hidden
  = Some [CbResetSettle; CbAutoHide 1000 "manual"]
  /\ option_map _hideOnCompleteTimeoutId completed_then_hidden = Some (Some 5%positive)
  /\ option_map isVisible completed_then_hidden = Some false
  /\ new_events completed_then_hidden hidden_then_timers_fire
     = Some ["reset"; "beforeHide"; "hide"; "autoHide"].
Proof. vm_compute. repeat split. Qed.

(** Claim C3, on the code. After [show()] and two calls of
    [startAutoplay()] two autoplay timeouts are pending; only the second is
    recorded in [_autoplayTimeoutId], so [stopAutoplay()] cancels that one
    and leaves the first pending. Left to run, the first advances the tour
    to its second step at 3 s and the second completes the tour 10 ms
    later. *)
Theorem startAutoplay_twice_leaves_two_timers :
  option_map (fun s => map tid (pending_autoplay s)) autoplay_started_twice
  = Some [2%positive; 3%positive]
  /\ option_map _autoplayTimeoutId autoplay_started_twice = Some (Some 3%positive)
  /\ option_map (fun s => map tid (pending_autoplay s))
       (call stopAutoplay autoplay_started_twice)
     = Some [2%positive]
  /\ new_events autoplay_started_twice autoplay_fires_twice
     = Some ["introAnimationEnd"; "track"; "show"; "autoplayNext"; "next";
             "beforeStepChange"; "animationStart"; "move"; "messagesSet"; "stepChange";
             "autoplayNext"; "complete"; "autoplayComplete"; "beforeReset"].
Proof. vm_compute. repeat split. Qed.

(** Claim C4, at a one-step tour with the default policy (reset and hide on
    completion, no explicit delay, animation of one second), completed at
    5 s: the auto-hide is registered with a delay of two seconds, and at
    7 s it fires and emits [autoHide] with one second and ['manual']. *)
Lemma next_on_last_step_witness :
  exists id,
    _hideOnCompleteTimeoutId (exec (next (page 5000)) one_step_tour) = Some id
    /\ In (mkTimer id KTimeout 5000 2000 (CbAutoHide 1000 "manual"))
         (timers (exec (next (page 5000)) one_step_tour))
    /\ exists s'',
         fire (page 7000) id (exec (next (page 5000)) one_step_tour) = Some s''
         /\ last (emitted (trace s''))
            = Some ("autoHide", [("delay", VNum 1000); ("source", VStr "manual");
                                 ("type", VStr "autoHide")]).
Proof.
  destruct (next_on_last_step_schedules_autoHide (page 5000) one_step_tour)
    as [id [Hid [Hin Hfire]]];
    [discriminate | reflexivity | reflexivity | constructor |].
  exists id. split; [exact Hid|]. split; [exact Hin|].
  apply (Hfire (page 7000)). vm_compute. discriminate.
Defined.

(** Claim C5, at a target that moved down by 100 px in 100 ms, more than
    300 ms after the last change: the direction flips to down, and the
    time of the flip is recorded. *)
Lemma direction_inference_witness :
  isPointingUp sampled_once = true
  /\ isPointingUp (exec (updatePosition (moving_page 1000 600)) sampled_once) = false
  /\ _lastDirectionChangeTime (exec (updatePosition (moving_page 1000 600)) sampled_once)
     = 1000
  /\ exists oldest newest,
       head (_targetYHistory (exec (updatePosition (moving_page 1000 600)) sampled_once))
       = Some oldest
       /\ last (_targetYHistory (exec (updatePosition (moving_page 1000 600)) sampled_once))
          = Some newest
       /\ 30 < Z.abs (y newest - y oldest)
       /\ 300 < 1000 - _lastDirectionChangeTime sampled_once.
Proof.
  split; [reflexivity|]. split; [reflexivity|].
  destruct (direction_inference (moving_page 1000 600) sampled_once) as [_ [_ Hauto]].
  destruct (Hauto 1%nat eq_refl eq_refl) as [_ [Hflip _]].
  destruct Hflip as [oldest [newest [Hh [Hl [_ [Hd [Ht [_ Htime]]]]]]]];
    [vm_compute; discriminate|].
  split; [exact Htime|].
  exists oldest, newest. repeat split; assumption.
Defined.

(** Claim C5, the counterexample. [pointTo('#missing', 'Look', 'down')] on
    a fresh tour sets the manual direction to ['down'] and leaves no target
    element; [updatePosition()] then keeps [isPointingUp] at [true]. *)
Lemma manual_direction_without_target_is_not_applied :
  manualDirection pointed_nowhere = Some "down"
  /\ targetElement pointed_nowhere = None
  /\ isPointingUp (exec (updatePosition (page 100)) pointed_nowhere) = true
  /\ updatePosition (page 100) pointed_nowhere = (Normal tt, pointed_nowhere).
Proof. vm_compute. repeat split. Qed.

(** Claim C6, the counterexample. On a visible tour whose autoplay interval
    is 3000, [setAutoplay(3000)] is not a no-op: it emits [beforeRestart],
    enables autoplay, hides the instance and schedules the restart. *)
Lemma setAutoplay_with_current_interval_restarts :
  option_map autoplay shown_tour = Some (Some 3000)
  /\ option_map isVisible shown_tour = Some true
  /\ new_events shown_tour (call (setAutoplay (page 100) (Some 3000)) shown_tour)
     = Some ["beforeRestart"]
  /\ option_map autoplayEnabled shown_tour = Some false
  /\ option_map autoplayEnabled (call (setAutoplay (page 100) (Some 3000)) shown_tour)
     = Some true
  /\ option_map isVisible (call (setAutoplay (page 100) (Some 3000)) shown_tour)
     = Some false
  /\ option_map (fun s => map callback (timers s))
       (call (setAutoplay (page 100) (Some 3000)) shown_tour)
     = Some [CbIntroFadeEnd false; CbRestart].
Proof. vm_compute. repeat split. Qed.

(** Claim C9, at a two-step tour: after [pointTo('#b', 'Look')] the cursor
    is still on step 0, and [next()] moves it to step 1. *)
Lemma pointTo_keeps_step_cursor_witness :
  currentStepIndex (exec (pointTo (page 0) (TSel "#b") (CSingle (MStr "Look")) None)
                         two_step_tour) = 0
  /\ currentStepIndex
       (exec (next (page 3000))
          (exec (pointTo (page 0) (TSel "#b") (CSingle (MStr "Look")) None) two_step_tour))
     = 1.
Proof.
  destruct (pointTo_keeps_step_cursor (page 0) (page 3000) two_step_tour
              (TSel "#b") (CSingle (MStr "Look")) None) as [Hidx [_ [Hnext _]]].
  split; [rewrite Hidx | rewrite Hnext]; reflexivity.
Defined.


(** Reading a field of a state that was assigned to. *)
Ltac fields :=
  cbn [steps offsetX offsetY tracking trackingFps animationDuration introFadeDuration
       bubbleFadeDuration messageTransitionDuration easing resetOnComplete floatingAnimation
       initialPosition initialPositionOffset resetPositionOnHide autoplay autoplayEnabled
       autoplayWaitForMessages hideOnComplete hideOnCompleteDelay pointerSvg onStepChange
       onComplete _autoplayTimeoutId _autoplayPaused _messagesCompletedForStep
       _hideOnCompleteTimeoutId _eventListeners targetElement currentStepIndex
       currentMessageIndex currentMessages messageInterval _messageIntervalId isVisible
       isPointingUp lastTargetY _targetYHistory _lastDirectionChangeTime manualDirection
       moveTimeout _hasShownBefore _lastTrackTime _rafId _messageCyclePausedByHide
       _wasAutoplayActiveBeforeHide _messageCyclePaused bubble_opacity bubbleText_innerHTML
       timers next_timer_id trace steps set_offsetX set_offsetY set_tracking set_trackingFps
       set_animationDuration set_introFadeDuration set_bubbleFadeDuration
       set_messageTransitionDuration set_easing set_resetOnComplete set_floatingAnimation
       set_initialPosition set_initialPositionOffset set_autoplay set_autoplayEnabled
       set_autoplayWaitForMessages set_hideOnComplete set_hideOnCompleteDelay set_pointerSvg
       set__autoplayTimeoutId set__autoplayPaused set__messagesCompletedForStep
       set__hideOnCompleteTimeoutId set__eventListeners set_targetElement set_currentStepIndex
       set_currentMessageIndex set_currentMessages set_messageInterval set__messageIntervalId
       set_isVisible set_isPointingUp set_lastTargetY set__targetYHistory
       set__lastDirectionChangeTime set_manualDirection set_moveTimeout set__hasShownBefore
       set__lastTrackTime set__rafId set__messageCyclePausedByHide
       set__wasAutoplayActiveBeforeHide set__messageCyclePaused set_bubble_opacity
       set_bubbleText_innerHTML set_timers set_next_timer_id set_trace fst snd].

Ltac fields_in H :=
  cbn [steps offsetX offsetY tracking trackingFps animationDuration introFadeDuration
       bubbleFadeDuration messageTransitionDuration easing resetOnComplete floatingAnimation
       initialPosition initialPositionOffset resetPositionOnHide autoplay autoplayEnabled
       autoplayWaitForMessages hideOnComplete hideOnCompleteDelay pointerSvg onStepChange
       onComplete _autoplayTimeoutId _autoplayPaused _messagesCompletedForStep
       _hideOnCompleteTimeoutId _eventListeners targetElement currentStepIndex
       currentMessageIndex currentMessages messageInterval _messageIntervalId isVisible
       isPointingUp lastTargetY _targetYHistory _lastDirectionChangeTime manualDirection
       moveTimeout _hasShownBefore _lastTrackTime _rafId _messageCyclePausedByHide
       _wasAutoplayActiveBeforeHide _messageCyclePaused bubble_opacity bubbleText_innerHTML
       timers next_timer_id trace steps set_offsetX set_offsetY set_tracking set_trackingFps
       set_animationDuration set_introFadeDuration set_bubbleFadeDuration
       set_messageTransitionDuration set_easing set_resetOnComplete set_floatingAnimation
       set_initialPosition set_initialPositionOffset set_autoplay set_autoplayEnabled
       set_autoplayWaitForMessages set_hideOnComplete set_hideOnCompleteDelay set_pointerSvg
       set__autoplayTimeoutId set__autoplayPaused set__messagesCompletedForStep
       set__hideOnCompleteTimeoutId set__eventListeners set_targetElement set_currentStepIndex
       set_currentMessageIndex set_currentMessages set_messageInterval set__messageIntervalId
       set_isVisible set_isPointingUp set_lastTargetY set__targetYHistory
       set__lastDirectionChangeTime set_manualDirection set_moveTimeout set__hasShownBefore
       set__lastTrackTime set__rafId set__messageCyclePausedByHide
       set__wasAutoplayActiveBeforeHide set__messageCyclePaused set_bubble_opacity
       set_bubbleText_innerHTML set_timers set_next_timer_id set_trace fst snd] in H.

(** ** Running a method on a state *)

Lemma bind_get {C : Type} (k : Pointy -> M C) (s : Pointy) : (get ≫= k) s = k s s.
Proof. reflexivity. Qed.

Lemma bind_modify {C : Type} (g : Pointy -> Pointy) (k : unit -> M C) (s : Pointy) :
  (modify g ≫= k) s = k tt (g s).
Proof. reflexivity. Qed.

Lemma bind_ret {A C : Type} (a : A) (k : A -> M C) (s : Pointy) : (mret a ≫= k) s = k a s.
Proof. reflexivity. Qed.

Lemma bind_call {A C : Type} (m : M A) (k : A -> M C) (s s' : Pointy) (a : A) :
  m s = (Normal a, s') -> (m ≫= k) s = k a s'.
Proof. intros H. rewrite bind_unfold, H. reflexivity. Qed.

Lemma emit_bind {C : Type} (event : string) (data : Obj) (k : unit -> M C) (s : Pointy) :
  (_emit event data ≫= k) s = k tt (set_trace (trace s ++ emit_obs s event data)%list s).
Proof. rewrite bind_unfold, _emit_run. reflexivity. Qed.

Lemma len_nil_iff {A : Type} (l : list A) : (len l =? 0) = true <-> l = [].
Proof.
  unfold len. rewrite Z.eqb_eq. destruct l; cbn; split; intros H; try reflexivity;
    try discriminate; lia.
Qed.

Lemma added_app (s s' : Pointy) (t : list Obs) :
  trace s' = (trace s ++ t)%list -> added s s' = t.
Proof. intros H. unfold added. rewrite H. apply drop_app_length. Qed.

(** What the three stop helpers do, as equations. *)
Lemma _stopMessageCycle_run (s : Pointy) :
  _stopMessageCycle s
  = (Normal tt,
     match _messageIntervalId s with
     | Some id =>
         set_trace (trace s ++ emit_obs s "messageCycleStop"
                                 [("currentIndex", val_of_index (currentMessageIndex s))])%list
           (set__messageIntervalId None
              (set_timers (List.filter (fun t => negb (tid t =? id)%positive) (timers s)) s))
     | None => s
     end).
Proof.
  unfold _stopMessageCycle. rewrite bind_get.
  destruct (_messageIntervalId s); [|reflexivity].
  unfold clearInterval, cancel_timer. rewrite bind_modify, bind_modify, _emit_run.
  reflexivity.
Qed.

Lemma _stopTracking_run (s : Pointy) :
  _stopTracking s
  = (Normal tt,
     match _rafId s with
     | Some id =>
         set__rafId None
           (set_timers (List.filter (fun t => negb (tid t =? id)%positive) (timers s)) s)
     | None => s
     end).
Proof. unfold _stopTracking. rewrite bind_get. destruct (_rafId s); reflexivity. Qed.

Lemma _stopAutoplay_run (s : Pointy) :
  _stopAutoplay s
  = (Normal tt,
     match _autoplayTimeoutId s with
     | Some id =>
         set__autoplayTimeoutId None
           (set_timers (List.filter (fun t => negb (tid t =? id)%positive) (timers s)) s)
     | None => s
     end).
Proof. unfold _stopAutoplay. rewrite bind_get. destruct (_autoplayTimeoutId s); reflexivity. Qed.

Lemma register_timer_run (env : Env) (k : TimerKind) (cb : Callback) (d : Z) (s : Pointy) :
  register_timer env k cb d s
  = (Normal (next_timer_id s),
     set_next_timer_id (Pos.succ (next_timer_id s))
       (set_timers (timers s ++ [mkTimer (next_timer_id s) k (date_now env) d cb])%list s)).
Proof. reflexivity. Qed.

(** ** The index guards *)

(** A comparison with an index that is no number is false. *)
Lemma not_a_number_compares_false (i : Index) (n : Z) :
  to_number i = None -> Index_ltb i n = false /\ Index_geb i n = false.
Proof. intros H. unfold Index_ltb, Index_geb. rewrite H. auto. Qed.

Lemma at_index_not_a_number {A : Type} (l : list A) (i : Index) :
  to_number i = None -> at_index l i = None.
Proof. destruct i; [discriminate | reflexivity | reflexivity]. Qed.

(** Claim C8. [goToStep(i)] and [goToMessage(j)] return at once, leaving the
    whole state (fields, timers and trace) as it was, when [i < 0] or
    [i >= length] holds (or there are no steps). For an index that is no
    number ([NaN], or [undefined] for an omitted argument) neither
    comparison holds, and the call is not ignored: with steps,
    [goToStep] assigns the index to [currentStepIndex], emits
    [beforeStepChange] with an undefined step, and throws a [TypeError]
    on reading [step.direction]; [goToMessage] assigns the index to
    [currentMessageIndex], hides the bubble and emits [messageChange] with
    an undefined message. *)
Theorem index_guards_let_NaN_through (env : Env) (s : Pointy) :
  (forall i : Z, steps s = [] \/ i < 0 \/ len (steps s) <= i ->
                 goToStep env i s = (Normal tt, s))
  /\ (forall j : Z, j < 0 \/ len (currentMessages s) <= j ->
                    goToMessage env j s = (Normal tt, s))
  /\ (forall i : Index, to_number i = None -> steps s <> [] ->
        let s' := exec (goToStep env i) s in
        outcome (goToStep env i) s = Thrown TypeError
        /\ currentStepIndex s' = i
        /\ emitted (added s s')
           = [("beforeStepChange",
               [("fromIndex", val_of_index (currentStepIndex s));
                ("toIndex", val_of_index i);
                ("step", VUndef);
                ("fromTarget", val_of_elem (targetElement s));
                ("type", VStr "beforeStepChange")])])
  /\ (forall j : Index, to_number j = None ->
        let s' := exec (goToMessage env j) s in
        outcome (goToMessage env j) s = Normal tt
        /\ currentMessageIndex s' = j
        /\ bubble_opacity s' = "0"
        /\ emitted (added s s')
           = [("messageChange",
               [("fromIndex", val_of_index (currentMessageIndex s));
                ("toIndex", val_of_index j);
                ("message", VMsg MUndef);
                ("total", VNum (len (currentMessages s)));
                ("type", VStr "messageChange")])]).
Proof.
  split; [|split; [|split]].
  - intros i Hi. unfold goToStep. rewrite bind_get.
    replace ((len (steps s) =? 0) || Index_ltb i 0 || Index_geb i (len (steps s)))
      with true; [reflexivity|].
    symmetry. unfold Index_ltb, Index_geb. cbn [to_number].
    rewrite !orb_true_iff, Z.eqb_eq, Z.ltb_lt, Z.leb_le.
    destruct Hi as [Hnil|[Hneg|Hge]].
    + left. left. rewrite Hnil. reflexivity.
    + left. right. exact Hneg.
    + right. exact Hge.
  - intros j Hj. unfold goToMessage. rewrite bind_get.
    replace (Index_ltb j 0 || Index_geb j (len (currentMessages s))) with true;
      [reflexivity|].
    symmetry. unfold Index_ltb, Index_geb. cbn [to_number].
    rewrite orb_true_iff, Z.ltb_lt, Z.leb_le. exact Hj.
  - intros i Hi Hsteps. cbv zeta. unfold exec, outcome, goToStep.
    rewrite bind_get.
    destruct (not_a_number_compares_false i 0 Hi) as [-> _].
    destruct (not_a_number_compares_false i (len (steps s)) Hi) as [_ ->].
    destruct (len (steps s) =? 0) eqn:Hlen; [apply len_nil_iff in Hlen; contradiction|].
    cbn [orb].
    rewrite (bind_call _ _ s _ _ (_stopAutoplay_run s)).
    rewrite bind_modify, bind_get, bind_modify. cbv zeta.
    rewrite emit_bind.
    assert (Hat : forall x, at_index (steps x) i = None)
      by (intros x; apply at_index_not_a_number, Hi).
    rewrite !Hat. cbn [fst snd val_of_step].
    destruct (_autoplayTimeoutId s);
      (split; [reflexivity|]; split; [reflexivity|];
       erewrite added_app by reflexivity; rewrite emitted_emit_obs; reflexivity).
  - intros j Hj. cbv zeta. unfold exec, outcome, goToMessage.
    rewrite bind_get.
    destruct (not_a_number_compares_false j 0 Hj) as [-> _].
    destruct (not_a_number_compares_false j (len (currentMessages s)) Hj) as [_ ->].
    cbn [orb]. rewrite bind_modify, bind_get.
    assert (Hat : forall x, msg_at (currentMessages x) j = MUndef).
    { intros x. unfold msg_at. rewrite at_index_not_a_number by exact Hj. reflexivity. }
    cbn [currentMessageIndex set_currentMessageIndex]. rewrite !Hat.
    unfold updateContent. cbn [is_blank]. rewrite bind_modify, bind_get.
    rewrite _emit_run. cbn [fst snd].
    split; [reflexivity|]. split; [reflexivity|]. split; [reflexivity|].
    erewrite added_app; [|reflexivity].
    rewrite emitted_emit_obs. rewrite !Hat. reflexivity.
Qed.

(** Claim C8, at the one-step tour: step 5 and message -1 do not exist and
    are ignored; [goToStep(NaN)] throws after it has set the cursor. *)
Lemma index_guards_witness :
  goToStep (page 0) 5 one_step_tour = (Normal tt, one_step_tour)
  /\ goToMessage (page 0) (-1) one_step_tour = (Normal tt, one_step_tour)
  /\ outcome (goToStep (page 0) NaN) one_step_tour = Thrown TypeError
  /\ currentStepIndex (exec (goToStep (page 0) NaN) one_step_tour) = NaN
  /\ currentMessageIndex (exec (goToMessage (page 0) Undefined) one_step_tour) = Undefined.
Proof.
  destruct (index_guards_let_NaN_through (page 0) one_step_tour)
    as [Hstep [Hmsg [Hnan Hnan']]].
  split; [apply Hstep; right; right; vm_compute; discriminate|].
  split; [apply Hmsg; left; lia|].
  destruct (Hnan NaN eq_refl) as [Ht [Hi _]]; [discriminate|].
  destruct (Hnan' Undefined eq_refl) as [_ [Hj _]].
  auto.
Defined.

(** ** Setters *)

(** Claim C6, as amended. Each setter that assigns one configuration field
    behind its [if (old === new) return] guard, called with the field's
    current value, returns without throwing and leaves the whole state as
    it was: no event, no field assigned, no timer touched.
    [setInitialPosition] validates before it compares: it is such a no-op
    on a current value it accepts, and on one it does not accept (a string
    that is neither a selector nor a preset) it logs its console warning
    and does nothing else. The legacy [setAutoplay] is not among them:
    called with the current interval it is a no-op only when the interval
    is falsy or the instance hidden; on a visible instance with a truthy
    interval it emits [beforeRestart] (and [messageCycleStop] when a
    message cycle was running, never [autoplayChange]), enables autoplay,
    hides the instance and schedules the restart 50 ms later. *)
Theorem guarded_setters_are_idempotent (env : Env) (s : Pointy) :
  setAnimationDuration (animationDuration s) s = (Normal tt, s)
  /\ setIntroFadeDuration (introFadeDuration s) s = (Normal tt, s)
  /\ setBubbleFadeDuration (bubbleFadeDuration s) s = (Normal tt, s)
  /\ setMessageTransitionDuration (messageTransitionDuration s) s = (Normal tt, s)
  /\ setEasing (easing s) s = (Normal tt, s)
  /\ setMessageInterval env (messageInterval s) s = (Normal tt, s)
  /\ setOffset env (offsetX s) (offsetY s) s = (Normal tt, s)
  /\ setInitialPositionOffset (initialPositionOffset s) s = (Normal tt, s)
  /\ setAutoplayInterval env (autoplay s) s = (Normal tt, s)
  /\ setAutoplayWaitForMessages (autoplayWaitForMessages s) s = (Normal tt, s)
  /\ setTracking env (tracking s) s = (Normal tt, s)
  /\ setTrackingFps (trackingFps s) s = (Normal tt, s)
  /\ setResetOnComplete (resetOnComplete s) s = (Normal tt, s)
  /\ setHideOnComplete (hideOnComplete s) s = (Normal tt, s)
  /\ setHideOnCompleteDelay (hideOnCompleteDelay s) s = (Normal tt, s)
  /\ setFloatingAnimation (floatingAnimation s) s = (Normal tt, s)
  /\ setPointerSvg (pointerSvg s) s = (Normal tt, s)
  /\ (accepted_position (initialPosition s) = true ->
      setInitialPosition (initialPosition s) s = (Normal tt, s))
  /\ (forall name,
        initialPosition s = PosStr name -> accepted_position (PosStr name) = false ->
        setInitialPosition (initialPosition s) s
        = (Normal tt,
           set_trace
             (trace s
              ++ [ConsoleWarn
                    ("Invalid initial position: " ++ name
                     ++ ". Valid presets: center, top-left, top-center, top-right, "
                     ++ "middle-left, middle-right, bottom-left, bottom-center, "
                     ++ "bottom-right, first-step"
                     ++ ". Or use a CSS selector or DOM element.")])%list s))
  /\ (truthy (autoplay s) && isVisible s = false ->
      setAutoplay env (autoplay s) s = (Normal tt, s))
  /\ (truthy (autoplay s) = true -> isVisible s = true ->
      let s' := exec (setAutoplay env (autoplay s)) s in
      outcome (setAutoplay env (autoplay s)) s = Normal tt
      /\ event_names (added s s')
         = "beforeRestart"
           :: (if is_some (_messageIntervalId s) then ["messageCycleStop"] else [])
      /\ autoplayEnabled s' = true
      /\ _autoplayPaused s' = false
      /\ isVisible s' = false
      /\ _hasShownBefore s' = false
      /\ last (timers s')
         = Some (mkTimer (next_timer_id s) KTimeout (date_now env) 50 CbRestart)).
Proof.
  assert (Hinterval : setAutoplayInterval env (autoplay s) s = (Normal tt, s)).
  { unfold setAutoplayInterval. run. cbv zeta. rewrite optZ_eqb_refl. reflexivity. }
  repeat match goal with |- _ /\ _ => split end;
    try (unfold setAnimationDuration, setIntroFadeDuration, setBubbleFadeDuration,
           setMessageTransitionDuration, setEasing, setMessageInterval, setOffset,
           setInitialPositionOffset, setAutoplayInterval, setAutoplayWaitForMessages,
           setTracking, setTrackingFps, setResetOnComplete, setHideOnComplete,
           setHideOnCompleteDelay, setFloatingAnimation, setPointerSvg;
         run; cbv zeta;
         rewrite ?Z.eqb_refl, ?String.eqb_refl, ?optZ_eqb_refl, ?Bool_eqb_refl;
         reflexivity).
  - intros Hok. unfold setInitialPosition. cbv zeta.
    replace (match initialPosition s with
             | PosStr p => negb (startsWith p "#") && negb (startsWith p ".")
                           && negb (includes validPresets p)
             | PosElem _ => false
             end) with false.
    + run. cbv zeta. rewrite Position_eqb_refl. reflexivity.
    + symmetry. unfold accepted_position in Hok.
      destruct (initialPosition s) as [p|el]; [|reflexivity].
      destruct (startsWith p "#"), (startsWith p "."), (includes validPresets p);
        try reflexivity; discriminate.
  - intros name Hname Hbad. rewrite Hname. unfold setInitialPosition. cbv zeta.
    unfold accepted_position in Hbad.
    replace (negb (startsWith name "#") && negb (startsWith name ".")
             && negb (includes validPresets name)) with true.
    + unfold console_warn, log. run. reflexivity.
    + symmetry.
      destruct (startsWith name "#"), (startsWith name "."), (includes validPresets name);
        try reflexivity; discriminate.
  - intros Hoff. unfold setAutoplay.
    rewrite (bind_call _ _ s s tt Hinterval), bind_get, Hoff. reflexivity.
  - intros Hon Hvis. cbv zeta. unfold exec, outcome, setAutoplay.
    rewrite (bind_call _ _ s s tt Hinterval), bind_get, Hon, Hvis.
    cbn [andb when]. rewrite bind_modify, bind_modify.
    unfold restart. rewrite emit_bind, bind_modify, bind_get.
    cbn [isVisible set_trace set__hasShownBefore set__autoplayPaused set_autoplayEnabled].
    rewrite Hvis.
    match goal with
    | |- context [(_stopTracking ≫= ?k) ?x] =>
        rewrite (bind_call _ k x _ _ (_stopTracking_run x))
    end.
    match goal with
    | |- context [(_stopMessageCycle ≫= ?k) ?x] =>
        rewrite (bind_call _ k x _ _ (_stopMessageCycle_run x))
    end.
    rewrite bind_modify. unfold setTimeout.
    match goal with
    | |- context [(register_timer ?e ?kd ?cb ?d ≫= ?k) ?x] =>
        rewrite (bind_call _ k x _ _ (register_timer_run e kd cb d x))
    end.
    destruct (_rafId s) eqn:Hraf, (_messageIntervalId s) eqn:Hcycle;
      fields; rewrite ?Hraf, ?Hcycle; fields; rewrite ?Hcycle; fields;
      (split; [reflexivity|];
       split; [erewrite added_app by (fields; rewrite <- ?app_assoc; reflexivity);
               unfold event_names; rewrite ?emitted_app, !emitted_emit_obs; reflexivity|];
       do 4 (split; [reflexivity|]);
       apply last_snoc).
Qed.

(** * More of the engine *)

(** ** Subscribing and unsubscribing *)






(** ** The event data *)



Lemma Forall_dispatch_obs (P : Obs -> Prop) (s : Pointy) (key : string)
    (eventData : EventData) (msg : string) :
  (forall h, P (Deliver key h eventData)) -> (forall e, P (ConsoleError msg e)) ->
  Forall P (dispatch_obs s key eventData msg).
Proof.
  intros Hd He. unfold dispatch_obs.
  induction (subscribers s key) as [|h hs IH]; cbn; [constructor|].
  constructor; [apply Hd|]. apply Forall_app. split; [|exact IH].
  destruct (h_call h eventData); repeat constructor. apply He.
Qed.

Lemma added_emit (s : Pointy) (event : string) (data : Obj) :
  added s (exec (_emit event data) s) = emit_obs s event data.
Proof.
  unfold added, exec. rewrite _emit_run. cbn [snd trace set_trace]. apply drop_app_length.
Qed.


(** ** Groups and their events *)

Lemma find_group_Some (groups : list (string * list string)) (event group : string) :
  find_group groups event = Some group ->
  exists events, In (group, events) groups /\ In event events.
Proof.
  induction groups as [|[g evs] rest IH]; cbn; [discriminate|].
  destruct (includes evs event) eqn:Hinc.
  - intros Heq. injection Heq as <-. exists evs. split; [now left | now apply includes_In].
  - intros H. destruct (IH H) as [events [Hin He]]. exists events. split; [now right | exact He].
Qed.

(** Every group of the table is what [getEventsInGroup] returns for its
    name: no group name occurs twice. Checked on the table. *)
Lemma getEventsInGroup_table :
  forallb (fun ge => bool_decide (getEventsInGroup (fst ge) = snd ge)) EVENT_GROUPS = true.
Proof. vm_compute. reflexivity. Qed.

Lemma getEventsInGroup_listed (group : string) (events : list string) :
  In (group, events) EVENT_GROUPS -> getEventsInGroup group = events.
Proof.
  intros Hin. pose proof getEventsInGroup_table as H.
  rewrite forallb_forall in H. specialize (H _ Hin).
  apply bool_decide_eq_true in H. exact H.
Qed.

Lemma getEventsInGroup_In (group event : string) :
  In event (getEventsInGroup group) ->
  exists events, In (group, events) EVENT_GROUPS /\ In event events.
Proof.
  unfold getEventsInGroup.
  destruct (find _ EVENT_GROUPS) as [[g evs]|] eqn:Hfind; [|intros []].
  apply find_some in Hfind. destruct Hfind as [Hin Hg]. cbn in Hg.
  apply String.eqb_eq in Hg. subst g. cbn [snd]. intros He. exists evs. auto.
Qed.

(** Property X4. [getEventsInGroup] and [getEventGroup] agree on the eight
    explicit groups: an event is among the events [getEventsInGroup(group)]
    returns exactly when [getEventGroup(event)] is that group and the group
    is not ['config']. For ['config'], which [getEventGroup] answers for the
    unlisted [...Change] events, [getEventsInGroup] returns no event. *)
Theorem getEventsInGroup_inverts_getEventGroup (group event : string) :
  (In event (getEventsInGroup group)
   <-> getEventGroup event = Some group /\ group <> "config")
  /\ getEventsInGroup "config" = []
  /\ getEventGroup "easingChange" = Some "config".
Proof.
  split; [|split; reflexivity].
  split.
  - intros Hin. destruct (getEventsInGroup_In group event Hin) as [events [Hg He]].
    destruct (listed_event group event events Hg He) as [Hfind [Hgc _]].
    split; [|exact Hgc]. unfold getEventGroup. rewrite Hfind. reflexivity.
  - intros [Hgrp Hgc]. unfold getEventGroup in Hgrp.
    destruct (find_group EVENT_GROUPS event) as [g|] eqn:Hfind.
    + injection Hgrp as ->.
      destruct (find_group_Some _ _ _ Hfind) as [events [Hg He]].
      rewrite (getEventsInGroup_listed group events Hg). exact He.
    + destruct (endsWith event "Change"); [|discriminate].
      injection Hgrp as <-. congruence.
Qed.

(** ** Destroying *)

(** Property X5. [destroy()] emits [destroy] to the listeners registered at
    that moment, in the order of every emit, and then forgets them all:
    after it no key has a listener, and an emit of any event calls nobody. *)
Theorem destroy_notifies_then_forgets_listeners (s : Pointy) :
  let s' := exec destroy s in
  added s s' = emit_obs s "destroy" []
  /\ deliveries (added s s')
     = map (fun kh => (fst kh, h_id (snd kh))) (delivery_plan s "destroy")
  /\ (forall key, subscribers s' key = [])
  /\ (forall event data, deliveries (added s' (exec (_emit event data) s')) = []).
Proof.
  cbv zeta.
  assert (Hrun : exists s1, exec destroy s = set__eventListeners ∅ s1
                            /\ trace s1 = (trace s ++ emit_obs s "destroy" [])%list).
  { unfold destroy. rewrite exec_emit.
    unfold _stopTracking, cancelAnimationFrame, clearTimeout, cancel_timer. run.
    fields. destruct (_rafId s); fields; destruct (_hideOnCompleteTimeoutId s); fields;
      (eexists; split; [reflexivity|]); reflexivity. }
  destruct Hrun as [s1 [Hs' Ht]].
  assert (Hadded : added s (exec destroy s) = emit_obs s "destroy" []).
  { unfold added. rewrite Hs'. cbn [trace set__eventListeners]. rewrite Ht.
    apply drop_app_length. }
  assert (Hsub : forall key, subscribers (exec destroy s) key = []).
  { intros key. rewrite Hs'. unfold subscribers. cbn. rewrite lookup_empty. reflexivity. }
  split; [exact Hadded|]. split; [|split; [exact Hsub|]].
  - rewrite Hadded. destruct (emit_obs_deliveries s "destroy" []) as [t [Hobs [Hdel _]]].
    rewrite Hobs. exact Hdel.
  - intros event data. rewrite added_emit.
    destruct (emit_obs_deliveries (exec destroy s) event data) as [t [Hobs [Hdel _]]].
    rewrite Hobs. change (deliveries (?o :: t)) with (deliveries t). rewrite Hdel.
    unfold delivery_plan. rewrite !Hsub. destruct (getEventGroup event); [rewrite Hsub|]; reflexivity.
Qed.

(** ** Initial positions *)

Lemma getInitialPositions_valid (p : string) :
  In p getInitialPositions <-> includes validPresets p = true.
Proof. rewrite includes_In. reflexivity. Qed.

(** Property X6. [setInitialPosition] accepts exactly the names
    [getInitialPositions()] lists, besides selectors and elements. A listed
    name becomes the initial position and nothing is logged; when it differs
    from the current one [initialPositionChange] is emitted with the old and
    the new position. A string that is neither listed nor starts with [#] or
    [.] is refused: a console warning is the only effect, the position stays
    and no event is emitted. *)
Theorem setInitialPosition_accepts_the_listed_presets (s : Pointy) (p : string) :
  (In p getInitialPositions ->
     initialPosition (exec (setInitialPosition (PosStr p)) s) = PosStr p
     /\ added s (exec (setInitialPosition (PosStr p)) s)
        = if Position_eqb (initialPosition s) (PosStr p) then []
          else emit_obs s "initialPositionChange"
                 [("from", VPosition (initialPosition s)); ("to", VPosition (PosStr p))])
  /\ (~ In p getInitialPositions -> startsWith p "#" = false -> startsWith p "." = false ->
      exists msg,
        setInitialPosition (PosStr p) s
        = (Normal tt, set_trace (trace s ++ [ConsoleWarn msg])%list s)).
Proof.
  split.
  - intros Hin. apply getInitialPositions_valid in Hin.
    unfold setInitialPosition. cbv zeta. rewrite Hin, !andb_false_r.
    rewrite exec_get.
    destruct (Position_eqb (initialPosition s) (PosStr p)) eqn:Heq.
    + split.
      * cbn. destruct (initialPosition s) as [q|]; cbn in Heq; [|discriminate].
        apply String.eqb_eq in Heq. now subst.
      * unfold added. cbn. apply drop_all.
    + rewrite exec_modify. unfold exec. rewrite _emit_run. cbn. split; [reflexivity|].
      unfold added. cbn. apply drop_app_length.
  - intros Hnot H1 H2. unfold setInitialPosition. cbv zeta. rewrite H1, H2. cbn [negb andb].
    replace (includes validPresets p) with false.
    + cbn [negb]. eexists. unfold console_warn, log. run. reflexivity.
    + symmetry. apply not_true_is_false. rewrite <- getInitialPositions_valid. exact Hnot.
Qed.

(** ** The ends of the tour *)

(** Property X7. With no steps, [next()] and [prev()] return at once and
    change nothing. On the first step (a step index of zero or less)
    [prev()] does the same: no event, no field assigned, no timer touched. *)
Theorem prev_on_the_first_step_is_a_noop (env : Env) (s : Pointy) :
  (getTotalSteps s = 0 -> next env s = (Normal tt, s) /\ prev env s = (Normal tt, s))
  /\ (forall z, getCurrentStep s = Int z -> z <= 0 -> prev env s = (Normal tt, s)).
Proof.
  unfold getTotalSteps, getCurrentStep. split.
  - intros Hlen. apply Z.eqb_eq in Hlen.
    unfold next, prev. rewrite !bind_unfold. cbn [get]. rewrite Hlen. split; reflexivity.
  - intros z Hz Hfirst. unfold prev. rewrite bind_unfold. cbn [get].
    destruct (len (steps s) =? 0); [reflexivity|].
    rewrite Hz. unfold Index_gtb. cbn [to_number].
    replace (0 <? z) with false by (symmetry; apply Z.ltb_ge; exact Hfirst).
    reflexivity.
Qed.

(** Property X8. Before the last step, [next()] moves the step index up by
    one and a [prev()] after it moves it back; after the first step,
    [prev()] moves it down by one and a [next()] after it moves it back. The
    steps themselves are never changed by either. *)
Theorem next_and_prev_are_inverse_inside_the_tour
    (env1 env2 : Env) (s : Pointy) (z : Z) :
  getCurrentStep s = Int z ->
  (0 <= z < getTotalSteps s - 1 ->
     getCurrentStep (exec (next env1) s) = Int (z + 1)
     /\ getCurrentStep (exec (prev env2) (exec (next env1) s)) = Int z)
  /\ (0 < z < getTotalSteps s ->
     getCurrentStep (exec (prev env1) s) = Int (z - 1)
     /\ getCurrentStep (exec (next env2) (exec (prev env1) s)) = Int z)
  /\ steps (exec (next env1) s) = steps s
  /\ steps (exec (prev env1) s) = steps s.
Proof.
  unfold getCurrentStep, getTotalSteps. intros Hz.
  pose proof (next_cursor env1 s) as Hn. pose proof (prev_cursor env1 s) as Hp.
  pose proof (prev_cursor env2 (exec (next env1) s)) as Hpn.
  pose proof (next_cursor env2 (exec (prev env1) s)) as Hnp.
  unfold cursor in *.
  injection Hn as Hni Hns Hnr. injection Hp as Hpi Hps Hpr.
  injection Hpn as Hpni _ _. injection Hnp as Hnpi _ _.
  rewrite Hns, Hni in Hpni. rewrite Hps, Hpi, Hpr in Hnpi.
  rewrite Hz in *. unfold Index_ltb, Index_gtb, Index_geb, Index_add in *.
  cbn [to_number] in *.
  split; [|split; [|split; assumption]].
  - intros [Hlo Hhi].
    assert (Hlen : (len (steps s) =? 0) = false) by (apply Z.eqb_neq; lia).
    rewrite Hlen in *.
    replace (z <? len (steps s) - 1) with true in * by (symmetry; apply Z.ltb_lt; lia).
    replace (z + 1 <? 0) with false in * by (symmetry; apply Z.ltb_ge; lia).
    split; [exact Hni|].
    rewrite Hpni. cbn [to_number].
    replace (0 <? z + 1) with true by (symmetry; apply Z.ltb_lt; lia).
    replace (len (steps s) <=? z + 1 + -1) with false by (symmetry; apply Z.leb_gt; lia).
    f_equal. lia.
  - intros [Hlo Hhi].
    assert (Hlen : (len (steps s) =? 0) = false) by (apply Z.eqb_neq; lia).
    rewrite Hlen in *.
    replace (0 <? z) with true in * by (symmetry; apply Z.ltb_lt; lia).
    replace (len (steps s) <=? z + -1) with false in * by (symmetry; apply Z.leb_gt; lia).
    split; [rewrite Hpi; f_equal; lia|].
    rewrite Hnpi. cbn [to_number].
    replace (z + -1 <? len (steps s) - 1) with true by (symmetry; apply Z.ltb_lt; lia).
    replace (z + -1 + 1 <? 0) with false by (symmetry; apply Z.ltb_ge; lia).
    f_equal. lia.
Qed.

(** ** Autoplay without steps *)

(** Property X9. [startAutoplay()] on a visible instance that has an
    autoplay interval but no steps throws: [_scheduleAutoplay()] reads
    [this.steps[this.currentStepIndex].duration] of a step that does not
    exist. By then autoplay is enabled and [autoplayStart] has been emitted;
    no timer is scheduled. (When autoplay waits for messages and there are
    several messages cycling, [_scheduleAutoplay()] returns before that
    read.) *)
Theorem startAutoplay_without_steps_throws (env : Env) (s : Pointy) :
  steps s = [] ->
  truthy (autoplay s) = true ->
  isVisible s = true ->
  autoplayWaitForMessages s
    && ((1 <? len (currentMessages s)) && truthy (messageInterval s)) = false ->
  outcome (startAutoplay env) s = Thrown TypeError
  /\ autoplayEnabled (exec (startAutoplay env) s) = true
  /\ added s (exec (startAutoplay env) s) = emit_obs s "autoplayStart" []
  /\ timers (exec (startAutoplay env) s) = timers s.
Proof.
  intros Hsteps Hauto Hvis Hwait.
  assert (Hrun : startAutoplay env s
                 = (Thrown TypeError,
                    set_trace (trace s ++ emit_obs s "autoplayStart" [])%list
                      (set__autoplayPaused false (set_autoplayEnabled true s)))).
  { unfold startAutoplay. rewrite bind_unfold. cbn [get]. rewrite Hauto. cbn [negb].
    rewrite bind_unfold. cbn [modify]. rewrite bind_unfold. cbn [modify].
    rewrite emit_bind. unfold _scheduleAutoplay. rewrite bind_unfold. cbn [get]. fields.
    rewrite Hauto, Hvis, Hsteps, Hwait. cbn [negb orb].
    replace (at_index [] (currentStepIndex s)) with (@None Step); [reflexivity|].
    destruct (currentStepIndex s) as [z| |]; cbn; [destruct (z <? 0)|..]; reflexivity. }
  unfold outcome, exec, added. rewrite Hrun. cbn [fst snd]. fields.
  repeat split; try reflexivity. apply drop_app_length.
Qed.

(** ** Frames of positioning, rendering and timers *)

#[export] Hint Constructors display_update : core.

Section DisplayFrames.
Context {B : Type} (f : Pointy -> B) (Hf : ignores_display f) (env : Env).

Lemma display_register_timer (k : TimerKind) (cb : Callback) (d : Z) :
  keeps f (register_timer env k cb d).
Proof using Hf.
  unfold register_timer.
  apply keeps_bind; [apply keeps_get | intros this].
  apply keeps_bind; [ | intros _; apply keeps_ret].
  apply keeps_modify. intros s.
  rewrite (Hf (set_next_timer_id _)) by constructor. apply Hf. constructor.
Qed.

Lemma display_setTimeout (cb : Callback) (d : Z) : keeps f (setTimeout env cb d).
Proof using Hf. apply display_register_timer. Qed.

Lemma display_setInterval (cb : Callback) (d : Z) : keeps f (setInterval env cb d).
Proof using Hf. apply display_register_timer. Qed.

Lemma display_requestAnimationFrame (cb : Callback) : keeps f (requestAnimationFrame env cb).
Proof using Hf. apply display_register_timer. Qed.

Lemma display_cancel_timer (id : positive) : keeps f (cancel_timer id).
Proof using Hf. unfold cancel_timer. frame. Qed.

Lemma display_clearTimeout (id : positive) : keeps f (clearTimeout id).
Proof using Hf. apply display_cancel_timer. Qed.

Lemma display_clearInterval (id : positive) : keeps f (clearInterval id).
Proof using Hf. apply display_cancel_timer. Qed.

Lemma display_cancelAnimationFrame (id : positive) : keeps f (cancelAnimationFrame id).
Proof using Hf. apply display_cancel_timer. Qed.

Hint Resolve display_setTimeout display_setInterval display_requestAnimationFrame
  display_clearTimeout display_clearInterval display_cancelAnimationFrame : frame.

Lemma display_updatePosition : keeps f (updatePosition env).
Proof using Hf. unfold updatePosition. frame. Qed.
Hint Resolve display_updatePosition : frame.

Lemma display__stopTracking : keeps f _stopTracking.
Proof using Hf. unfold _stopTracking. frame. Qed.

Lemma display_updateContent (newContent : Msg) (animate : bool) :
  keeps f (updateContent env newContent animate).
Proof using Hf. unfold updateContent. frame. Qed.
End DisplayFrames.

#[export] Hint Resolve display_setTimeout display_setInterval display_requestAnimationFrame
  display_clearTimeout display_clearInterval display_cancelAnimationFrame
  display_updatePosition display__stopTracking display_updateContent : frame.

#[export] Hint Extern 1 (ignores_display _) =>
  (let g := fresh in let H := fresh in intros g H ?; destruct H; reflexivity) : frame.

(** A call that returns and keeps [f], as an equation on its result. *)
Lemma call_keeps {A B : Type} (f : Pointy -> B) (m : M A) (s : Pointy) :
  returns m -> keeps f m -> exists a s', m s = (Normal a, s') /\ f s' = f s.
Proof.
  intros Hr Hk. destruct (Hr s) as [a Ha]. specialize (Hk s).
  unfold outcome in Ha. unfold exec in Hk. destruct (m s) as [c s']. cbn in *. subst c.
  exists a, s'. auto.
Qed.

(** Run the head of a sequence applied to a state: a read of [this], an
    assignment, an emit, or a call that returns and keeps [f]. *)
Lemma exec_call {A C : Type} (m : M A) (k : A -> M C) (s s' : Pointy) (a : A) :
  m s = (Normal a, s') -> exec (m ≫= k) s = exec (k a) s'.
Proof. intros H. unfold exec. rewrite (bind_call m k s s' a H). reflexivity. Qed.

Lemma bind_assoc_at {A B C : Type} (m : M A) (f : A -> M B) (k : B -> M C) (s : Pointy) :
  ((m ≫= f) ≫= k) s = (m ≫= (fun a => f a ≫= k)) s.
Proof. rewrite !bind_unfold. destruct (m s) as [[a|e] s']; reflexivity. Qed.

(** Use what earlier case distinctions found out about the fields. *)
Ltac known :=
  repeat match goal with
         | H : ?g ?x = _ |- context [?g ?x] => is_var x; rewrite H
         end.

(** Distinguish the cases of a recorded timer id the goal is stuck on. *)
Ltac recorded :=
  try match goal with
      | |- context [match _rafId ?x with _ => _ end] => destruct (_rafId x) eqn:?
      | |- context [match _messageIntervalId ?x with _ => _ end] =>
          destruct (_messageIntervalId x) eqn:?
      | |- context [match _autoplayTimeoutId ?x with _ => _ end] =>
          destruct (_autoplayTimeoutId x) eqn:?
      end.

Ltac step f :=
  lazymatch goal with
  | |- context [((?m ≫= ?g) ≫= ?k) ?s] => rewrite (bind_assoc_at m g k s); cbn beta
  | |- context [(get ≫= ?k) ?s] => rewrite (bind_get k s); cbn beta
  | |- context [(modify ?g ≫= ?k) ?s] => rewrite (bind_modify g k s); cbn beta
  | |- context [(mret ?a ≫= ?k) ?s] => rewrite (bind_ret a k s); cbn beta
  | |- context [(_emit ?e ?d ≫= ?k) ?s] => rewrite (emit_bind e d k s); cbn beta
  | |- context [(when true ?m ≫= ?k) ?s] => cbn [when]
  | |- context [(when false ?m ≫= ?k) ?s] => cbn [when]; rewrite (bind_ret tt k s); cbn beta
  | |- context [(when (is_some ?x) ?m ≫= ?k) ?s] => destruct x eqn:?; cbn [is_some]
  | |- context [(when ?c ?m ≫= ?k) ?s] => destruct c eqn:?
  | |- context [((if ?c then _ else _) ≫= ?k) ?s] => destruct c eqn:?
  | |- context [(_stopTracking ≫= ?k) ?s] =>
      rewrite (bind_call _ k s _ _ (_stopTracking_run s)); cbn beta
  | |- context [(_stopMessageCycle ≫= ?k) ?s] =>
      rewrite (bind_call _ k s _ _ (_stopMessageCycle_run s)); cbn beta
  | |- context [(_stopAutoplay ≫= ?k) ?s] =>
      rewrite (bind_call _ k s _ _ (_stopAutoplay_run s)); cbn beta
  | |- context [(register_timer ?env ?kd ?cb ?d ≫= ?k) ?s] =>
      rewrite (bind_call _ k s _ _ (register_timer_run env kd cb d s)); cbn beta
  | |- context [(?m ≫= ?k) ?s] =>
      let a := fresh "a" in
      let s' := fresh "s" in
      let Hc := fresh "Hc" in
      let He := fresh "He" in
      destruct (call_keeps f m s) as [a [s' [He Hc]]];
      [ solve [frame] | solve [frame]
      | rewrite (bind_call m k s s' a He); clear He; cbn beta ]
  | |- context [_stopAutoplay ?s] => rewrite (_stopAutoplay_run s)
  | |- context [_stopMessageCycle ?s] => rewrite (_stopMessageCycle_run s)
  | |- context [_stopTracking ?s] => rewrite (_stopTracking_run s)
  | |- context [_emit ?e ?d ?s] => rewrite (_emit_run e d s)
  | |- context [when true ?m ?s] => cbn [when]
  | |- context [when false ?m ?s] => cbn [when]
  | |- context [when (is_some ?x) ?m ?s] => destruct x eqn:?; cbn [is_some]
  | |- context [when ?c ?m ?s] => destruct c eqn:?
  | |- context [modify ?g ?s] => change (modify g s) with (Normal tt, g s)
  | |- context [@mret M _ ?A ?a ?s] => change (@mret M _ A a s) with (@Normal A a, s)
  end;
  cbn iota; fields; known; cbn [andb orb negb is_some]; cbn iota; recorded.

(** ** The message cursor *)

(** The message cursor: the index and the messages. *)
Lemma nextMessage_run (env : Env) (isAuto : bool) (s : Pointy) :
  1 < len (currentMessages s) ->
  exists s',
    nextMessage env isAuto s = (Normal true, s')
    /\ currentMessages s' = currentMessages s
    /\ currentMessageIndex s'
       = Index_rem (Index_add (currentMessageIndex s) 1) (len (currentMessages s)).
Proof.
  intros Hlen. unfold nextMessage. rewrite bind_get.
  replace (len (currentMessages s) <=? 1) with false by (symmetry; apply Z.leb_gt; exact Hlen).
  cbv zeta.
  do 2 step (fun x : Pointy => (currentMessages x, currentMessageIndex x)).
  step (fun x : Pointy => (currentMessages x, currentMessageIndex x)).
  step (fun x : Pointy => (currentMessages x, currentMessageIndex x)).
  step (fun x : Pointy => (currentMessages x, currentMessageIndex x)).
  eexists. split; [reflexivity|]. fields. cbn in Hc. injection Hc as -> ->. auto.
Qed.

Lemma prevMessage_run (env : Env) (s : Pointy) :
  1 < len (currentMessages s) ->
  exists s',
    prevMessage env s = (Normal true, s')
    /\ currentMessages s' = currentMessages s
    /\ currentMessageIndex s'
       = Index_rem (Index_add (Index_add (currentMessageIndex s) (-1))
                              (len (currentMessages s)))
                   (len (currentMessages s)).
Proof.
  intros Hlen. unfold prevMessage. rewrite bind_get.
  replace (len (currentMessages s) <=? 1) with false by (symmetry; apply Z.leb_gt; exact Hlen).
  cbv zeta.
  do 5 step (fun x : Pointy => (currentMessages x, currentMessageIndex x)).
  eexists. split; [reflexivity|]. fields. cbn in Hc. injection Hc as -> ->. auto.
Qed.

Lemma rem_succ (i n : Z) :
  0 <= i < n -> Z.rem (i + 1) n = if i =? n - 1 then 0 else i + 1.
Proof.
  intros H. rewrite Z.rem_mod_nonneg by lia.
  destruct (Z.eqb_spec i (n - 1)) as [->|Hne].
  - replace (n - 1 + 1) with n by lia. apply Z_mod_same_full.
  - apply Z.mod_small. lia.
Qed.

Lemma rem_pred (i n : Z) :
  0 <= i < n -> Z.rem (i - 1 + n) n = if i =? 0 then n - 1 else i - 1.
Proof.
  intros H. rewrite Z.rem_mod_nonneg by lia.
  destruct (Z.eqb_spec i 0) as [->|Hne].
  - replace (0 - 1 + n) with (n - 1) by lia. apply Z.mod_small. lia.
  - replace (i - 1 + n) with (i - 1 + 1 * n) by lia. rewrite Z_mod_plus_full.
    apply Z.mod_small. lia.
Qed.

Lemma Index_next (z n : Z) :
  0 <= z < n ->
  Index_rem (Index_add (Int z) 1) n = Int (if z =? n - 1 then 0 else z + 1).
Proof.
  intros H. unfold Index_rem, Index_add. cbn [to_number].
  replace (n =? 0) with false by (symmetry; apply Z.eqb_neq; lia).
  rewrite rem_succ by exact H. reflexivity.
Qed.

Lemma Index_prev (z n : Z) :
  0 <= z < n ->
  Index_rem (Index_add (Index_add (Int z) (-1)) n) n
  = Int (if z =? 0 then n - 1 else z - 1).
Proof.
  intros H. unfold Index_rem, Index_add. cbn [to_number].
  replace (n =? 0) with false by (symmetry; apply Z.eqb_neq; lia).
  replace (z + -1 + n) with (z - 1 + n) by lia.
  rewrite rem_pred by exact H. reflexivity.
Qed.

(** Property X10. With several messages and the message index inside them,
    [nextMessage()] moves the index up by one and from the last message back
    to the first; [prevMessage()] moves it down by one and from the first
    message to the last; both return [true], and each undoes the other. With
    at most one message both return [false] and change nothing. *)
Theorem nextMessage_and_prevMessage_wrap_around
    (env env' : Env) (isAuto : bool) (s : Pointy) :
  (forall z,
     getCurrentMessage s = Int z -> 1 < getTotalMessages s -> 0 <= z < getTotalMessages s ->
     let n := exec (nextMessage env isAuto) s in
     let p := exec (prevMessage env) s in
     outcome (nextMessage env isAuto) s = Normal true
     /\ outcome (prevMessage env) s = Normal true
     /\ getCurrentMessage n = Int (if z =? getTotalMessages s - 1 then 0 else z + 1)
     /\ getCurrentMessage p = Int (if z =? 0 then getTotalMessages s - 1 else z - 1)
     /\ getCurrentMessage (exec (prevMessage env') n) = Int z
     /\ getCurrentMessage (exec (nextMessage env' isAuto) p) = Int z)
  /\ (getTotalMessages s <= 1 ->
     nextMessage env isAuto s = (Normal false, s) /\ prevMessage env s = (Normal false, s)).
Proof.
  unfold getTotalMessages, getCurrentMessage. split.
  - intros z Hz Hlen Hidx. cbv zeta.
    destruct (nextMessage_run env isAuto s Hlen) as [n [Hn [Hnm Hni]]].
    destruct (prevMessage_run env s Hlen) as [p [Hp [Hpm Hpi]]].
    rewrite Hz in Hni, Hpi.
    rewrite Index_next in Hni by exact Hidx. rewrite Index_prev in Hpi by exact Hidx.
    unfold outcome, exec. rewrite Hn, Hp. cbn [fst snd].
    assert (Hlen_n : 1 < len (currentMessages n)) by (rewrite Hnm; exact Hlen).
    assert (Hlen_p : 1 < len (currentMessages p)) by (rewrite Hpm; exact Hlen).
    destruct (prevMessage_run env' n Hlen_n) as [pn [Hpn [_ Hpni]]].
    destruct (nextMessage_run env' isAuto p Hlen_p) as [np [Hnp [_ Hnpi]]].
    rewrite Hpn, Hnp. cbn [snd]. rewrite Hpni, Hnpi, Hnm, Hpm, Hni, Hpi.
    repeat split; try reflexivity.
    + rewrite Index_prev by (destruct (Z.eqb_spec z (len (currentMessages s) - 1)); lia).
      f_equal. destruct (Z.eqb_spec z (len (currentMessages s) - 1)); cbn; [lia|].
      destruct (Z.eqb_spec (z + 1) 0); lia.
    + rewrite Index_next by (destruct (Z.eqb_spec z 0); lia).
      f_equal. destruct (Z.eqb_spec z 0).
      * rewrite Z.eqb_refl. lia.
      * destruct (Z.eqb_spec (z - 1) (len (currentMessages s) - 1)); lia.
  - intros Hlen. unfold nextMessage, prevMessage. rewrite !bind_get.
    replace (len (currentMessages s) <=? 1) with true by (symmetry; apply Z.leb_le; exact Hlen).
    split; reflexivity.
Qed.

(** ** Replacing the messages *)

Lemma event_names_app (a b : list Obs) :
  event_names (a ++ b) = (event_names a ++ event_names b)%list.
Proof. unfold event_names. rewrite emitted_app. apply map_app. Qed.

Lemma event_names_emit_obs (s : Pointy) (event : string) (data : Obj) :
  event_names (emit_obs s event data) = [event].
Proof. unfold event_names. rewrite emitted_emit_obs. reflexivity. Qed.

Lemma setMessages_run (env : Env) (content : Content) (animate : bool) (s : Pointy) :
  exists s' t,
    setMessages env content animate s = (Normal tt, s')
    /\ currentMessages s' = to_messages content
    /\ currentMessageIndex s' = 0
    /\ _messageIntervalId s' = None
    /\ messageInterval s' = messageInterval s
    /\ _messageCyclePaused s'
       = (_messageCyclePaused s
          || (is_some (_messageIntervalId s) && (1 <? len (to_messages content))))
    /\ trace s' = (trace s ++ t)%list
    /\ event_names t
       = ((if is_some (_messageIntervalId s) then ["messageCycleStop"] else [])
          ++ (if animate then ["messagesSet"; "messagesSet"] else ["messagesSet"]))%list.
Proof.
  unfold setMessages. rewrite bind_get. cbv zeta.
  destruct animate; [unfold _applyMessages|];
    repeat step msgs_view;
    unfold msgs_view in *;
    match goal with
    | Hc : (_, _, _, _, _, _) = _ |- _ =>
        fields_in Hc; injection Hc as Ht Hm Hi Hid Hp Hint
    end;
    rewrite ?Hm in *;
    (eexists _, _; split; [reflexivity|]); fields;
    repeat match goal with H : _ = _ |- _ => rewrite H end;
    cbn [is_some andb orb]; rewrite ?orb_true_r, ?orb_false_r;
    do 5 (split; [reflexivity|]);
    (split; [rewrite <- ?app_assoc; reflexivity|]);
    rewrite ?event_names_app, ?event_names_emit_obs; reflexivity.
Qed.

(** Property X11. [setMessages(content, animate)] replaces the messages by
    [content] (an array as it is, anything else as the one message) and
    moves to the first of them. A running message cycle is stopped and not
    restarted; it is marked paused when there are several new messages. With
    [animate] (the default) [messagesSet] is emitted twice, once by
    [_applyMessages] and once by [setMessages] itself; without it, once. *)
Theorem setMessages_replaces_the_messages
    (env : Env) (content : Content) (animate : bool) (s : Pointy) :
  let s' := exec (setMessages env content animate) s in
  outcome (setMessages env content animate) s = Normal tt
  /\ currentMessages s' = to_messages content
  /\ getCurrentMessage s' = 0
  /\ isMessageCycleActive s' = false
  /\ isMessageCyclePaused s'
     = (isMessageCyclePaused s
        || (isMessageCycleActive s && (1 <? len (to_messages content))))
  /\ event_names (added s s')
     = ((if isMessageCycleActive s then ["messageCycleStop"] else [])
        ++ (if animate then ["messagesSet"; "messagesSet"] else ["messagesSet"]))%list.
Proof.
  cbv zeta. unfold getCurrentMessage, isMessageCycleActive, isMessageCyclePaused.
  destruct (setMessages_run env content animate s)
    as [s' [t [Hrun [Hm [Hi [Hid [_ [Hp [Ht Hn]]]]]]]]].
  unfold outcome, exec. rewrite Hrun. cbn [fst snd].
  rewrite Hm, Hi, Hid, Hp, (added_app s s' t Ht), Hn. repeat split.
Qed.

(** Property X12. When [setMessages] replaced the messages of a running
    cycle by several new ones, the cycle is stopped and paused, and
    [resumeMessageCycle()] restarts it: it returns [true], an interval timer
    with the message interval is pending and recorded, the cycle is active
    and no longer paused, and [messageCycleStart] and then
    [messageCycleResume] are emitted. *)
Theorem resumeMessageCycle_after_setMessages
    (env env' : Env) (content : Content) (animate : bool) (s : Pointy) (interval : Z) :
  isMessageCycleActive s = true ->
  1 < len (to_messages content) ->
  messageInterval s = Some interval -> interval <> 0 ->
  let s1 := exec (setMessages env content animate) s in
  let s2 := exec (resumeMessageCycle env') s1 in
  isMessageCycleActive s1 = false
  /\ isMessageCyclePaused s1 = true
  /\ outcome (resumeMessageCycle env') s1 = Normal true
  /\ isMessageCycleActive s2 = true
  /\ isMessageCyclePaused s2 = false
  /\ _messageIntervalId s2 = Some (next_timer_id s1)
  /\ timers s2
     = (timers s1
        ++ [mkTimer (next_timer_id s1) KInterval (date_now env') interval CbMessageCycle])%list
  /\ event_names (added s1 s2) = ["messageCycleStart"; "messageCycleResume"].
Proof.
  intros Hact Hlen Hint Hnz. cbv zeta.
  unfold isMessageCycleActive, isMessageCyclePaused in *.
  destruct (setMessages_run env content animate s)
    as [s1 [t [Hrun [Hm [Hi [Hid [Hint1 [Hp [Ht Hn]]]]]]]]].
  unfold exec, outcome. rewrite Hrun. cbn [snd].
  rewrite Hid, Hp, Hact. cbn [is_some].
  replace (1 <? len (to_messages content)) with true by (symmetry; apply Z.ltb_lt; exact Hlen).
  rewrite orb_true_r. split; [reflexivity|]. split; [reflexivity|].
  assert (Hres : exists s2,
             resumeMessageCycle env' s1 = (Normal true, s2)
             /\ _messageIntervalId s2 = Some (next_timer_id s1)
             /\ _messageCyclePaused s2 = false
             /\ timers s2
                = (timers s1 ++ [mkTimer (next_timer_id s1) KInterval (date_now env') interval
                                         CbMessageCycle])%list
             /\ event_names (added s1 s2) = ["messageCycleStart"; "messageCycleResume"]).
  { unfold resumeMessageCycle. rewrite bind_get.
    rewrite Hp, Hact, Hint1, Hint, Hm. cbn [is_some truthy].
    replace (1 <? len (to_messages content)) with true by (symmetry; apply Z.ltb_lt; exact Hlen).
    replace (interval =? 0) with false by (symmetry; apply Z.eqb_neq; exact Hnz).
    rewrite orb_true_r. cbn [negb andb].
    unfold _startMessageCycle, setInterval. repeat step msgs_view. fields. rewrite ?Hint1, ?Hint. cbn [default].
    eexists. split; [reflexivity|]. fields. repeat (split; [reflexivity|]).
    erewrite added_app; [|fields; rewrite <- ?Ht, <- ?app_assoc; reflexivity].
    rewrite event_names_app, !event_names_emit_obs. reflexivity. }
  destruct Hres as [s2 [Hres [Hid2 [Hp2 [Htm Hev]]]]].
  rewrite Hres. cbn [fst snd]. rewrite Hid2, Hp2.
  repeat split; assumption.
Qed.

(** ** Hiding *)

Lemma filter_filter {A : Type} (p q : A -> bool) (l : list A) :
  List.filter p (List.filter q l) = List.filter (fun a => q a && p a) l.
Proof.
  induction l as [|a l IH]; cbn; [reflexivity|].
  destruct (q a); cbn; [destruct (p a)|]; rewrite IH; reflexivity.
Qed.

Lemma filter_true {A : Type} (l : list A) : List.filter (fun _ => true) l = l.
Proof. induction l as [|a l IH]; cbn; [reflexivity | now rewrite IH]. Qed.

Lemma cancel_one (o : option positive) (l : list Timer) :
  match o with
  | Some id => List.filter (fun t => negb (tid t =? id)%positive) l
  | None => l
  end = List.filter (fun t => negb (cancelled [o] t)) l.
Proof.
  unfold cancelled. destruct o as [id|]; cbn [existsb].
  - apply List.filter_ext. intros t. rewrite orb_false_r. reflexivity.
  - symmetry. apply filter_true.
Qed.

(** The timers left when the ids recorded in [a], [b] and [c] are
    cancelled one after the other. *)
Lemma cancel_three (a b c : option positive) (l : list Timer) :
  let cancel := fun (o : option positive) (l : list Timer) =>
    match o with
    | Some id => List.filter (fun t => negb (tid t =? id)%positive) l
    | None => l
    end in
  cancel c (cancel b (cancel a l)) = List.filter (fun t => negb (cancelled [a; b; c] t)) l.
Proof.
  cbv beta zeta. rewrite (cancel_one a), (cancel_one b), (cancel_one c), !filter_filter.
  apply List.filter_ext. intros t. unfold cancelled. cbn [existsb].
  rewrite !orb_false_r, !negb_orb, andb_assoc. reflexivity.
Qed.

(** Property X13. [hide()] returns normally and leaves the instance hidden,
    with the tracking frame request, the message interval and the autoplay
    timeout it had recorded cancelled and their ids cleared; every other
    pending timer, the auto-hide and the movement timeout among them, stays
    pending and recorded. It emits [beforeHide], then [messageCycleStop]
    when a message cycle was running, then [hide]. It remembers whether the
    cycle was running and whether autoplay was active, for the next
    [show()]. *)
Theorem hide_stops_what_it_recorded (s : Pointy) :
  let s' := exec hide s in
  outcome hide s = Normal tt
  /\ isVisible s' = false
  /\ _rafId s' = None
  /\ isMessageCycleActive s' = false
  /\ _autoplayTimeoutId s' = None
  /\ timers s'
     = List.filter
         (fun t => negb (cancelled [_rafId s; _messageIntervalId s; _autoplayTimeoutId s] t))
         (timers s)
  /\ _hideOnCompleteTimeoutId s' = _hideOnCompleteTimeoutId s
  /\ moveTimeout s' = moveTimeout s
  /\ event_names (added s s')
     = (["beforeHide"] ++ (if isMessageCycleActive s then ["messageCycleStop"] else [])
        ++ ["hide"])%list
  /\ _messageCyclePausedByHide s'
     = (isMessageCycleActive s || _messageCyclePausedByHide s)
  /\ _wasAutoplayActiveBeforeHide s' = isAutoplayActive s.
Proof.
  cbv zeta. unfold isMessageCycleActive, isAutoplayActive.
  pose proof (cancel_three (_rafId s) (_messageIntervalId s) (_autoplayTimeoutId s) (timers s))
    as Hcancel. cbv zeta in Hcancel. rewrite <- Hcancel. clear Hcancel.
  assert (Hrun : exists s', hide s = (Normal tt, s')
                 /\ isVisible s' = false
                 /\ _rafId s' = None
                 /\ is_some (_messageIntervalId s') = false
                 /\ _autoplayTimeoutId s' = None
                 /\ timers s'
                    = match _autoplayTimeoutId s with
                      | Some id => List.filter (fun t => negb (tid t =? id)%positive)
                      | None => fun l => l
                      end
                        (match _messageIntervalId s with
                         | Some id => List.filter (fun t => negb (tid t =? id)%positive)
                         | None => fun l => l
                         end
                           (match _rafId s with
                            | Some id => List.filter (fun t => negb (tid t =? id)%positive)
                            | None => fun l => l
                            end (timers s)))
                 /\ _hideOnCompleteTimeoutId s' = _hideOnCompleteTimeoutId s
                 /\ moveTimeout s' = moveTimeout s
                 /\ event_names (added s s')
                    = (["beforeHide"]
                       ++ (if is_some (_messageIntervalId s) then ["messageCycleStop"] else [])
                       ++ ["hide"])%list
                 /\ _messageCyclePausedByHide s'
                    = (is_some (_messageIntervalId s) || _messageCyclePausedByHide s)
                 /\ _wasAutoplayActiveBeforeHide s'
                    = (truthy (autoplay s) && autoplayEnabled s && negb (_autoplayPaused s))).
  { unfold hide. repeat step msgs_view;
      (eexists; split; [reflexivity|]); fields;
      repeat match goal with H : _ = _ |- _ => rewrite H end; cbn [is_some orb];
      repeat (split; [reflexivity|]);
      (split; [erewrite added_app; [|fields; rewrite <- ?app_assoc; reflexivity];
               rewrite ?event_names_app, ?event_names_emit_obs; reflexivity|]);
      split; reflexivity. }
  destruct Hrun as [s' [Hrun H]]. unfold outcome, exec. rewrite Hrun. cbn [fst snd].
  split; [reflexivity|].
  destruct (_rafId s), (_messageIntervalId s), (_autoplayTimeoutId s); exact H.
Qed.

(** ** Stopping, pausing and resuming autoplay *)

Lemma switches__scheduleAutoplay (env : Env) : keeps autoplay_switches (_scheduleAutoplay env).
Proof. unfold _scheduleAutoplay. frame. Qed.

(** Property X14. [stopAutoplay()] cancels the recorded autoplay timeout,
    disables autoplay and clears the pause; [pauseAutoplay()] cancels the
    timeout and sets the pause, leaving autoplay enabled or not as it was.
    Each emits its event ([autoplayStop], [autoplayPause]) whether or not
    autoplay was running. After a pause [resumeAutoplay()] clears the pause,
    so that autoplay is active again exactly when it has an interval and is
    enabled; without a pause [resumeAutoplay()] changes nothing. *)
Theorem stopAutoplay_pauseAutoplay_resumeAutoplay (env : Env) (s : Pointy) :
  let st := exec stopAutoplay s in
  let pa := exec pauseAutoplay s in
  let re := exec (resumeAutoplay env) pa in
  (outcome stopAutoplay s = Normal tt
   /\ isAutoplayActive st = false
   /\ isAutoplayPaused st = false
   /\ autoplayEnabled st = false
   /\ _autoplayTimeoutId st = None
   /\ timers st
      = List.filter (fun t => negb (cancelled [_autoplayTimeoutId s] t)) (timers s)
   /\ event_names (added s st) = ["autoplayStop"])
  /\ (outcome pauseAutoplay s = Normal tt
      /\ isAutoplayActive pa = false
      /\ isAutoplayPaused pa = true
      /\ autoplayEnabled pa = autoplayEnabled s
      /\ _autoplayTimeoutId pa = None
      /\ timers pa
         = List.filter (fun t => negb (cancelled [_autoplayTimeoutId s] t)) (timers s)
      /\ event_names (added s pa) = ["autoplayPause"])
  /\ (isAutoplayPaused re = false
      /\ isAutoplayActive re = truthy (autoplay s) && autoplayEnabled s)
  /\ (isAutoplayPaused s = false -> resumeAutoplay env s = (Normal tt, s)).
Proof.
  cbv zeta. unfold isAutoplayActive, isAutoplayPaused.
  rewrite <- (cancel_one (_autoplayTimeoutId s) (timers s)).
  assert (Hstop : exists st, stopAutoplay s = (Normal tt, st)
            /\ autoplayEnabled st = false /\ _autoplayPaused st = false
            /\ _autoplayTimeoutId st = None
            /\ timers st = match _autoplayTimeoutId s with
                           | Some id => List.filter (fun t => negb (tid t =? id)%positive)
                                          (timers s)
                           | None => timers s
                           end
            /\ event_names (added s st) = ["autoplayStop"]).
  { unfold stopAutoplay. repeat step autoplay_switches;
      (eexists; split; [reflexivity|]); fields; known;
      repeat (split; [reflexivity|]);
      (erewrite added_app; [|fields; reflexivity]); apply event_names_emit_obs. }
  assert (Hpause : exists pa, pauseAutoplay s = (Normal tt, pa)
            /\ autoplay pa = autoplay s
            /\ autoplayEnabled pa = autoplayEnabled s /\ _autoplayPaused pa = true
            /\ _autoplayTimeoutId pa = None
            /\ timers pa = match _autoplayTimeoutId s with
                           | Some id => List.filter (fun t => negb (tid t =? id)%positive)
                                          (timers s)
                           | None => timers s
                           end
            /\ event_names (added s pa) = ["autoplayPause"]).
  { unfold pauseAutoplay. repeat step autoplay_switches;
      (eexists; split; [reflexivity|]); fields; known;
      repeat (split; [reflexivity|]);
      (erewrite added_app; [|fields; reflexivity]); apply event_names_emit_obs. }
  destruct Hstop as [st [Hst [He [Hp [Hid [Ht Hev]]]]]].
  destruct Hpause as [pa [Hpa [Ha' [He' [Hp' [Hid' [Ht' Hev']]]]]]].
  unfold outcome, exec. rewrite Hst, Hpa. cbn [fst snd].
  rewrite He, Hp, Hid, Ht, Hev, He', Hp', Hid', Ht', Hev', !andb_false_r.
  cbn [negb andb].
  split; [repeat split|]. split; [repeat split|]. split.
  - change (_autoplayPaused (exec (resumeAutoplay env) pa) = false
            /\ truthy (autoplay (exec (resumeAutoplay env) pa))
               && autoplayEnabled (exec (resumeAutoplay env) pa)
               && negb (_autoplayPaused (exec (resumeAutoplay env) pa))
               = truthy (autoplay s) && autoplayEnabled s).
    assert (Hsw : autoplay_switches (exec (resumeAutoplay env) pa)
                  = (autoplay s, autoplayEnabled s, false)).
    { unfold resumeAutoplay. rewrite exec_get, Hp'. cbn [negb].
      rewrite exec_modify, exec_emit, switches__scheduleAutoplay.
      unfold autoplay_switches. fields. rewrite Ha', He'. reflexivity. }
    unfold autoplay_switches in Hsw. injection Hsw as -> -> ->.
    rewrite andb_true_r. split; reflexivity.
  - intros Hnp. unfold resumeAutoplay. rewrite bind_get, Hnp. reflexivity.
Qed.

(** ** Invariants every method maintains *)

Lemma maintains_get_bind {C : Type} (I : Pointy -> Prop) (k : Pointy -> M C) :
  (forall s, I s -> I (exec (k s) s)) -> maintains I (get ≫= k).
Proof. intros H s Hs. rewrite exec_get. apply H. exact Hs. Qed.

Lemma maintains_modify_bind {C : Type} (I J : Pointy -> Prop) (g : Pointy -> Pointy)
    (k : unit -> M C) :
  (forall s, I s -> J (g s)) -> (forall s, J s -> I (exec (k tt) s)) ->
  maintains I (modify g ≫= k).
Proof. intros Hg Hk s Hs. rewrite exec_modify. apply Hk, Hg, Hs. Qed.

Lemma Forall_emit_obs (s : Pointy) (event : string) (data : Obj) :
  includes engine_events event = true -> Forall engine_obs (emit_obs s event data).
Proof.
  intros He. unfold emit_obs. cbv zeta. constructor; [exact He|].
  repeat (apply Forall_app; split);
    try (apply Forall_dispatch_obs; intros; exact I).
  destruct (getEventGroup event); [|constructor].
  apply Forall_dispatch_obs; intros; exact I.
Qed.

Section EngineInvariant.
Context (R : Index -> list Step -> option UserCallback -> option UserCallback -> Prop)
        (MP : Index -> list Msg -> Prop) (TR : list Obs -> Prop)
        (TM : list Timer -> positive -> Prop)
        (Hclosed : invariant_closed R MP TR TM)
        (env : Env).

Local Abbreviation Inv := (engine_invariant R MP TR TM).

Lemma inv_obs (l : list Obs) (s : Pointy) :
  Forall engine_obs l -> Inv s -> Inv (set_trace (trace s ++ l)%list s).
Proof using Hclosed.
  intros Hl [Hr [Hm [Ht Htm]]]. repeat split; try assumption. cbn [trace set_trace].
  revert Hl. induction l as [|o l IH] using rev_ind; intros Hl.
  - rewrite app_nil_r. exact Ht.
  - apply Forall_app in Hl. destruct Hl as [Hl Ho]. rewrite app_assoc.
    apply (closed_obs _ _ _ _ Hclosed); [apply IH, Hl | now inversion Ho].
Qed.

Lemma inv_log (o : Obs) : engine_obs o -> maintains Inv (log o).
Proof using Hclosed.
  intros Ho s Hs. unfold log, exec, modify. cbn [snd]. apply inv_obs; [|exact Hs].
  constructor; [exact Ho | constructor].
Qed.

Lemma inv_emit (event : string) (data : Obj) :
  includes engine_events event = true -> maintains Inv (_emit event data).
Proof using Hclosed.
  intros He s Hs. unfold exec. rewrite _emit_run. cbn [snd].
  apply inv_obs; [apply Forall_emit_obs, He | exact Hs].
Qed.

Lemma inv_register_timer (k : TimerKind) (cb : Callback) (d : Z) :
  maintains Inv (register_timer env k cb d).
Proof using Hclosed.
  intros s [Hr [Hm [Ht Htm]]]. unfold exec. rewrite register_timer_run. cbn [snd].
  repeat split; try assumption. fields.
  apply (closed_register _ _ _ _ Hclosed); [exact Htm | reflexivity].
Qed.

Lemma inv_cancel_timer (id : positive) : maintains Inv (cancel_timer id).
Proof using Hclosed.
  intros s [Hr [Hm [Ht Htm]]]. unfold cancel_timer, exec, modify. cbn [snd].
  repeat split; try assumption. fields. apply (closed_cancel _ _ _ _ Hclosed), Htm.
Qed.

Lemma inv_setTimeout (cb : Callback) (d : Z) : maintains Inv (setTimeout env cb d).
Proof using Hclosed. apply inv_register_timer. Qed.

Lemma inv_setInterval (cb : Callback) (d : Z) : maintains Inv (setInterval env cb d).
Proof using Hclosed. apply inv_register_timer. Qed.

Lemma inv_requestAnimationFrame (cb : Callback) :
  maintains Inv (requestAnimationFrame env cb).
Proof using Hclosed. apply inv_register_timer. Qed.

Lemma inv_clearTimeout (id : positive) : maintains Inv (clearTimeout id).
Proof using Hclosed. apply inv_cancel_timer. Qed.

Lemma inv_clearInterval (id : positive) : maintains Inv (clearInterval id).
Proof using Hclosed. apply inv_cancel_timer. Qed.

Lemma inv_cancelAnimationFrame (id : positive) : maintains Inv (cancelAnimationFrame id).
Proof using Hclosed. apply inv_cancel_timer. Qed.

Hint Resolve inv_log inv_emit inv_setTimeout inv_setInterval inv_requestAnimationFrame
  inv_clearTimeout inv_clearInterval inv_cancelAnimationFrame : frame.
Hint Extern 1 (includes engine_events _ = true) => reflexivity : frame.
Hint Extern 1 (engine_obs _) => exact I : frame.

Lemma inv_updatePosition : maintains Inv (updatePosition env).
Proof using Hclosed. unfold updatePosition. frame. Qed.
Hint Resolve inv_updatePosition : frame.

Lemma inv__trackPosition : maintains Inv (_trackPosition env).
Proof using Hclosed. unfold _trackPosition. frame. Qed.
Hint Resolve inv__trackPosition : frame.

Lemma inv__startTracking : maintains Inv (_startTracking env).
Proof using Hclosed. unfold _startTracking. frame. Qed.
Hint Resolve inv__startTracking : frame.

Lemma inv__stopTracking : maintains Inv (_stopTracking).
Proof using Hclosed. unfold _stopTracking. frame. Qed.
Hint Resolve inv__stopTracking : frame.

Lemma inv_updateContent (newContent : Msg) (animate : bool) : maintains Inv (updateContent env newContent animate).
Proof using Hclosed. unfold updateContent. frame. Qed.
Hint Resolve inv_updateContent : frame.

Lemma inv__stopMessageCycle : maintains Inv (_stopMessageCycle).
Proof using Hclosed. unfold _stopMessageCycle. frame. Qed.
Hint Resolve inv__stopMessageCycle : frame.

Lemma inv__startMessageCycle : maintains Inv (_startMessageCycle env).
Proof using Hclosed. unfold _startMessageCycle. frame. Qed.
Hint Resolve inv__startMessageCycle : frame.

(** The messages are replaced and the index is set to zero with them. *)
Lemma inv_messages {C : Type} (ms : list Msg) (k : unit -> M C) :
  maintains Inv (k tt) ->
  maintains Inv (modify (set_currentMessages ms) ≫= fun _ =>
                 modify (set_currentMessageIndex 0) ≫= k).
Proof using Hclosed.
  intros Hk s [Hr [Hm [Ht Htm]]]. rewrite exec_modify, exec_modify. apply Hk.
  repeat split; try assumption. fields. apply (closed_messages _ _ _ _ Hclosed _ _ _ Hm).
Qed.

Lemma inv__applyMessages (content : Content) (fromStepChange : bool) :
  maintains Inv (_applyMessages env content fromStepChange).
Proof using Hclosed.
  unfold _applyMessages.
  apply maintains_bind; [frame | intros this]. cbv zeta.
  apply maintains_bind; [frame | intros _].
  apply inv_messages. frame.
Qed.
Hint Resolve inv__applyMessages : frame.

Lemma inv_pauseMessageCycle : maintains Inv (pauseMessageCycle).
Proof using Hclosed. unfold pauseMessageCycle. frame. Qed.
Hint Resolve inv_pauseMessageCycle : frame.

Lemma inv_resumeMessageCycle : maintains Inv (resumeMessageCycle env).
Proof using Hclosed. unfold resumeMessageCycle. frame. Qed.
Hint Resolve inv_resumeMessageCycle : frame.

Lemma inv_startMessageCycle (interval : option Z) : maintains Inv (startMessageCycle env interval).
Proof using Hclosed. unfold startMessageCycle. frame. Qed.
Hint Resolve inv_startMessageCycle : frame.

Lemma inv_stopMessageCycle : maintains Inv (stopMessageCycle).
Proof using Hclosed. unfold stopMessageCycle. frame. Qed.
Hint Resolve inv_stopMessageCycle : frame.

Lemma inv_nextMessage (isAuto : bool) : maintains Inv (nextMessage env isAuto).
Proof using Hclosed.
  unfold nextMessage. apply maintains_get_bind. intros s Hs.
  destruct (Z.leb_spec (len (currentMessages s)) 1) as [|Hlen]; [exact Hs|]. cbv zeta.
  rewrite exec_modify.
  match goal with |- Inv (exec ?m ?x) => assert (Hk : maintains Inv m) by frame; apply Hk end.
  destruct Hs as [Hr [Hm [Ht Htm]]]. repeat split; try assumption. fields.
  apply (closed_next_message _ _ _ _ Hclosed); assumption.
Qed.
Hint Resolve inv_nextMessage : frame.

Lemma inv_prevMessage : maintains Inv (prevMessage env).
Proof using Hclosed.
  unfold prevMessage. apply maintains_get_bind. intros s Hs.
  destruct (Z.leb_spec (len (currentMessages s)) 1) as [|Hlen]; [exact Hs|]. cbv zeta.
  rewrite exec_modify.
  match goal with |- Inv (exec ?m ?x) => assert (Hk : maintains Inv m) by frame; apply Hk end.
  destruct Hs as [Hr [Hm [Ht Htm]]]. repeat split; try assumption. fields.
  apply (closed_prev_message _ _ _ _ Hclosed); assumption.
Qed.
Hint Resolve inv_prevMessage : frame.

Lemma inv_goToMessage (index : Z) : maintains Inv (goToMessage env (Int index)).
Proof using Hclosed.
  unfold goToMessage. apply maintains_get_bind. intros s Hs.
  unfold Index_ltb, Index_geb. cbn [to_number].
  destruct (Z.ltb_spec index 0) as [|Hlo]; [exact Hs|].
  destruct (Z.leb_spec (len (currentMessages s)) index) as [|Hhi]; [exact Hs|].
  cbn [orb]. cbv zeta. rewrite exec_modify.
  match goal with |- Inv (exec ?m ?x) => assert (Hk : maintains Inv m) by frame; apply Hk end.
  destruct Hs as [Hr [Hm [Ht Htm]]]. repeat split; try assumption. fields.
  apply (closed_message _ _ _ _ Hclosed _ _ _ Hm). lia.
Qed.
Hint Resolve inv_goToMessage : frame.

Lemma inv_setMessages (content : Content) (animate : bool) :
  maintains Inv (setMessages env content animate).
Proof using Hclosed.
  unfold setMessages.
  apply maintains_bind; [frame | intros this]. cbv zeta.
  apply maintains_bind; [ | intros _; frame].
  destruct animate; [frame|].
  apply maintains_bind; [frame | intros _].
  apply inv_messages. frame.
Qed.
Hint Resolve inv_setMessages : frame.

Lemma inv__stopAutoplay : maintains Inv (_stopAutoplay).
Proof using Hclosed. unfold _stopAutoplay. frame. Qed.
Hint Resolve inv__stopAutoplay : frame.

Lemma inv__scheduleAutoplay : maintains Inv (_scheduleAutoplay env).
Proof using Hclosed. unfold _scheduleAutoplay. frame. Qed.
Hint Resolve inv__scheduleAutoplay : frame.

Lemma inv__scheduleAutoplayAfterMessages : maintains Inv (_scheduleAutoplayAfterMessages env).
Proof using Hclosed. unfold _scheduleAutoplayAfterMessages. frame. Qed.
Hint Resolve inv__scheduleAutoplayAfterMessages : frame.

Lemma inv_call_user (o : Obs) (cb : UserCallback) :
  engine_obs o -> maintains Inv (call_user o cb).
Proof using Hclosed. intros Ho. unfold call_user. frame. Qed.
Hint Resolve inv_call_user : frame.

Lemma inv_goToStep (index : Z) : maintains Inv (goToStep env (Int index)).
Proof using Hclosed.
  unfold goToStep. apply maintains_get_bind. intros s Hs.
  unfold Index_ltb, Index_geb. cbn [to_number].
  destruct (Z.eqb_spec (len (steps s)) 0) as [|Hne]; [exact Hs|].
  destruct (Z.ltb_spec index 0) as [|Hlo]; [exact Hs|].
  destruct (Z.leb_spec (len (steps s)) index) as [|Hhi]; [exact Hs|].
  cbn [orb].
  rewrite (exec_call _ _ _ _ _ (_stopAutoplay_run s)).
  rewrite exec_modify, exec_get. cbv zeta. rewrite exec_modify.
  match goal with |- Inv (exec ?m ?x) => assert (Hk : maintains Inv m) by frame; apply Hk end.
  assert (Hs1 : Inv (exec _stopAutoplay s)) by (apply inv__stopAutoplay; exact Hs).
  unfold exec in Hs1. rewrite _stopAutoplay_run in Hs1. cbn [snd] in Hs1.
  assert (Hsteps : steps (match _autoplayTimeoutId s with
                          | Some id =>
                              set__autoplayTimeoutId None
                                (set_timers
                                   (List.filter (fun t => negb (tid t =? id)%positive)
                                      (timers s)) s)
                          | None => s
                          end) = steps s)
    by (destruct (_autoplayTimeoutId s); reflexivity).
  revert Hs1 Hsteps. generalize (match _autoplayTimeoutId s with
                                 | Some id =>
                                     set__autoplayTimeoutId None
                                       (set_timers
                                          (List.filter (fun t => negb (tid t =? id)%positive)
                                             (timers s)) s)
                                 | None => s
                                 end).
  intros s1 [Hr [Hm [Ht Htm]]] Hsteps. repeat split; try assumption. fields.
  apply (closed_step _ _ _ _ Hclosed _ _ _ _ _ Hr). rewrite Hsteps. lia.
Qed.
Hint Resolve inv_goToStep : frame.

Lemma inv_start_cycle_if_multi : maintains Inv (start_cycle_if_multi env).
Proof using Hclosed. unfold start_cycle_if_multi. frame. Qed.
Hint Resolve inv_start_cycle_if_multi : frame.

Lemma inv_show : maintains Inv (show env).
Proof using Hclosed. unfold show. frame. Qed.
Hint Resolve inv_show : frame.

Lemma inv_hide : maintains Inv (hide).
Proof using Hclosed. unfold hide. frame. Qed.
Hint Resolve inv_hide : frame.

Lemma inv_restart : maintains Inv (restart env).
Proof using Hclosed. unfold restart. frame. Qed.
Hint Resolve inv_restart : frame.

Lemma inv_destroy : maintains Inv (destroy).
Proof using Hclosed. unfold destroy. frame. Qed.
Hint Resolve inv_destroy : frame.

Lemma inv_reset (goToFirstStep : bool) : maintains Inv (reset env goToFirstStep).
Proof using Hclosed.
  unfold reset.
  do 8 (apply maintains_bind; [frame | intros ?]).
  apply maintains_get_bind. intros s Hs.
  match goal with
  | |- Inv (exec (_ ≫= ?k) s) => assert (Hk : maintains Inv (k tt)) by frame
  end.
  destruct goToFirstStep; [|apply Hk, Hs].
  destruct (steps s) as [|firstStep rest] eqn:Hsteps; [apply Hk, Hs|].
  erewrite exec_call by reflexivity. apply Hk.
  destruct Hs as [Hr [Hm [Ht Htm]]]. repeat split; try assumption; fields.
  - apply (closed_step _ _ _ _ Hclosed _ _ _ _ _ Hr). rewrite Hsteps. unfold len. cbn. lia.
  - apply (closed_messages _ _ _ _ Hclosed _ _ _ Hm).
Qed.
Hint Resolve inv_reset : frame.

Lemma inv_next : maintains Inv (next env).
Proof using Hclosed.
  unfold next. apply maintains_get_bind. intros s Hs.
  destruct (len (steps s) =? 0); [exact Hs|].
  destruct (Index_ltb (currentStepIndex s) (len (steps s) - 1)) eqn:Hlast.
  - destruct (currentStepIndex s) as [z| |] eqn:Hz; try discriminate.
    rewrite exec_emit, exec_get. fields. rewrite Hz. apply inv_goToStep.
    apply inv_obs; [apply Forall_emit_obs; reflexivity | exact Hs].
  - match goal with |- Inv (exec ?m s) => assert (Hk : maintains Inv m) by frame end.
    apply Hk, Hs.
Qed.
Hint Resolve inv_next : frame.

Lemma inv_prev : maintains Inv (prev env).
Proof using Hclosed.
  unfold prev. apply maintains_get_bind. intros s Hs.
  destruct (len (steps s) =? 0); [exact Hs|].
  destruct (Index_gtb (currentStepIndex s) 0) eqn:Hpos; [|exact Hs].
  destruct (currentStepIndex s) as [z| |] eqn:Hz; try discriminate.
  cbn [when]. rewrite exec_emit, exec_get. fields. rewrite Hz. apply inv_goToStep.
  apply inv_obs; [apply Forall_emit_obs; reflexivity | exact Hs].
Qed.
Hint Resolve inv_prev : frame.

Lemma inv_pointTo (tgt : Target) (content : Content) (direction : option string) : maintains Inv (pointTo env tgt content direction).
Proof using Hclosed. unfold pointTo. frame. Qed.
Hint Resolve inv_pointTo : frame.

Lemma inv_startAutoplay : maintains Inv (startAutoplay env).
Proof using Hclosed. unfold startAutoplay. frame. Qed.
Hint Resolve inv_startAutoplay : frame.

Lemma inv_stopAutoplay : maintains Inv (stopAutoplay).
Proof using Hclosed. unfold stopAutoplay. frame. Qed.
Hint Resolve inv_stopAutoplay : frame.

Lemma inv_pauseAutoplay : maintains Inv (pauseAutoplay).
Proof using Hclosed. unfold pauseAutoplay. frame. Qed.
Hint Resolve inv_pauseAutoplay : frame.

Lemma inv_resumeAutoplay : maintains Inv (resumeAutoplay env).
Proof using Hclosed. unfold resumeAutoplay. frame. Qed.
Hint Resolve inv_resumeAutoplay : frame.

Lemma inv_setResetOnComplete (reset : bool) : maintains Inv (setResetOnComplete reset).
Proof using Hclosed. unfold setResetOnComplete. frame. Qed.
Hint Resolve inv_setResetOnComplete : frame.

Lemma inv_setFloatingAnimation (enabled : bool) : maintains Inv (setFloatingAnimation enabled).
Proof using Hclosed. unfold setFloatingAnimation. frame. Qed.
Hint Resolve inv_setFloatingAnimation : frame.

Lemma inv_setTracking (enabled : bool) : maintains Inv (setTracking env enabled).
Proof using Hclosed. unfold setTracking. frame. Qed.
Hint Resolve inv_setTracking : frame.

Lemma inv_setTrackingFps (fps : Z) : maintains Inv (setTrackingFps fps).
Proof using Hclosed. unfold setTrackingFps. frame. Qed.
Hint Resolve inv_setTrackingFps : frame.

Lemma inv_setMessageInterval (interval : option Z) : maintains Inv (setMessageInterval env interval).
Proof using Hclosed. unfold setMessageInterval. frame. Qed.
Hint Resolve inv_setMessageInterval : frame.

Lemma inv_setOffset (x y : Z) : maintains Inv (setOffset env x y).
Proof using Hclosed. unfold setOffset. frame. Qed.
Hint Resolve inv_setOffset : frame.

Lemma inv_setAnimationDuration (duration : Z) : maintains Inv (setAnimationDuration duration).
Proof using Hclosed. unfold setAnimationDuration. frame. Qed.
Hint Resolve inv_setAnimationDuration : frame.

Lemma inv_setIntroFadeDuration (duration : Z) : maintains Inv (setIntroFadeDuration duration).
Proof using Hclosed. unfold setIntroFadeDuration. frame. Qed.
Hint Resolve inv_setIntroFadeDuration : frame.

Lemma inv_setBubbleFadeDuration (duration : Z) : maintains Inv (setBubbleFadeDuration duration).
Proof using Hclosed. unfold setBubbleFadeDuration. frame. Qed.
Hint Resolve inv_setBubbleFadeDuration : frame.

Lemma inv_console_warn (msg : string) : maintains Inv (console_warn msg).
Proof using Hclosed. unfold console_warn. frame. Qed.
Hint Resolve inv_console_warn : frame.

Lemma inv_setInitialPosition (position : Position) : maintains Inv (setInitialPosition position).
Proof using Hclosed. unfold setInitialPosition. frame. Qed.
Hint Resolve inv_setInitialPosition : frame.

Lemma inv_setInitialPositionOffset (offset : Z) : maintains Inv (setInitialPositionOffset offset).
Proof using Hclosed. unfold setInitialPositionOffset. frame. Qed.
Hint Resolve inv_setInitialPositionOffset : frame.

Lemma inv_setEasing (easing : string) : maintains Inv (setEasing easing).
Proof using Hclosed. unfold setEasing. frame. Qed.
Hint Resolve inv_setEasing : frame.

Lemma inv_setMessageTransitionDuration (duration : Z) : maintains Inv (setMessageTransitionDuration duration).
Proof using Hclosed. unfold setMessageTransitionDuration. frame. Qed.
Hint Resolve inv_setMessageTransitionDuration : frame.

Lemma inv_setPointerSvg (svg : string) : maintains Inv (setPointerSvg svg).
Proof using Hclosed. unfold setPointerSvg. frame. Qed.
Hint Resolve inv_setPointerSvg : frame.

Lemma inv_setAutoplayInterval (interval : option Z) : maintains Inv (setAutoplayInterval env interval).
Proof using Hclosed. unfold setAutoplayInterval. frame. Qed.
Hint Resolve inv_setAutoplayInterval : frame.

Lemma inv_setAutoplayWaitForMessages (wait : bool) : maintains Inv (setAutoplayWaitForMessages wait).
Proof using Hclosed. unfold setAutoplayWaitForMessages. frame. Qed.
Hint Resolve inv_setAutoplayWaitForMessages : frame.

Lemma inv_setHideOnComplete (hide : bool) : maintains Inv (setHideOnComplete hide).
Proof using Hclosed. unfold setHideOnComplete. frame. Qed.
Hint Resolve inv_setHideOnComplete : frame.

Lemma inv_setHideOnCompleteDelay (delay : option Z) : maintains Inv (setHideOnCompleteDelay delay).
Proof using Hclosed. unfold setHideOnCompleteDelay. frame. Qed.
Hint Resolve inv_setHideOnCompleteDelay : frame.

Lemma inv_setAutoplay (interval : option Z) : maintains Inv (setAutoplay env interval).
Proof using Hclosed. unfold setAutoplay. frame. Qed.
Hint Resolve inv_setAutoplay : frame.

Lemma inv_updateTarget (newTarget : Target) : maintains Inv (updateTarget env newTarget).
Proof using Hclosed. unfold updateTarget. frame. Qed.
Hint Resolve inv_updateTarget : frame.

Lemma inv_on (event : string) (callback : Handler) : maintains Inv (on event callback).
Proof using Hclosed. unfold on. frame. Qed.
Hint Resolve inv_on : frame.

Lemma inv_off (event : string) (callback : option Handler) : maintains Inv (off event callback).
Proof using Hclosed. unfold off. frame. Qed.
Hint Resolve inv_off : frame.

Lemma inv_run_callback (cb : Callback) : maintains Inv (run_callback env cb).
Proof using Hclosed. destruct cb; cbn [run_callback]; frame. Qed.

(** Firing a timer: the timer leaves the store or is re-armed, then its
    callback runs. *)
Lemma inv_fire (id : positive) (s s' : Pointy) :
  fire env id s = Some s' -> Inv s -> Inv s'.
Proof using Hclosed.
  unfold fire. destruct (find _ (timers s)) as [t|]; [|discriminate].
  destruct (_ <=? _); [|discriminate].
  intros Hs' [Hr [Hm [Ht Htm]]]. injection Hs' as <-. apply inv_run_callback.
  repeat split; try assumption. fields.
  destruct (kind t).
  - apply (closed_cancel _ _ _ _ Hclosed), Htm.
  - apply (closed_rearm _ _ _ _ Hclosed (timers s)); [|exact Htm].
    rewrite map_map. apply map_ext. intros u. destruct (tid u =? id)%positive; reflexivity.
  - apply (closed_cancel _ _ _ _ Hclosed), Htm.
Qed.

Lemma inv_perform (r : Request) : numeric r -> maintains Inv (perform env r).
Proof using Hclosed.
  destruct r; cbn [perform numeric]; unfold discard; intros Hnum;
    try (lazymatch type of Hnum with ex _ => destruct Hnum as [z ->] end); frame.
Qed.
End EngineInvariant.

#[export] Hint Extern 1 (includes engine_events _ = true) => reflexivity : frame.
#[export] Hint Extern 1 (engine_obs _) => exact I : frame.

#[export] Hint Resolve inv_log inv_emit inv_setTimeout inv_setInterval inv_requestAnimationFrame
  inv_clearTimeout inv_clearInterval inv_cancelAnimationFrame inv_updatePosition
  inv__trackPosition inv__startTracking inv__stopTracking inv_updateContent
  inv__stopMessageCycle inv__startMessageCycle inv__applyMessages inv_pauseMessageCycle
  inv_resumeMessageCycle inv_startMessageCycle inv_stopMessageCycle inv_nextMessage
  inv_prevMessage inv_goToMessage inv_setMessages inv__stopAutoplay inv__scheduleAutoplay
  inv__scheduleAutoplayAfterMessages inv_call_user inv_goToStep inv_start_cycle_if_multi
  inv_show inv_hide inv_restart inv_destroy inv_reset inv_next inv_prev inv_pointTo
  inv_startAutoplay inv_stopAutoplay inv_pauseAutoplay inv_resumeAutoplay inv_setResetOnComplete
  inv_setFloatingAnimation inv_setTracking inv_setTrackingFps inv_setMessageInterval
  inv_setOffset inv_setAnimationDuration inv_setIntroFadeDuration inv_setBubbleFadeDuration
  inv_console_warn inv_setInitialPosition inv_setInitialPositionOffset inv_setEasing
  inv_setMessageTransitionDuration inv_setPointerSvg inv_setAutoplayInterval
  inv_setAutoplayWaitForMessages inv_setHideOnComplete inv_setHideOnCompleteDelay
  inv_setAutoplay inv_updateTarget inv_on inv_off inv_run_callback : frame.

(** An invariant that holds of the constructed instance holds after every
    history. *)
Lemma inv_after
    (R : Index -> list Step -> option UserCallback -> option UserCallback -> Prop)
    (MP : Index -> list Msg -> Prop) (TR : list Obs -> Prop)
    (TM : list Timer -> positive -> Prop) (history : list (Env * Happening))
    (s s' : Pointy) :
  invariant_closed R MP TR TM ->
  well_typed history ->
  after history s = Some s' ->
  engine_invariant R MP TR TM s -> engine_invariant R MP TR TM s'.
Proof.
  intros Hclosed Htyped. revert s.
  induction history as [|[env h] rest IH]; intros s; cbn [after].
  - intros Heq. injection Heq as <-. auto.
  - destruct (happen env h s) as [s1|] eqn:Hh; [|discriminate].
    inversion Htyped as [|? ? Hh_typed Hrest_typed]; subst. cbn [snd] in Hh_typed.
    intros Hrest Hs. apply (IH Hrest_typed s1 Hrest).
    destruct h as [r|id]; cbn [happen] in Hh.
    + injection Hh as <-. apply inv_perform; assumption.
    + apply (inv_fire R MP TR TM Hclosed env id s s1 Hh Hs).
Qed.

(** ** Where the cursors can be *)



Lemma at_index_in_range {A : Type} (l : list A) (z : Z) :
  0 <= z < len l -> exists a, at_index l (Int z) = Some a.
Proof.
  intros H. cbn [at_index].
  replace (z <? 0) with false by (symmetry; apply Z.ltb_ge; lia).
  apply lookup_lt_is_Some. unfold len in H. lia.
Qed.



(** ** Which events are emitted *)

Lemma events_closed :
  invariant_closed (fun _ _ _ _ => True) (fun _ _ => True) (Forall engine_obs)
    (fun _ _ => True).
Proof.
  split; try (intros; exact I).
  intros t o Ht Ho. apply Forall_app. split; [exact Ht | constructor; [exact Ho | constructor]].
Qed.

Lemma event_names_In (t : list Obs) (event : string) :
  In event (event_names t) -> exists data, In (Emit event data) t.
Proof.
  unfold event_names, emitted. rewrite in_map_iff.
  intros [[e d] [He Hin]]. cbn in He. subst e.
  apply in_flat_map in Hin. destruct Hin as [o [Ho Hin]].
  destruct o; cbn in Hin; try contradiction.
  destruct Hin as [Heq|[]]. injection Heq as -> ->. eauto.
Qed.

(** Every engine event has a group, and [contentSet] is none of them:
    checked on the list. *)
Lemma engine_events_table :
  forallb (fun event => is_some (getEventGroup event) && negb (String.eqb event "contentSet"))
    engine_events = true.
Proof. vm_compute. reflexivity. Qed.

(** Property X17. Every event emitted in any history of the embedded calls
    and timers is one of the fifty-seven names of [engine_events]. Each of
    them has a group, one of the eight explicit groups or ['config'], so
    listeners on the groups together are called for every one of these
    events. [contentSet], which the group [content] lists, is not among
    them: no embedded method emits it. *)
Theorem every_emitted_event_has_a_group (s : Pointy) (event : string) :
  reachable s ->
  In event (event_names (trace s)) ->
  In event engine_events
  /\ (exists group, getEventGroup event = Some group)
  /\ event <> "contentSet".
Proof.
  intros [env [options [history [Htyped Hafter]]]] Hin.
  destruct (inv_after _ _ _ _ history _ _ events_closed Htyped Hafter) as [_ [_ [Ht _]]].
  { unfold engine_invariant. cbn. repeat split. constructor. }
  destruct (event_names_In _ _ Hin) as [data Hemit].
  rewrite Forall_forall in Ht. apply list_elem_of_In in Hemit.
  specialize (Ht _ Hemit). change (includes engine_events event = true) in Ht.
  apply includes_In in Ht. split; [exact Ht|].
  pose proof engine_events_table as Htab. rewrite forallb_forall in Htab.
  specialize (Htab _ Ht). apply andb_prop in Htab. destruct Htab as [Hg Hc].
  split.
  - destruct (getEventGroup event) as [g|]; [eauto | discriminate].
  - apply negb_true_iff, String.eqb_neq in Hc. exact Hc.
Qed.

(** ** When the engine throws *)

Section MoreReturns.
Context (env : Env).

Lemma returns__applyMessages (content : Content) (fromStepChange : bool) :
  returns (_applyMessages env content fromStepChange).
Proof. unfold _applyMessages. frame. Qed.

Lemma returns_pauseMessageCycle : returns pauseMessageCycle.
Proof. unfold pauseMessageCycle. frame. Qed.

Lemma returns_resumeMessageCycle : returns (resumeMessageCycle env).
Proof. unfold resumeMessageCycle. frame. Qed.

Lemma returns_startMessageCycle (interval : option Z) : returns (startMessageCycle env interval).
Proof. unfold startMessageCycle. frame. Qed.

Lemma returns_stopMessageCycle : returns stopMessageCycle.
Proof. unfold stopMessageCycle. frame. Qed.

Lemma returns_nextMessage (isAuto : bool) : returns (nextMessage env isAuto).
Proof. unfold nextMessage. frame. Qed.

Lemma returns_prevMessage : returns (prevMessage env).
Proof. unfold prevMessage. frame. Qed.

Lemma returns_goToMessage (index : Z) : returns (goToMessage env index).
Proof. unfold goToMessage. frame. Qed.

Lemma returns_setMessages (content : Content) (animate : bool) :
  returns (setMessages env content animate).
Proof. unfold setMessages. pose proof returns__applyMessages. frame. Qed.

Lemma returns__scheduleAutoplayAfterMessages : returns (_scheduleAutoplayAfterMessages env).
Proof. unfold _scheduleAutoplayAfterMessages. frame. Qed.

Lemma returns_start_cycle_if_multi : returns (start_cycle_if_multi env).
Proof. unfold start_cycle_if_multi. frame. Qed.

Lemma returns_destroy : returns destroy.
Proof. unfold destroy. frame. Qed.

Lemma returns_stopAutoplay : returns stopAutoplay.
Proof. unfold stopAutoplay. frame. Qed.

Lemma returns_pauseAutoplay : returns pauseAutoplay.
Proof. unfold pauseAutoplay. frame. Qed.

Lemma returns_updateTarget (newTarget : Target) : returns (updateTarget env newTarget).
Proof. unfold updateTarget. frame. Qed.

Lemma returns_on (event : string) (callback : Handler) : returns (on event callback).
Proof. unfold on. frame. Qed.

Lemma returns_off (event : string) (callback : option Handler) : returns (off event callback).
Proof. unfold off. frame. Qed.

Lemma returns_console_warn (msg : string) : returns (console_warn msg).
Proof. unfold console_warn. frame. Qed.
Lemma returns_setResetOnComplete (reset : bool) : returns (setResetOnComplete reset).
Proof. unfold setResetOnComplete. frame. Qed.

Lemma returns_setFloatingAnimation (enabled : bool) : returns (setFloatingAnimation enabled).
Proof. unfold setFloatingAnimation. frame. Qed.

Lemma returns_setTracking (enabled : bool) : returns (setTracking env enabled).
Proof. unfold setTracking. frame. Qed.

Lemma returns_setTrackingFps (fps : Z) : returns (setTrackingFps fps).
Proof. unfold setTrackingFps. frame. Qed.

Lemma returns_setMessageInterval (interval : option Z) : returns (setMessageInterval env interval).
Proof. unfold setMessageInterval. frame. Qed.

Lemma returns_setOffset (x y : Z) : returns (setOffset env x y).
Proof. unfold setOffset. frame. Qed.

Lemma returns_setAnimationDuration (duration : Z) : returns (setAnimationDuration duration).
Proof. unfold setAnimationDuration. frame. Qed.

Lemma returns_setIntroFadeDuration (duration : Z) : returns (setIntroFadeDuration duration).
Proof. unfold setIntroFadeDuration. frame. Qed.

Lemma returns_setBubbleFadeDuration (duration : Z) : returns (setBubbleFadeDuration duration).
Proof. unfold setBubbleFadeDuration. frame. Qed.

Lemma returns_setInitialPosition (position : Position) : returns (setInitialPosition position).
Proof. unfold setInitialPosition. pose proof returns_console_warn. frame. Qed.

Lemma returns_setInitialPositionOffset (offset : Z) : returns (setInitialPositionOffset offset).
Proof. unfold setInitialPositionOffset. frame. Qed.

Lemma returns_setEasing (easing : string) : returns (setEasing easing).
Proof. unfold setEasing. frame. Qed.

Lemma returns_setMessageTransitionDuration (duration : Z) : returns (setMessageTransitionDuration duration).
Proof. unfold setMessageTransitionDuration. frame. Qed.

Lemma returns_setPointerSvg (svg : string) : returns (setPointerSvg svg).
Proof. unfold setPointerSvg. frame. Qed.

Lemma returns_setAutoplayWaitForMessages (wait : bool) : returns (setAutoplayWaitForMessages wait).
Proof. unfold setAutoplayWaitForMessages. frame. Qed.

Lemma returns_setHideOnComplete (hide : bool) : returns (setHideOnComplete hide).
Proof. unfold setHideOnComplete. frame. Qed.

Lemma returns_setHideOnCompleteDelay (delay : option Z) : returns (setHideOnCompleteDelay delay).
Proof. unfold setHideOnCompleteDelay. frame. Qed.
End MoreReturns.

#[export] Hint Resolve returns__applyMessages returns_pauseMessageCycle
  returns_resumeMessageCycle returns_startMessageCycle returns_stopMessageCycle
  returns_nextMessage returns_prevMessage returns_goToMessage returns_setMessages
  returns__scheduleAutoplayAfterMessages returns_start_cycle_if_multi returns_destroy
  returns_stopAutoplay returns_pauseAutoplay returns_updateTarget returns_on returns_off
  returns_console_warn returns_setResetOnComplete returns_setFloatingAnimation
  returns_setTracking returns_setTrackingFps returns_setMessageInterval returns_setOffset
  returns_setAnimationDuration returns_setIntroFadeDuration returns_setBubbleFadeDuration
  returns_setInitialPosition returns_setInitialPositionOffset returns_setEasing
  returns_setMessageTransitionDuration returns_setPointerSvg returns_setAutoplayWaitForMessages
  returns_setHideOnComplete returns_setHideOnCompleteDelay : frame.

Lemma steady_closed :
  invariant_closed on_a_step_and_quiet (fun _ _ => True) (fun _ => True) (fun _ _ => True).
Proof.
  split; try (intros; exact I).
  unfold on_a_step_and_quiet. intros i st a b j [_ Hq] Hj. split; [eauto | exact Hq].
Qed.

#[export] Hint Resolve steady_closed : frame.

Lemma safe_of_returns {A : Type} (J : Pointy -> Prop) (m : M A) : returns m -> safe J m.
Proof. intros Hr s _. apply Hr. Qed.

Lemma safe_bind {A C : Type} (J : Pointy -> Prop) (m : M A) (k : A -> M C) :
  safe J m -> maintains J m -> (forall a, safe J (k a)) -> safe J (m ≫= k).
Proof.
  intros Hm Hi Hk s Hs. destruct (Hm s Hs) as [a Ha].
  specialize (Hi s Hs). unfold outcome, exec in *. rewrite bind_unfold.
  destruct (m s) as [c s']. cbn in *. subst c. apply Hk. exact Hi.
Qed.

Lemma safe_when (J : Pointy -> Prop) (c : bool) (m : M unit) : safe J m -> safe J (when c m).
Proof. intros Hm. destruct c; [exact Hm | apply safe_of_returns, returns_ret]. Qed.

Lemma outcome_get {C : Type} (k : Pointy -> M C) (s : Pointy) :
  outcome (get ≫= k) s = outcome (k s) s.
Proof. reflexivity. Qed.

Lemma outcome_modify {C : Type} (g : Pointy -> Pointy) (k : unit -> M C) (s : Pointy) :
  outcome (modify g ≫= k) s = outcome (k tt) (g s).
Proof. reflexivity. Qed.

Lemma outcome_call {A C : Type} (m : M A) (k : A -> M C) (s s' : Pointy) (a : A) :
  m s = (Normal a, s') -> outcome (m ≫= k) s = outcome (k a) s'.
Proof. intros H. unfold outcome. rewrite (bind_call m k s s' a H). reflexivity. Qed.

#[export] Hint Resolve safe_of_returns : frame.

(** One step of a proof that a method does not throw: follow the
    structure of the computation; the calls it makes return and keep the
    invariant. *)
Ltac safe_step :=
  first
    [ solve [eauto 3 with frame]
    | lazymatch goal with
      | |- safe _ (mbind _ _) => apply safe_bind; [ | | intros ? ]
      | |- safe _ (mret _) => apply safe_of_returns, returns_ret
      | |- safe _ get => apply safe_of_returns, returns_get
      | |- safe _ (modify _) => apply safe_of_returns, returns_modify
      | |- safe _ (when _ _) => apply safe_when
      | |- safe _ (if ?c then _ else _) => destruct c
      | |- safe _ (match ?x with _ => _ end) => destruct x
      | |- maintains _ _ => solve [frame]
      end ].

Section NoThrow.
Context (env : Env).

Local Abbreviation J :=
  (engine_invariant on_a_step_and_quiet (fun _ _ => True) (fun _ => True) (fun _ _ => True)).

Lemma safe__scheduleAutoplay : safe J (_scheduleAutoplay env).
Proof.
  intros s [[[z [Hz Hidx]] _] _]. unfold _scheduleAutoplay. rewrite outcome_get. cbv zeta.
  destruct (at_index_in_range (steps s) z Hidx) as [step Hstep].
  rewrite Hz, Hstep. unfold when.
  repeat match goal with
         | |- context [if ?c then _ else _] => destruct c
         | |- context [match ?x with Some _ => _ | None => _ end] => destruct x
         end; eexists; reflexivity.
Qed.

Lemma safe_user_onComplete :
  safe J (get ≫= fun this =>
          match onComplete this with
          | Some cb => call_user (CompleteCb (cb_id cb)) cb
          | None => mret tt
          end).
Proof.
  intros s [[_ [_ Hq]] _]. rewrite outcome_get.
  destruct (onComplete s) as [cb|]; [|eexists; reflexivity].
  cbn in Hq. unfold call_user, outcome, log. rewrite bind_modify, Hq. eexists. reflexivity.
Qed.

Lemma safe_user_onStepChange (step : Step) :
  safe J (get ≫= fun this =>
          match onStepChange this with
          | Some cb => call_user (StepChangeCb (cb_id cb) (currentStepIndex this) step) cb
          | None => mret tt
          end).
Proof.
  intros s [[_ [Hq _]] _]. rewrite outcome_get.
  destruct (onStepChange s) as [cb|]; [|eexists; reflexivity].
  cbn in Hq. unfold call_user, outcome, log. rewrite bind_modify, Hq. eexists. reflexivity.
Qed.

Hint Resolve safe__scheduleAutoplay safe_user_onComplete safe_user_onStepChange : frame.

Lemma safe_goToStep (index : Z) : safe J (goToStep env (Int index)).
Proof.
  intros s Hs. unfold goToStep. rewrite outcome_get.
  unfold Index_ltb, Index_geb. cbn [to_number].
  destruct (Z.eqb_spec (len (steps s)) 0) as [|Hne]; [eexists; reflexivity|].
  destruct (Z.ltb_spec index 0) as [|Hlo]; [eexists; reflexivity|].
  destruct (Z.leb_spec (len (steps s)) index) as [|Hhi]; [eexists; reflexivity|].
  cbn [orb].
  rewrite (outcome_call _ _ _ _ _ (_stopAutoplay_run s)).
  assert (Hs1 : J (exec _stopAutoplay s)) by (apply inv__stopAutoplay; auto with frame).
  unfold exec in Hs1. rewrite _stopAutoplay_run in Hs1. cbn [snd] in Hs1.
  assert (Hsteps : steps (match _autoplayTimeoutId s with
                          | Some id =>
                              set__autoplayTimeoutId None
                                (set_timers
                                   (List.filter (fun t => negb (tid t =? id)%positive)
                                      (timers s)) s)
                          | None => s
                          end) = steps s)
    by (destruct (_autoplayTimeoutId s); reflexivity).
  revert Hs1 Hsteps. generalize (match _autoplayTimeoutId s with
                                 | Some id =>
                                     set__autoplayTimeoutId None
                                       (set_timers
                                          (List.filter (fun t => negb (tid t =? id)%positive)
                                             (timers s)) s)
                                 | None => s
                                 end).
  intros s1 Hs1 Hsteps.
  rewrite outcome_modify, outcome_get. cbv zeta. rewrite outcome_modify. fields.
  destruct (at_index_in_range (steps s) index (conj Hlo Hhi)) as [step Hstep].
  rewrite Hsteps, Hstep.
  match goal with
  | |- exists a, outcome ?m ?x = Normal a => assert (Hk : safe J m) by (repeat safe_step)
  end.
  apply Hk. destruct Hs1 as [[_ Hq] _]. repeat split; try exact I; fields.
  - exists index. split; [reflexivity|]. rewrite Hsteps. lia.
  - apply Hq.
  - apply Hq.
Qed.
Hint Resolve safe_goToStep : frame.

Lemma safe_show : safe J (show env).
Proof. unfold show. repeat safe_step. Qed.
Hint Resolve safe_show : frame.

Lemma safe_restart : safe J (restart env).
Proof. unfold restart. repeat safe_step. Qed.

Lemma safe_next : safe J (next env).
Proof.
  intros s Hs. unfold next. rewrite outcome_get.
  destruct (len (steps s) =? 0); [eexists; reflexivity|].
  destruct (Index_ltb (currentStepIndex s) (len (steps s) - 1)) eqn:Hlast.
  - destruct (currentStepIndex s) as [z| |] eqn:Hz; try discriminate.
    rewrite (outcome_call _ _ _ _ _ (_emit_run _ _ s)), outcome_get. fields. rewrite Hz.
    apply safe_goToStep.
    apply (inv_obs _ _ _ _ steady_closed); [apply Forall_emit_obs; reflexivity | exact Hs].
  - match goal with
    | |- exists a, outcome ?m s = Normal a => assert (Hk : safe J m) by (repeat safe_step)
    end.
    apply Hk, Hs.
Qed.
Hint Resolve safe_restart safe_next : frame.

Lemma safe_prev : safe J (prev env).
Proof.
  intros s Hs. unfold prev. rewrite outcome_get.
  destruct (len (steps s) =? 0); [eexists; reflexivity|].
  destruct (Index_gtb (currentStepIndex s) 0) eqn:Hpos; [|eexists; reflexivity].
  destruct (currentStepIndex s) as [z| |] eqn:Hz; try discriminate.
  cbn [when].
  rewrite (outcome_call _ _ _ _ _ (_emit_run _ _ s)), outcome_get. fields. rewrite Hz.
  apply safe_goToStep.
  apply (inv_obs _ _ _ _ steady_closed); [apply Forall_emit_obs; reflexivity | exact Hs].
Qed.

Lemma safe_pointTo (tgt : Target) (content : Content) (direction : option string) :
  safe J (pointTo env tgt content direction).
Proof. unfold pointTo. repeat safe_step. Qed.

Lemma safe_startAutoplay : safe J (startAutoplay env).
Proof. unfold startAutoplay. repeat safe_step. Qed.

Lemma safe_resumeAutoplay : safe J (resumeAutoplay env).
Proof. unfold resumeAutoplay. repeat safe_step. Qed.

Lemma safe_setAutoplayInterval (interval : option Z) : safe J (setAutoplayInterval env interval).
Proof. unfold setAutoplayInterval. repeat safe_step. Qed.
Hint Resolve safe_setAutoplayInterval : frame.

Lemma safe_setAutoplay (interval : option Z) : safe J (setAutoplay env interval).
Proof. unfold setAutoplay. repeat safe_step. Qed.
Hint Resolve safe_prev safe_pointTo safe_startAutoplay safe_resumeAutoplay safe_setAutoplay
  : frame.


End NoThrow.


(** ** What cancels which timer *)

Lemma not_pending_closed (id : positive) :
  invariant_closed (fun _ _ _ _ => True) (fun _ _ => True) (fun _ => True) (not_pending id).
Proof.
  unfold not_pending. split; try (intros; exact I).
  - intros l n t [Hlt Hl] Ht. split; [lia|].
    apply Forall_app. split; [exact Hl|]. constructor; [lia | constructor].
  - intros l n id' [Hlt Hl]. split; [exact Hlt|].
    rewrite Forall_forall in *. intros t Ht. apply list_elem_of_In, filter_In in Ht.
    apply Hl, list_elem_of_In, Ht.
  - intros l l' n Hmap [Hlt Hl]. split; [exact Hlt|].
    rewrite Forall_forall in *. intros t Ht Heq.
    assert (Hin : In id (map tid l)) by (rewrite <- Hmap, <- Heq; apply in_map, list_elem_of_In, Ht).
    apply in_map_iff in Hin. destruct Hin as [u [Hu Hin]].
    apply (Hl u); [apply list_elem_of_In, Hin | exact Hu].
Qed.

(** Once [id] is cancelled, what follows leaves it cancelled. *)
Lemma stays_cancelled {A : Type} (id : positive) (m : M A) (s : Pointy) :
  maintains (engine_invariant (fun _ _ _ _ => True) (fun _ _ => True) (fun _ => True)
               (not_pending id)) m ->
  (id < next_timer_id s)%positive ->
  Forall (fun t => tid t <> id) (timers s) ->
  Forall (fun t => tid t <> id) (timers (snd (m s))).
Proof.
  intros Hm Hlt Hl.
  destruct (Hm s) as [_ [_ [_ [_ H]]]];
    [unfold engine_invariant, not_pending; auto | exact H].
Qed.

Lemma cancelled_now (id : positive) (l : list Timer) :
  Forall (fun t => tid t <> id) (List.filter (fun t => negb (tid t =? id)%positive) l).
Proof.
  rewrite Forall_forall. intros t Ht. apply list_elem_of_In, filter_In in Ht.
  destruct Ht as [_ Ht]. apply negb_true_iff, Pos.eqb_neq in Ht. exact Ht.
Qed.

Lemma cancelled_filter (id id' : positive) (l : list Timer) :
  Forall (fun t => tid t <> id) l ->
  Forall (fun t => tid t <> id) (List.filter (fun t => negb (tid t =? id')%positive) l).
Proof.
  rewrite !Forall_forall. intros H t Ht. apply list_elem_of_In, filter_In in Ht.
  apply H, list_elem_of_In, Ht.
Qed.

Lemma cancelled_cannot_fire (env : Env) (id : positive) (s : Pointy) :
  Forall (fun t => tid t <> id) (timers s) -> fire env id s = None.
Proof.
  intros H. unfold fire.
  destruct (find _ (timers s)) as [t|] eqn:Hf; [|reflexivity].
  apply find_some in Hf. destruct Hf as [Hin Heq].
  rewrite Forall_forall in H. apply Pos.eqb_eq in Heq.
  exfalso. apply (H t); [apply list_elem_of_In, Hin | exact Heq].
Qed.

Lemma clearTimeout_run (id : positive) (s : Pointy) :
  clearTimeout id s
  = (Normal tt, set_timers (List.filter (fun t => negb (tid t =? id)%positive) (timers s)) s).
Proof. reflexivity. Qed.

Ltac cancel_step :=
  lazymatch goal with
  | |- context [((clearTimeout ?id ≫= ?g) ≫= ?k) ?s] =>
      rewrite (bind_assoc_at (clearTimeout id) g k s); cbn beta;
      rewrite (bind_call _ _ s _ _ (clearTimeout_run id s)); cbn beta; fields
  | |- context [(clearTimeout ?id ≫= ?k) ?s] =>
      rewrite (bind_call _ k s _ _ (clearTimeout_run id s)); cbn beta; fields
  end.

Ltac cancelled_after id :=
  lazymatch goal with
  | |- Forall _ (timers (snd (?m ?s))) => apply (stays_cancelled _ m s)
  end;
  [ pose proof (not_pending_closed id) as Hclosed; frame
  | fields; assumption
  | fields; first [ apply cancelled_now
                  | repeat apply cancelled_filter; apply cancelled_now ] ].

(** Property X19. [show()] and [reset()] cancel the auto-hide that the end
    of the tour scheduled: after either call the timer recorded in
    [_hideOnCompleteTimeoutId] is not pending any more, so it cannot fire,
    however late. The id is one that [setTimeout] handed out. *)
Theorem show_and_reset_cancel_the_pending_auto_hide
    (env later : Env) (s : Pointy) (id : positive) (goToFirstStep : bool) :
  _hideOnCompleteTimeoutId s = Some id ->
  (id < next_timer_id s)%positive ->
  fire later id (exec (show env) s) = None
  /\ fire later id (exec (reset env goToFirstStep) s) = None.
Proof.
  intros Hid Hlt. split; apply cancelled_cannot_fire.
  - unfold show, exec.
    do 3 step msgs_view. cancel_step. cancelled_after id.
  - unfold reset, exec.
    do 4 step msgs_view.
    all: cancel_step.
    all: cancelled_after id.
Qed.


(** Property X20. A new movement supersedes the one under way: [goToStep()]
    to an existing step, [pointTo()] and [reset()] cancel the timeout that
    the previous movement left in [moveTimeout]; after the call that timer
    is not pending any more, so the end of the earlier movement is never
    reported. The id is one that [setTimeout] handed out. *)
Theorem a_new_movement_cancels_the_pending_one
    (env later : Env) (s : Pointy) (id : positive) :
  moveTimeout s = Some id ->
  (id < next_timer_id s)%positive ->
  (forall index : Z, 0 <= index < len (steps s) ->
     fire later id (exec (goToStep env index) s) = None)
  /\ (forall tgt content direction,
        fire later id (exec (pointTo env tgt content direction) s) = None)
  /\ (forall goToFirstStep, fire later id (exec (reset env goToFirstStep) s) = None).
Proof.
  intros Hid Hlt. split; [|split].
  - intros index Hi. apply cancelled_cannot_fire.
    unfold goToStep, exec.
    step msgs_view.
    unfold Index_ltb, Index_geb. cbn [to_number].
    replace (len (steps s) =? 0) with false by (symmetry; apply Z.eqb_neq; lia).
    replace (index <? 0) with false by (symmetry; apply Z.ltb_ge; lia).
    replace (len (steps s) <=? index) with false by (symmetry; apply Z.leb_gt; lia).
    cbn [orb].
    destruct (at_index_in_range (steps s) index Hi) as [st Hst].
    do 5 step msgs_view.
    all: fields; rewrite ?Hst.
    all: do 4 step msgs_view.
    all: cancel_step.
    all: cancelled_after id.
  - intros tgt content direction. apply cancelled_cannot_fire.
    unfold pointTo, exec. cbv zeta.
    do 6 step msgs_view.
    cancel_step. cancelled_after id.
  - intros goToFirstStep. apply cancelled_cannot_fire.
    unfold reset, exec.
    do 3 step msgs_view.
    all: step msgs_view.
    all: destruct (_hideOnCompleteTimeoutId s) as [hideId|] eqn:Hhide;
      [cancel_step; step msgs_view | step msgs_view].
    all: step msgs_view.
    all: cancel_step.
    all: cancelled_after id.
Qed.

(** ** The properties above at concrete runs *)

(** Property X8, at the two-step tour: [next()] goes to step 1 and [prev()]
    back. *)
Lemma next_and_prev_witness :
  getCurrentStep (exec (next (page 10)) two_step_tour) = Int 1
  /\ getCurrentStep (exec (prev (page 20)) (exec (next (page 10)) two_step_tour)) = Int 0.
Proof.
  destruct (next_and_prev_are_inverse_inside_the_tour (page 10) (page 20) two_step_tour 0
              eq_refl) as [H _].
  apply H. split; [discriminate | reflexivity].
Defined.

(** Property X9, at an instance without steps that is shown. *)
Lemma startAutoplay_without_steps_witness :
  outcome (startAutoplay (page 100)) shown_without_steps = Thrown TypeError
  /\ autoplayEnabled (exec (startAutoplay (page 100)) shown_without_steps) = true.
Proof.
  destruct (startAutoplay_without_steps_throws (page 100) shown_without_steps
              eq_refl eq_refl eq_refl eq_refl) as [Hthrown [Henabled _]].
  split; assumption.
Defined.

(** Property X12, at a cycling tour whose two messages are replaced by
    three. *)
Lemma resumeMessageCycle_witness :
  outcome (resumeMessageCycle (page 200))
    (exec (setMessages (page 100) (CArray [MStr "a"; MStr "b"; MStr "c"]) true) cycling_tour)
  = Normal true.
Proof.
  assert (Hinterval : 1000 <> 0) by discriminate.
  destruct (resumeMessageCycle_after_setMessages (page 100) (page 200)
              (CArray [MStr "a"; MStr "b"; MStr "c"]) true cycling_tour 1000
              eq_refl eq_refl eq_refl Hinterval)
    as [_ [_ [H _]]].
  exact H.
Defined.

(** The one-step tour after [show()] is reachable. *)
Lemma shown_one_step_tour_reachable : reachable shown_one_step_tour.
Proof.
  exists (page 0), (tour_options [step_a] None None None), shown_history.
  split; [repeat constructor | reflexivity].
Defined.



(** Property X17, at the [beforeShow] that [show()] emitted. *)
Lemma emitted_event_witness :
  In "beforeShow" (event_names (trace shown_one_step_tour))
  /\ exists group, getEventGroup "beforeShow" = Some group.
Proof.
  assert (Hin : In "beforeShow" (event_names (trace shown_one_step_tour)))
    by (left; reflexivity).
  split; [exact Hin|].
  apply (every_emitted_event_has_a_group shown_one_step_tour "beforeShow"
           shown_one_step_tour_reachable Hin).
Defined.


(** Property X19, at the completed one-step tour, whose auto-hide is timer
    2. *)
Lemma auto_hide_cancelled_witness :
  _hideOnCompleteTimeoutId completed_tour = Some 2%positive
  /\ fire (page 9000) 2 (exec (show (page 5500)) completed_tour) = None
  /\ fire (page 9000) 2 (exec (reset (page 5500) true) completed_tour) = None.
Proof.
  split; [reflexivity|].
  apply (show_and_reset_cancel_the_pending_auto_hide (page 5500) (page 9000)
           completed_tour 2 true); reflexivity.
Defined.

(** Property X20, at the two-step tour on its way to step 1, whose movement
    timeout is timer 1. *)
Lemma movement_cancelled_witness :
  moveTimeout moving_tour = Some 1%positive
  /\ fire (page 5000) 1 (exec (goToStep (page 100) 0) moving_tour) = None.
Proof.
  split; [reflexivity|].
  destruct (a_new_movement_cancels_the_pending_one (page 100) (page 5000) moving_tour 1
              eq_refl eq_refl) as [H _].
  apply H. split; [discriminate | reflexivity].
Defined.
